(** * Alexandria: start-up tables and new-game reset (src/init.cpp)

    A shallow embedding of [init.cpp]: the Zobrist keys, the magic attack
    tables, the squares-between table, the reduction and pruning margins and
    the new-game reset.  Global C++ arrays are finite maps from their index
    tuples to the cells written so far; a cell of a statically
    zero-initialised array that was never written reads as 0. *)

From Stdlib Require Import ZArith QArith Qround Lia Ascii String.
From stdpp Require Import gmap list strings.

Local Open Scope Z_scope.

(** * Machine integers *)

(** [int]: 32 bits, two's complement. *)
Definition wrap32 (z : Z) : Z := (z + 2 ^ 31) mod 2 ^ 32 - 2 ^ 31.

(** [Bitboard] is [uint64_t]: arithmetic is modulo 2^64. *)
Definition wrap64 (z : Z) : Z := z mod 2 ^ 64.

(** A read of a global array cell: 0 where nothing was stored. *)
Definition rd `{Countable K} (t : gmap K Z) (k : K) : Z := default 0 (t !! k).

(** [for (int i = lo; i < hi; i++) body], threading the state. *)
Definition for_loop {St : Type} (lo hi : Z) (body : Z -> St -> St) (s : St) : St :=
  foldl (fun s i => body i s) s (seqZ lo (hi - lo)).

(** * Doubles

    A double is the rational it denotes.  Every arithmetic operation computes
    the exact result and rounds it with [fl]; the library functions [log] and
    [pow] are those of the C library. *)
Section Doubles.
Variable fl : Q -> Q.

Definition fadd (x y : Q) : Q := fl (x + y)%Q.
Definition fmul (x y : Q) : Q := fl (x * y)%Q.
Definition fdiv (x y : Q) : Q := fl (x / y)%Q.
End Doubles.

(** Conversion of a double to [int] drops the fractional part. *)
Definition trunc (q : Q) : Z := if Qle_bool 0 q then Qfloor q else Qceiling q.

(** * InitReductions *)

Record Margins := {
  reductions : gmap (Z * Z * Z) Z;
  lmp_margin : gmap (Z * Z) Z;
  see_margin : gmap (Z * Z) Z
}.

Definition set_reductions (k : Z * Z * Z) (v : Z) (m : Margins) : Margins :=
  {| reductions := <[k := v]> (reductions m);
     lmp_margin := lmp_margin m; see_margin := see_margin m |}.
Definition set_lmp_margin (k : Z * Z) (v : Z) (m : Margins) : Margins :=
  {| reductions := reductions m;
     lmp_margin := <[k := v]> (lmp_margin m); see_margin := see_margin m |}.
Definition set_see_margin (k : Z * Z) (v : Z) (m : Margins) : Margins :=
  {| reductions := reductions m;
     lmp_margin := lmp_margin m; see_margin := <[k := v]> (see_margin m) |}.

(** The three arrays before any code ran. *)
Definition zero_margins : Margins :=
  {| reductions := ∅; lmp_margin := ∅; see_margin := ∅ |}.

Section Reductions.
(** [MAXDEPTH] is declared in a header that is not part of [init.cpp]. *)
Variable MAXDEPTH : Z.
Variable fl : Q -> Q.
Variable libm_log : Q -> Q.
Variable libm_pow : Q -> Q -> Q.

(** [-0.25 + log(i) * log(j) / 2.25] *)
Definition reduction0 (i j : Z) : Q :=
  fadd fl (- (1 # 4))
    (fdiv fl (fmul fl (libm_log (inject_Z i)) (libm_log (inject_Z j))) (9 # 4)).

(** [+1.00 + log(i) * log(j) / 2.00] *)
Definition reduction1 (i j : Z) : Q :=
  fadd fl 1
    (fdiv fl (fmul fl (libm_log (inject_Z i)) (libm_log (inject_Z j))) 2).

(** [1.5 + 0.5 * std::pow(depth, 2.0)] *)
Definition lmp0 (depth : Z) : Q :=
  fadd fl (3 # 2) (fmul fl (1 # 2) (libm_pow (inject_Z depth) 2)).

(** [3.0 + 1.0 * std::pow(depth, 2.0)] *)
Definition lmp1 (depth : Z) : Q :=
  fadd fl 3 (fmul fl 1 (libm_pow (inject_Z depth) 2)).

Definition reductions_body (i j : Z) (m : Margins) : Margins :=
  let m := set_reductions (0, i, j) (trunc (reduction0 i j)) m in
  set_reductions (1, i, j) (trunc (reduction1 i j)) m.

Definition margins_body (depth : Z) (m : Margins) : Margins :=
  let m := set_lmp_margin (depth, 0) (trunc (lmp0 depth)) m in
  let m := set_lmp_margin (depth, 1) (trunc (lmp1 depth)) m in
  let m := set_see_margin (depth, 1) (wrap32 (-80 * depth)) m in
  set_see_margin (depth, 0) (wrap32 (wrap32 (-30 * depth) * depth)) m.

Definition InitReductions (m : Margins) : Margins :=
  let m := set_reductions (0, 0, 0) 0 m in
  let m := set_reductions (1, 0, 0) 0 m in
  let m := for_loop 1 MAXDEPTH
             (fun i => for_loop 1 MAXDEPTH (fun j => reductions_body i j)) m in
  for_loop 0 MAXDEPTH margins_body m.
End Reductions.

(** * initHashKeys *)

Record ZobristKeys := {
  PieceKeys : gmap (Z * Z) Z;
  enpassant_keys : gmap Z Z;
  SideKey : Z;
  CastleKeys : gmap Z Z
}.

Definition set_PieceKeys (k : Z * Z) (v : Z) (ks : ZobristKeys) : ZobristKeys :=
  {| PieceKeys := <[k := v]> (PieceKeys ks); enpassant_keys := enpassant_keys ks;
     SideKey := SideKey ks; CastleKeys := CastleKeys ks |}.
Definition set_enpassant_keys (k : Z) (v : Z) (ks : ZobristKeys) : ZobristKeys :=
  {| PieceKeys := PieceKeys ks; enpassant_keys := <[k := v]> (enpassant_keys ks);
     SideKey := SideKey ks; CastleKeys := CastleKeys ks |}.
Definition set_SideKey (v : Z) (ks : ZobristKeys) : ZobristKeys :=
  {| PieceKeys := PieceKeys ks; enpassant_keys := enpassant_keys ks;
     SideKey := v; CastleKeys := CastleKeys ks |}.
Definition set_CastleKeys (k : Z) (v : Z) (ks : ZobristKeys) : ZobristKeys :=
  {| PieceKeys := PieceKeys ks; enpassant_keys := enpassant_keys ks;
     SideKey := SideKey ks; CastleKeys := <[k := v]> (CastleKeys ks) |}.

(** The four globals before any code ran. *)
Definition zero_keys : ZobristKeys :=
  {| PieceKeys := ∅; enpassant_keys := ∅; SideKey := 0; CastleKeys := ∅ |}.

(** Modelled from the spec: the enumerators [WP] and [BK] of the piece
    enumeration, which is declared outside [init.cpp]: the first and the last
    of the twelve piece types that index [PieceKeys[12][64]]. *)
Definition WP : Z := 0.
Definition BK : Z := 11.

Section HashKeys.
(** The state of the pseudo-random generator, and [GetRandomBitboardNumber],
    which returns the next number and advances the state; both are declared
    outside [init.cpp]. *)
Variable rng : Type.
Variable GetRandomBitboardNumber : rng -> Z * rng.

(** The key tables together with the generator's state. *)
Record HashState := { keys : ZobristKeys; random_state : rng }.

(** [cell = GetRandomBitboardNumber();] *)
Definition assign_random (store : Z -> ZobristKeys -> ZobristKeys)
    (s : HashState) : HashState :=
  let (v, g) := GetRandomBitboardNumber (random_state s) in
  {| keys := store v (keys s); random_state := g |}.

Definition initHashKeys (s : HashState) : HashState :=
  let s := for_loop WP (BK + 1) (fun Typeindex =>
             for_loop 0 64 (fun Numberindex =>
               assign_random (set_PieceKeys (Typeindex, Numberindex)))) s in
  let s := for_loop 0 64 (fun square =>
             assign_random (set_enpassant_keys square)) s in
  let s := for_loop 0 16 (fun index =>
             assign_random (set_CastleKeys index)) s in
  assign_random set_SideKey s.

(** The generator's state after [n] numbers were drawn from [g], and the
    number drawn next. *)
Definition rng_after (n : Z) (g : rng) : rng :=
  Nat.iter (Z.to_nat n) (fun g => snd (GetRandomBitboardNumber g)) g.
Definition draw (n : Z) (g : rng) : Z :=
  fst (GetRandomBitboardNumber (rng_after n g)).
End HashKeys.

Arguments keys {rng} _.
Arguments random_state {rng} _.
Arguments Build_HashState {rng} _ _.

(** Modelled from the spec: [GetRandomBitboardNumber] of the random-number
    header, "a seeded pseudo-random generator": a 32-bit xorshift generator,
    four 16-bit slices of whose outputs make one 64-bit number.  It is the
    generator with which the key tables are evaluated. *)
Definition xorshift32 (state : Z) : Z :=
  let number := state in
  let number := Z.lxor number (Z.shiftl number 13 mod 2 ^ 32) in
  let number := Z.lxor number (Z.shiftr number 17) in
  Z.lxor number (Z.shiftl number 5 mod 2 ^ 32).

Definition xorshift_bitboard (state : Z) : Z * Z :=
  let s1 := xorshift32 state in
  let s2 := xorshift32 s1 in
  let s3 := xorshift32 s2 in
  let s4 := xorshift32 s3 in
  let n1 := Z.land s1 65535 in
  let n2 := Z.land s2 65535 in
  let n3 := Z.land s3 65535 in
  let n4 := Z.land s4 65535 in
  (Z.lor (Z.lor (Z.lor n1 (Z.shiftl n2 16)) (Z.shiftl n3 32)) (Z.shiftl n4 48),
   s4).

Definition xorshift_seed : Z := 1804289383.

(** * InitNewGame *)

(** [memset] stores the low byte of its value in every byte; an [int] has
    four. *)
Definition memset_int (c : Z) : Z :=
  let b := c mod 256 in wrap32 (b + b * 2 ^ 8 + b * 2 ^ 16 + b * 2 ^ 24).

Record PvTable := {
  pvLength : gmap Z Z;
  pvArray : gmap (Z * Z) Z
}.

Definition set_pvLength (k : Z) (v : Z) (t : PvTable) : PvTable :=
  {| pvLength := <[k := v]> (pvLength t); pvArray := pvArray t |}.
Definition set_pvArray (k : Z * Z) (v : Z) (t : PvTable) : PvTable :=
  {| pvLength := pvLength t; pvArray := <[k := v]> (pvArray t) |}.

Section NewGame.
(** Constants and types that are declared outside [init.cpp]: the depth limit,
    the null move, what a position holds besides its history (piece
    placement, side to move, castling rights, en-passant square, half-move
    clock), the history tables of a worker besides its counter moves, the
    limits of a search, and a transposition-table entry. *)
Variable MAXDEPTH : Z.
Variable NOMOVE : Z.
Variable Board : Type.
Variable Histories : Type.
Variable Limits : Type.
Variable TTEntry : Type.

Record Position := {
  board : Board;
  played_positions : list Z
}.

Record SearchData := {
  histories : Histories;
  counterMoves : list Z
}.

Record SearchInfo := {
  starttime : Z;
  stopped : Z;
  nodes : Z;
  seldepth : Z;
  limits : Limits
}.

Record ThreadData := {
  pos : Position;
  sd : SearchData;
  info : SearchInfo;
  pvTable : PvTable
}.

(** What InitNewGame reads and writes: the worker it is given, the shared
    transposition table and the data of the helper threads.  The worker is
    the main thread's, and no element of [threads_data]. *)
Record Engine := {
  worker : ThreadData;
  TT : gmap Z TTEntry;
  threads_data : list ThreadData
}.

(** Functions that are defined outside [init.cpp]: the text parser behind
    ParsePosition, CleanHistories, and what StopHelperThreads does to the
    helpers' data. *)
Variable parse_position_text : string -> Board.
Variable CleanHistories : SearchData -> SearchData.
Variable StopHelperThreads : list ThreadData -> list ThreadData.

(** Modelled from the spec: ParsePosition, the external position parser, which
    "produces a Position value (piece placement, side to move, castling
    rights, en-passant square, half-move clock) from a textual description";
    the played-position history is not among what it produces. *)
Definition ParsePosition (command : string) (p : Position) : Position :=
  {| board := parse_position_text command;
     played_positions := played_positions p |}.

(** Modelled from the spec: ClearTT, which "drops all entries". *)
Definition ClearTT (tt : gmap Z TTEntry) : gmap Z TTEntry := ∅.

(** The loop that cleans the PV table. *)
Definition clean_pv_table (t : PvTable) : PvTable :=
  for_loop 0 (MAXDEPTH + 1) (fun index t =>
    let t := set_pvLength index 0 t in
    for_loop 0 (MAXDEPTH + 1) (fun index2 =>
      set_pvArray (index, index2) NOMOVE) t) t.

(** [now] is what GetTimeMs returns when InitNewGame calls it. *)
Definition InitNewGame (now : Z) (e : Engine) : Engine :=
  let td := worker e in
  let sd1 := CleanHistories (sd td) in
  let pv1 := clean_pv_table (pvTable td) in
  let sd2 := {| histories := histories sd1;
                counterMoves := (fun _ => memset_int NOMOVE) <$> counterMoves sd1 |} in
  let info1 := {| starttime := now; stopped := 0; nodes := 0; seldepth := 0;
                  limits := limits (info td) |} in
  let tt1 := ClearTT (TT e) in
  let helpers := StopHelperThreads (threads_data e) in
  let pos1 := {| board := board (pos td); played_positions := [] |} in
  let pos2 := ParsePosition "position startpos" pos1 in
  {| worker := {| pos := pos2; sd := sd2; info := info1; pvTable := pv1 |};
     TT := tt1;
     threads_data := [] |}.
End NewGame.

Arguments board {Board} _.
Arguments played_positions {Board} _.
Arguments Build_Position {Board} _ _.
Arguments histories {Histories} _.
Arguments counterMoves {Histories} _.
Arguments Build_SearchData {Histories} _ _.
Arguments starttime {Limits} _.
Arguments stopped {Limits} _.
Arguments nodes {Limits} _.
Arguments seldepth {Limits} _.
Arguments limits {Limits} _.
Arguments Build_SearchInfo {Limits} _ _ _ _ _.
Arguments pos {Board Histories Limits} _.
Arguments sd {Board Histories Limits} _.
Arguments info {Board Histories Limits} _.
Arguments pvTable {Board Histories Limits} _.
Arguments Build_ThreadData {Board Histories Limits} _ _ _ _.
Arguments worker {Board Histories Limits TTEntry} _.
Arguments TT {Board Histories Limits TTEntry} _.
Arguments threads_data {Board Histories Limits TTEntry} _.
Arguments Build_Engine {Board Histories Limits TTEntry} _ _ _.
Arguments ParsePosition {Board} _ _ _.
Arguments ClearTT {TTEntry} _.
Arguments InitNewGame _ _ {Board Histories Limits TTEntry} _ _ _ _ _.

(** * Bitboards *)

(** Modelled from the spec: CountBits, the number of set bits of a bitboard
    (the bitboard header is not part of [init.cpp]). *)
Fixpoint popcount (p : positive) : Z :=
  match p with
  | xH => 1
  | xO q => popcount q
  | xI q => 1 + popcount q
  end.

Definition CountBits (bitboard : Z) : Z :=
  match bitboard with
  | Zpos p => popcount p
  | _ => 0
  end.

(** Modelled from the spec: GetLsbIndex, the index of the least significant
    set bit of a bitboard that is not empty. *)
Fixpoint trailing_zeros (p : positive) : Z :=
  match p with
  | xO q => 1 + trailing_zeros q
  | _ => 0
  end.

Definition GetLsbIndex (bitboard : Z) : Z :=
  match bitboard with
  | Zpos p => trailing_zeros p
  | _ => -1
  end.

(** Modelled from the spec: pop_bit of the bitboard header,
    [bitboard &= ~(1ULL << square)]. *)
Definition pop_bit (bitboard square : Z) : Z :=
  Z.land bitboard (Z.lnot (Z.shiftl 1 square)).

(** Modelled from the spec: SetOccupancy, which makes the [index]-th subset of
    the mask ("enumerates every subset of that mask (2^popcount subsets)"):
    bit [count] of [index] decides whether the [count]-th lowest square of the
    mask is occupied. *)
Fixpoint SetOccupancy_loop (rounds : nat) (count index attack_mask occupancy : Z) : Z :=
  match rounds with
  | O => occupancy
  | S rounds =>
      let square := GetLsbIndex attack_mask in
      let attack_mask := pop_bit attack_mask square in
      let occupancy :=
        if Z.land index (Z.shiftl 1 count) =? 0 then occupancy
        else Z.lor occupancy (Z.shiftl 1 square) in
      SetOccupancy_loop rounds (count + 1) index attack_mask occupancy
  end.

Definition SetOccupancy (index bits_in_mask attack_mask : Z) : Z :=
  SetOccupancy_loop (Z.to_nat bits_in_mask) 0 index attack_mask 0.

(** * InitAttackTables and initializeLookupTables *)

Record AttackTables := {
  pawn_attacks : gmap (Z * Z) Z;
  knight_attacks : gmap Z Z;
  king_attacks : gmap Z Z;
  bishop_masks : gmap Z Z;
  rook_masks : gmap Z Z;
  bishop_attacks : gmap (Z * Z) Z;
  rook_attacks : gmap (Z * Z) Z;
  SQUARES_BETWEEN_BB : gmap (Z * Z) Z
}.

Definition set_pawn_attacks (k : Z * Z) (v : Z) (t : AttackTables) : AttackTables :=
  {| pawn_attacks := <[k := v]> (pawn_attacks t);
     knight_attacks := knight_attacks t; king_attacks := king_attacks t;
     bishop_masks := bishop_masks t; rook_masks := rook_masks t;
     bishop_attacks := bishop_attacks t; rook_attacks := rook_attacks t;
     SQUARES_BETWEEN_BB := SQUARES_BETWEEN_BB t |}.
Definition set_knight_attacks (k : Z) (v : Z) (t : AttackTables) : AttackTables :=
  {| pawn_attacks := pawn_attacks t;
     knight_attacks := <[k := v]> (knight_attacks t); king_attacks := king_attacks t;
     bishop_masks := bishop_masks t; rook_masks := rook_masks t;
     bishop_attacks := bishop_attacks t; rook_attacks := rook_attacks t;
     SQUARES_BETWEEN_BB := SQUARES_BETWEEN_BB t |}.
Definition set_king_attacks (k : Z) (v : Z) (t : AttackTables) : AttackTables :=
  {| pawn_attacks := pawn_attacks t;
     knight_attacks := knight_attacks t; king_attacks := <[k := v]> (king_attacks t);
     bishop_masks := bishop_masks t; rook_masks := rook_masks t;
     bishop_attacks := bishop_attacks t; rook_attacks := rook_attacks t;
     SQUARES_BETWEEN_BB := SQUARES_BETWEEN_BB t |}.
Definition set_bishop_masks (k : Z) (v : Z) (t : AttackTables) : AttackTables :=
  {| pawn_attacks := pawn_attacks t;
     knight_attacks := knight_attacks t; king_attacks := king_attacks t;
     bishop_masks := <[k := v]> (bishop_masks t); rook_masks := rook_masks t;
     bishop_attacks := bishop_attacks t; rook_attacks := rook_attacks t;
     SQUARES_BETWEEN_BB := SQUARES_BETWEEN_BB t |}.
Definition set_rook_masks (k : Z) (v : Z) (t : AttackTables) : AttackTables :=
  {| pawn_attacks := pawn_attacks t;
     knight_attacks := knight_attacks t; king_attacks := king_attacks t;
     bishop_masks := bishop_masks t; rook_masks := <[k := v]> (rook_masks t);
     bishop_attacks := bishop_attacks t; rook_attacks := rook_attacks t;
     SQUARES_BETWEEN_BB := SQUARES_BETWEEN_BB t |}.
Definition set_bishop_attacks (k : Z * Z) (v : Z) (t : AttackTables) : AttackTables :=
  {| pawn_attacks := pawn_attacks t;
     knight_attacks := knight_attacks t; king_attacks := king_attacks t;
     bishop_masks := bishop_masks t; rook_masks := rook_masks t;
     bishop_attacks := <[k := v]> (bishop_attacks t); rook_attacks := rook_attacks t;
     SQUARES_BETWEEN_BB := SQUARES_BETWEEN_BB t |}.
Definition set_rook_attacks (k : Z * Z) (v : Z) (t : AttackTables) : AttackTables :=
  {| pawn_attacks := pawn_attacks t;
     knight_attacks := knight_attacks t; king_attacks := king_attacks t;
     bishop_masks := bishop_masks t; rook_masks := rook_masks t;
     bishop_attacks := bishop_attacks t; rook_attacks := <[k := v]> (rook_attacks t);
     SQUARES_BETWEEN_BB := SQUARES_BETWEEN_BB t |}.
Definition set_SQUARES_BETWEEN_BB (k : Z * Z) (v : Z) (t : AttackTables) : AttackTables :=
  {| pawn_attacks := pawn_attacks t;
     knight_attacks := knight_attacks t; king_attacks := king_attacks t;
     bishop_masks := bishop_masks t; rook_masks := rook_masks t;
     bishop_attacks := bishop_attacks t; rook_attacks := rook_attacks t;
     SQUARES_BETWEEN_BB := <[k := v]> (SQUARES_BETWEEN_BB t) |}.

(** The eight arrays before any code ran. *)
Definition zero_tables : AttackTables :=
  {| pawn_attacks := ∅; knight_attacks := ∅; king_attacks := ∅;
     bishop_masks := ∅; rook_masks := ∅; bishop_attacks := ∅; rook_attacks := ∅;
     SQUARES_BETWEEN_BB := ∅ |}.

(** Modelled from the spec: the two sides, which index [pawn_attacks[2][64]]. *)
Definition WHITE : Z := 0.
Definition BLACK : Z := 1.

Section Attacks.
(** What [init.cpp] takes from the attack and magic headers: the attack sets
    of the leapers, the relevant-occupancy masks of the sliders, their attack
    sets by ray casting, the magic constants and the width of a magic index. *)
Variable MaskPawnAttacks : Z -> Z -> Z.
Variable MaskKnightAttacks : Z -> Z.
Variable MaskKingAttacks : Z -> Z.
Variable MaskBishopAttacks : Z -> Z.
Variable MaskRookAttacks : Z -> Z.
Variable BishopAttacksOnTheFly : Z -> Z -> Z.
Variable RookAttacksOnTheFly : Z -> Z -> Z.
Variable bishop_magic_numbers : Z -> Z.
Variable rook_magic_numbers : Z -> Z.
Variable bishop_relevant_bits : Z.
Variable rook_relevant_bits : Z.
(** The lines of a square, from the board header. *)
Variable get_file : Z -> Z.
Variable get_rank : Z -> Z.
Variable get_diagonal : Z -> Z.
Variable get_antidiagonal : Z -> Z.

(** [(occupancy * magic) >> (64 - bits)] on [uint64_t]. *)
Definition magic_hash (magic bits occupancy : Z) : Z :=
  Z.shiftr (wrap64 (occupancy * magic)) (64 - bits).

Definition bishop_index_body (square relevant_bits_count bishop_mask index : Z)
    (t : AttackTables) : AttackTables :=
  let occupancy := SetOccupancy index relevant_bits_count bishop_mask in
  let magic_index :=
    magic_hash (bishop_magic_numbers square) bishop_relevant_bits occupancy in
  set_bishop_attacks (square, magic_index)
    (BishopAttacksOnTheFly square occupancy) t.

Definition rook_index_body (square relevant_bits_count rook_mask index : Z)
    (t : AttackTables) : AttackTables :=
  let occupancy := SetOccupancy index relevant_bits_count rook_mask in
  let magic_index :=
    magic_hash (rook_magic_numbers square) rook_relevant_bits occupancy in
  set_rook_attacks (square, magic_index)
    (RookAttacksOnTheFly square occupancy) t.

Definition attack_tables_body (square : Z) (t : AttackTables) : AttackTables :=
  let t := set_pawn_attacks (WHITE, square) (MaskPawnAttacks WHITE square) t in
  let t := set_pawn_attacks (BLACK, square) (MaskPawnAttacks BLACK square) t in
  let t := set_knight_attacks square (MaskKnightAttacks square) t in
  let t := set_king_attacks square (MaskKingAttacks square) t in
  let t := set_bishop_masks square (MaskBishopAttacks square) t in
  let bishop_mask := rd (bishop_masks t) square in
  let relevant_bits_count := CountBits bishop_mask in
  let occupancy_indices := wrap32 (Z.shiftl 1 relevant_bits_count) in
  let t := for_loop 0 occupancy_indices
             (bishop_index_body square relevant_bits_count bishop_mask) t in
  let t := set_rook_masks square (MaskRookAttacks square) t in
  let rook_mask := rd (rook_masks t) square in
  let relevant_bits_count := CountBits rook_mask in
  let occupancy_indices := wrap32 (Z.shiftl 1 relevant_bits_count) in
  for_loop 0 occupancy_indices
    (rook_index_body square relevant_bits_count rook_mask) t.

Definition InitAttackTables (t : AttackTables) : AttackTables :=
  for_loop 0 64 attack_tables_body t.

(** Modelled from the spec: the query of a slider's table, "mask the given
    occupancy bitboard down to the square's relevant-occupancy mask, multiply
    by the magic constant, shift, and index". *)
Definition GetBishopAttacks (t : AttackTables) (square occupancy : Z) : Z :=
  let occupancy := Z.land occupancy (rd (bishop_masks t) square) in
  rd (bishop_attacks t)
     (square, magic_hash (bishop_magic_numbers square) bishop_relevant_bits
                occupancy).

Definition GetRookAttacks (t : AttackTables) (square occupancy : Z) : Z :=
  let occupancy := Z.land occupancy (rd (rook_masks t) square) in
  rd (rook_attacks t)
     (square, magic_hash (rook_magic_numbers square) rook_relevant_bits
                occupancy).

Definition squares_between_body (sq1 sq2 : Z) (t : AttackTables) : AttackTables :=
  let sqs := Z.lor (Z.shiftl 1 sq1) (Z.shiftl 1 sq2) in
  if (get_file sq1 =? get_file sq2) || (get_rank sq1 =? get_rank sq2) then
    set_SQUARES_BETWEEN_BB (sq1, sq2)
      (Z.land (GetRookAttacks t sq1 sqs) (GetRookAttacks t sq2 sqs)) t
  else if (get_diagonal sq1 =? get_diagonal sq2)
          || (get_antidiagonal sq1 =? get_antidiagonal sq2) then
    set_SQUARES_BETWEEN_BB (sq1, sq2)
      (Z.land (GetBishopAttacks t sq1 sqs) (GetBishopAttacks t sq2 sqs)) t
  else t.

Definition initializeLookupTables (t : AttackTables) : AttackTables :=
  for_loop 0 64 (fun sq1 => for_loop 0 64 (fun sq2 =>
    squares_between_body sq1 sq2)) t.
End Attacks.

(** * InitAll *)

Section Startup.
(** The state of the generator, of the transposition table and of the
    network: their types are declared outside [init.cpp]. *)
Variable rng : Type.
Variable TTable : Type.
Variable Network : Type.

(** What InitAll initialises: the attack tables, the Zobrist keys with the
    generator they are drawn from, the margins, the transposition table, the
    network, and the buffering of the standard output. *)
Record Globals := {
  attack_tables : AttackTables;
  hash_keys : HashState rng;
  margins : Margins;
  transposition_table : TTable;
  network : Network;
  stdout_buffered : bool
}.

Variable MaskPawnAttacks : Z -> Z -> Z.
Variable MaskKnightAttacks : Z -> Z.
Variable MaskKingAttacks : Z -> Z.
Variable MaskBishopAttacks : Z -> Z.
Variable MaskRookAttacks : Z -> Z.
Variable BishopAttacksOnTheFly : Z -> Z -> Z.
Variable RookAttacksOnTheFly : Z -> Z -> Z.
Variable bishop_magic_numbers : Z -> Z.
Variable rook_magic_numbers : Z -> Z.
Variable bishop_relevant_bits : Z.
Variable rook_relevant_bits : Z.
Variable get_file : Z -> Z.
Variable get_rank : Z -> Z.
Variable get_diagonal : Z -> Z.
Variable get_antidiagonal : Z -> Z.
Variable GetRandomBitboardNumber : rng -> Z * rng.
Variable MAXDEPTH : Z.
Variable fl : Q -> Q.
Variable libm_log : Q -> Q.
Variable libm_pow : Q -> Q -> Q.
(** [InitTT] and [nnue.init] are defined outside [init.cpp]; they set up the
    transposition table, of the given number of megabytes, and the network,
    from the named file. *)
Variable InitTT : Z -> TTable -> TTable.
Variable nnue_init : string -> Network -> Network.

(** The calls of InitAll, in their order.  (The console mode it sets before
    them exists on Windows only.) *)
Definition InitAll (g : Globals) : Globals :=
  let unbuffered := false in
  let t := InitAttackTables MaskPawnAttacks MaskKnightAttacks MaskKingAttacks
             MaskBishopAttacks MaskRookAttacks BishopAttacksOnTheFly
             RookAttacksOnTheFly bishop_magic_numbers rook_magic_numbers
             bishop_relevant_bits rook_relevant_bits (attack_tables g) in
  let t := initializeLookupTables bishop_magic_numbers rook_magic_numbers
             bishop_relevant_bits rook_relevant_bits get_file get_rank
             get_diagonal get_antidiagonal t in
  let h := initHashKeys rng GetRandomBitboardNumber (hash_keys g) in
  let m := InitReductions MAXDEPTH fl libm_log libm_pow (margins g) in
  let tt := InitTT 16 (transposition_table g) in
  let n := nnue_init "nn.net" (network g) in
  {| attack_tables := t; hash_keys := h; margins := m;
     transposition_table := tt; network := n; stdout_buffered := unbuffered |}.
End Startup.

Arguments attack_tables {rng TTable Network} _.
Arguments hash_keys {rng TTable Network} _.
Arguments margins {rng TTable Network} _.
Arguments transposition_table {rng TTable Network} _.
Arguments network {rng TTable Network} _.
Arguments stdout_buffered {rng TTable Network} _.
Arguments Build_Globals {rng TTable Network} _ _ _ _ _ _.
Arguments InitAll {rng TTable Network} _ _ _ _ _ _ _ _ _ _ _ _ _ _ _ _ _ _ _ _ _ _ _.

(** * GetTimeMs *)

(** [struct timeval] as gettimeofday fills it: the seconds since the epoch and
    the microseconds of the current second, both [long]. *)
Record timeval := { tv_sec : Z; tv_usec : Z }.

(** [long]: 64 bits, two's complement. *)
Definition wrap_long (z : Z) : Z := (z + 2 ^ 63) mod 2 ^ 64 - 2 ^ 63.

(** The branch that is compiled where [WIN32] is not defined:
    [return t.tv_sec * 1000 + t.tv_usec / 1000;], computed on [long] and
    converted to the [int] the function returns.  [t] is what gettimeofday
    stored. *)
Definition GetTimeMs (t : timeval) : Z :=
  wrap32 (wrap_long (wrap_long (tv_sec t * 1000) + Z.quot (tv_usec t) 1000)).

(** * getfield *)

(** The terminator of a C string. *)
Definition NUL : ascii := Ascii.zero.

(** The memory [line] points to is the list of its bytes; a pointer into it
    is an offset.  The byte after the last one reads as the terminator. *)
Definition char_at (memory : list ascii) (p : nat) : ascii :=
  default NUL (memory !! p).

(** [strspn] and [strcspn] of the C library: the length of the longest
    prefix of a string made of bytes of [delim], and of bytes not of
    [delim]. *)
Fixpoint strspn (s delim : list ascii) : nat :=
  match s with
  | c :: s =>
      if bool_decide (c <> NUL /\ c ∈ delim) then S (strspn s delim) else O
  | [] => O
  end.

Fixpoint strcspn (s delim : list ascii) : nat :=
  match s with
  | c :: s =>
      if bool_decide (c <> NUL /\ c ∉ delim) then S (strcspn s delim) else O
  | [] => O
  end.

(** [strtok] of the C library, on the memory and its saved pointer: with a
    string it starts there, with NULL at the saved pointer; it skips the
    delimiters, and returns NULL if the string ends there; else the token
    starts there, and the delimiter that ends it, if there is one, is
    overwritten by the terminator. *)
Definition strtok (s : option nat) (delim : list ascii)
    (m : list ascii * nat) : option nat * (list ascii * nat) :=
  let s := default m.2 s in
  let s := (s + strspn (drop s m.1) delim)%nat in
  if bool_decide (char_at m.1 s = NUL) then (None, (m.1, s))
  else
    let e := (s + strcspn (drop s m.1) delim)%nat in
    if bool_decide (char_at m.1 e = NUL) then (Some s, (m.1, e))
    else (Some s, (<[e := NUL]> m.1, S e)).

(** The loop of getfield from its test on: [tok] is the token at hand.  A
    round of the loop is one of at most [fuel] calls of strtok. *)
Fixpoint getfield_loop (fuel : nat) (tok : option nat) (num : Z)
    (m : list ascii * nat) : option (option nat * list ascii) :=
  match tok with
  | None => Some (None, m.1)
  | Some p =>
      if bool_decide (char_at m.1 p = NUL) then Some (None, m.1)
      else
        let num := wrap32 (num - 1) in
        if num =? 0 then Some (Some p, m.1)
        else
          match fuel with
          | O => None
          | S fuel =>
              let r := strtok None [";"%char] m in
              getfield_loop fuel r.1 num r.2
          end
  end.

(** [getfield(line, num)]: the pointer returned (NULL is [None]) and the
    memory of [line] afterwards. *)
Definition getfield (line : list ascii) (num : Z)
    : option (option nat * list ascii) :=
  let r := strtok (Some O) [";"%char] (line, O) in
  getfield_loop (length line) r.1 num r.2.

(** * The board and its sliders

    The attack and board headers are not part of [init.cpp]; this is their
    content as the specification describes it, with square [8 * row + column]. *)
Module Geometry.

Definition row_of (square : Z) : Z := square / 8.
Definition column_of (square : Z) : Z := square mod 8.

(** Modelled from the spec: the lines of a square (get_file, get_rank,
    get_diagonal and get_antidiagonal of the board header): two squares share
    a line when the numbers are equal. *)
Definition get_file (square : Z) : Z := column_of square.
Definition get_rank (square : Z) : Z := row_of square.
Definition get_diagonal (square : Z) : Z := 7 + row_of square - column_of square.
Definition get_antidiagonal (square : Z) : Z := row_of square + column_of square.

(** Modelled from the spec: casting a ray "until blocked".  From row [r] and
    column [f] the walk steps by [(dr, df)] while it is inside the bounds; it
    takes each square it is on and stops after a square of [block]. *)
Fixpoint ray_walk (steps : nat) (r f dr df rmin rmax fmin fmax block attacks : Z) : Z :=
  match steps with
  | O => attacks
  | S steps =>
      if (rmin <=? r) && (r <=? rmax) && (fmin <=? f) && (f <=? fmax) then
        let attacks := Z.lor attacks (Z.shiftl 1 (r * 8 + f)) in
        if Z.land (Z.shiftl 1 (r * 8 + f)) block =? 0
        then ray_walk steps (r + dr) (f + df) dr df rmin rmax fmin fmax
               block attacks
        else attacks
      else attacks
  end.

(** Modelled from the spec: the relevant-occupancy masks, the "board squares
    that can block a slider from that square": its rays on the empty board
    without the last square of each. *)
Definition MaskBishopAttacks (square : Z) : Z :=
  let tr := row_of square in
  let tf := column_of square in
  let attacks := ray_walk 8 (tr + 1) (tf + 1) 1 1 1 6 1 6 0 0 in
  let attacks := ray_walk 8 (tr - 1) (tf + 1) (-1) 1 1 6 1 6 0 attacks in
  let attacks := ray_walk 8 (tr + 1) (tf - 1) 1 (-1) 1 6 1 6 0 attacks in
  ray_walk 8 (tr - 1) (tf - 1) (-1) (-1) 1 6 1 6 0 attacks.

Definition MaskRookAttacks (square : Z) : Z :=
  let tr := row_of square in
  let tf := column_of square in
  let attacks := ray_walk 8 (tr + 1) tf 1 0 1 6 0 7 0 0 in
  let attacks := ray_walk 8 (tr - 1) tf (-1) 0 1 6 0 7 0 attacks in
  let attacks := ray_walk 8 tr (tf + 1) 0 1 0 7 1 6 0 attacks in
  ray_walk 8 tr (tf - 1) 0 (-1) 0 7 1 6 0 attacks.

(** Modelled from the spec: the attack sets by ray casting, "the true
    line-of-sight attack set by ray-casting in each direction until
    blocked". *)
Definition BishopAttacksOnTheFly (square block : Z) : Z :=
  let tr := row_of square in
  let tf := column_of square in
  let attacks := ray_walk 8 (tr + 1) (tf + 1) 1 1 0 7 0 7 block 0 in
  let attacks := ray_walk 8 (tr - 1) (tf + 1) (-1) 1 0 7 0 7 block attacks in
  let attacks := ray_walk 8 (tr + 1) (tf - 1) 1 (-1) 0 7 0 7 block attacks in
  ray_walk 8 (tr - 1) (tf - 1) (-1) (-1) 0 7 0 7 block attacks.

Definition RookAttacksOnTheFly (square block : Z) : Z :=
  let tr := row_of square in
  let tf := column_of square in
  let attacks := ray_walk 8 (tr + 1) tf 1 0 0 7 0 7 block 0 in
  let attacks := ray_walk 8 (tr - 1) tf (-1) 0 0 7 0 7 block attacks in
  let attacks := ray_walk 8 tr (tf + 1) 0 1 0 7 0 7 block attacks in
  ray_walk 8 tr (tf - 1) 0 (-1) 0 7 0 7 block attacks.

(** Modelled from the spec: the width of a magic index, "a fixed number of
    bits": the widths of [bishop_attacks[64][512]] and
    [rook_attacks[64][4096]]. *)
Definition bishop_relevant_bits : Z := 9.
Definition rook_relevant_bits : Z := 12.

(** Modelled from the spec: magic constants "chosen/verified offline and
    supplied as static data".  The constants of the magic header are not
    part of [init.cpp]; these are a set found by search for the masks and the
    widths above, and stand for them where a statement is evaluated (which
    checks the constants it uses). *)
Definition bishop_magic_list : list Z :=
  [77128681260321024; 39411309283901955; 9224643073924136960; 146089945457502208;
   9223389646222000448; 9157029199353924; 4925951692505088; 8072772842673947392;
   1224979425196524551; 4834651587674642560; 13835489064444893257; 10520413129263808522;
   576462025769616129; 9241387002569015296; 37452249317504; 9268551047088996612;
   1193457482186687489; 5356837838790720; 2452667722547332132; 617010745434966016;
   37154973179576322; 3603197667519807488; 6341138644225368065; 1157427304335934480;
   5350326698025990; 1126449973584896; 17594468802629; 11529778545912021026;
   18296165560827904; 577177719817650336; 1157434037767373345; 72705340870720;
   47309795450945680; 1153486791022643713; 6773580041846806; 9042417986633988;
   5638304217178120; 4620975794452185152; 299101658842240; 145381913786337484;
   9655858408435220992; 289357377719786630; 423312144597249; 44227172394604544;
   576601833456271425; 13837595762571214864; 288793464248729632; 344391248523706376;
   703721826715648; 11529848940358926464; 5635022896136192; 14123306040833475841;
   4504081200875680; 5765735692026281984; 2323857555396234240; 10538494768236742784;
   6931603876284728336; 140754670326336; 612493952905383940; 18031991240917505;
   578712569330795240; 27213248414216; 648677228120441346; 9223671104562954274].

Definition rook_magic_list : list Z :=
  [36029347181625440; 2350879357676816389; 1477189611310895104; 144124002959507968;
   432380765813344257; 36029898678338064; 5765874307533178112; 2954362455068983426;
   4900233056880713728; 157643579681949704; 2310419177279594508; 562992905191952;
   301749971269452064; 576601491939606529; 4623017587477905412; 577595452598847808;
   2269426363663360; 1729523166199943744; 18032823921287172; 17660905693472;
   8899172311296; 5765171022751861760; 2324424756000080136; 2309502254780515394;
   4612267121060102144; 28710670980358288; 576531259565574468; 9165735104352260;
   288371285572976928; 3756005441718192160; 141083233617955; 252205154693030152;
   36029639172292642; 8933536301568; 576622454332522528; 432640921478397968;
   9044617060159492; 1267822810376704; 2749328527873; 288232576257097761;
   72093605226053632; 27039198545190912; 9243639334756718848; 2377909400691048453;
   288241371538653193; 144124551172526092; 146446167255842960; 4629735621710585858;
   20266336047349792; 9799868257133396032; 2315976245847822544; 293301480549646368;
   5118411349588709377; 37163596106432772; 2891320863121507588; 288797728513852040;
   324329623527620641; 2816160732086370; 653035175576346625; 70514774115330;
   9570286798374914; 1971462332481537; 90073169658380436; 361696461766934658].

Definition bishop_magic_numbers (square : Z) : Z :=
  nth (Z.to_nat square) bishop_magic_list 0.
Definition rook_magic_numbers (square : Z) : Z :=
  nth (Z.to_nat square) rook_magic_list 0.

End Geometry.

(** * Vocabulary of the statements *)

(** The cells of [reductions] the double loop stores in, and what it stores. *)
Definition reductions_written (MAXDEPTH : Z) (k : Z * Z * Z) : bool :=
  bool_decide ((k.1.1 = 0 \/ k.1.1 = 1) /\
               1 <= k.1.2 < MAXDEPTH /\ 1 <= k.2 < MAXDEPTH).

Definition reductions_value (fl libm_log : Q -> Q) (k : Z * Z * Z) : Z :=
  if bool_decide (k.1.1 = 0) then trunc (reduction0 fl libm_log k.1.2 k.2)
  else trunc (reduction1 fl libm_log k.1.2 k.2).

(** An instance of the assumptions on doubles: arithmetic with no rounding
    error, the integer part of the binary logarithm for [log], and the exact
    power. *)
Definition exact_fl (x : Q) : Q := x.
Definition floor_log2 (x : Q) : Q := inject_Z (Z.log2 (Qfloor x)).
Definition exact_pow (x y : Q) : Q := Qpower x (Qfloor y).

(** The two layouts of the en-passant keys: one key per file, and one key per
    square. *)
Definition enpassant_keys_by_file (ks : ZobristKeys) : Prop :=
  forall k : Z, is_Some (enpassant_keys ks !! k) <-> 0 <= k < 8.
Definition enpassant_keys_by_square (ks : ZobristKeys) : Prop :=
  forall k : Z, is_Some (enpassant_keys ks !! k) <-> 0 <= k < 64.

(** [occ] is a subset of [mask]: it has no bit outside it. *)
Definition subset_of (occ mask : Z) : Prop := Z.land occ mask = occ.

(** The magic constant of a square is fit for its mask when occupancies of the
    mask that share an index have the same attack set. *)
Definition magic_consistent (mask : Z) (attacks : Z -> Z) (magic bits : Z) : Prop :=
  forall o1 o2 : Z,
    subset_of o1 mask -> subset_of o2 mask ->
    magic_hash magic bits o1 = magic_hash magic bits o2 ->
    attacks o1 = attacks o2.

(** The constant sends the occupancies of the mask to different indices. *)
Definition magic_injective (mask magic bits : Z) : Prop :=
  forall o1 o2 : Z,
    subset_of o1 mask -> subset_of o2 mask ->
    magic_hash magic bits o1 = magic_hash magic bits o2 -> o1 = o2.

(** Filling a table from a list of cells and values, refusing a cell that
    comes again with another value. *)
Fixpoint consistent_fill (l : list (Z * Z)) (tbl : gmap Z Z) : bool :=
  match l with
  | [] => true
  | (k, v) :: l =>
      match tbl !! k with
      | Some v' => (v' =? v) && consistent_fill l tbl
      | None => consistent_fill l (<[k := v]> tbl)
      end
  end.

(** The magic index and the attack set of every occupancy SetOccupancy makes
    of a mask, and the test that they fill a table consistently. *)
Definition magic_entries (mask : Z) (attacks : Z -> Z) (magic bits : Z) : list (Z * Z) :=
  (fun index =>
     let occupancy := SetOccupancy index (CountBits mask) mask in
     (magic_hash magic bits occupancy, attacks occupancy))
  <$> seqZ 0 (2 ^ CountBits mask).

Definition check_magic (mask : Z) (attacks : Z -> Z) (magic bits : Z) : bool :=
  consistent_fill (magic_entries mask attacks magic bits) ∅.

Definition check_mask (mask : Z) : bool := (0 <=? mask) && (CountBits mask <? 31).

(** The attack sets of pawns, knights and kings play no part in the
    statements; where the tables are evaluated they are left empty. *)
Definition no_attacks (square : Z) : Z := 0.
Definition no_pawn_attacks (side square : Z) : Z := 0.

(** Two states of the tables with the same slider tables and masks. *)
Definition same_sliders (t u : AttackTables) : Prop :=
  bishop_masks u = bishop_masks t /\ rook_masks u = rook_masks t /\
  bishop_attacks u = bishop_attacks t /\ rook_attacks u = rook_attacks t.

(** What initializeLookupTables stores for a pair of squares on a line. *)
Definition on_a_line (get_file get_rank get_diagonal get_antidiagonal : Z -> Z)
    (sq1 sq2 : Z) : bool :=
  (get_file sq1 =? get_file sq2) || (get_rank sq1 =? get_rank sq2)
  || (get_diagonal sq1 =? get_diagonal sq2)
  || (get_antidiagonal sq1 =? get_antidiagonal sq2).

Definition between_value (bishop_magic_numbers rook_magic_numbers : Z -> Z)
    (bishop_relevant_bits rook_relevant_bits : Z) (get_file get_rank : Z -> Z)
    (t : AttackTables) (sq1 sq2 : Z) : Z :=
  let sqs := Z.lor (Z.shiftl 1 sq1) (Z.shiftl 1 sq2) in
  if (get_file sq1 =? get_file sq2) || (get_rank sq1 =? get_rank sq2) then
    Z.land (GetRookAttacks rook_magic_numbers rook_relevant_bits t sq1 sqs)
           (GetRookAttacks rook_magic_numbers rook_relevant_bits t sq2 sqs)
  else
    Z.land (GetBishopAttacks bishop_magic_numbers bishop_relevant_bits t sq1 sqs)
           (GetBishopAttacks bishop_magic_numbers bishop_relevant_bits t sq2 sqs).

(** The squares strictly between two squares that share a rank, a file or a
    diagonal, by coordinates: a square is strictly between [a] and [b] when it
    is neither, lies on the straight line through them and inside the
    rectangle they span. *)
Definition strictly_between (a b s : Z) : bool :=
  let ra := Geometry.row_of a in let fa := Geometry.column_of a in
  let rb := Geometry.row_of b in let fb := Geometry.column_of b in
  let rs := Geometry.row_of s in let fs := Geometry.column_of s in
  negb (s =? a) && negb (s =? b)
  && ((rs - ra) * (fb - fa) =? (fs - fa) * (rb - ra))
  && (Z.min ra rb <=? rs) && (rs <=? Z.max ra rb)
  && (Z.min fa fb <=? fs) && (fs <=? Z.max fa fb).

Definition share_a_line (a b : Z) : bool :=
  let ra := Geometry.row_of a in let fa := Geometry.column_of a in
  let rb := Geometry.row_of b in let fb := Geometry.column_of b in
  (ra =? rb) || (fa =? fb) || (Z.abs (ra - rb) =? Z.abs (fa - fb)).

Definition squares_strictly_between (a b : Z) : Z :=
  if share_a_line a b
  then foldr (fun s bb => if strictly_between a b s
                          then Z.lor bb (Z.shiftl 1 s) else bb) 0 (seqZ 0 64)
  else 0.

(** The value of the code's expression for a pair of squares, with the
    lookups replaced by ray casting on the masked occupancy. *)
Definition between_by_rays (sq1 sq2 : Z) : Z :=
  let sqs := Z.lor (Z.shiftl 1 sq1) (Z.shiftl 1 sq2) in
  if (Geometry.get_file sq1 =? Geometry.get_file sq2)
     || (Geometry.get_rank sq1 =? Geometry.get_rank sq2) then
    Z.land (Geometry.RookAttacksOnTheFly sq1
              (Z.land sqs (Geometry.MaskRookAttacks sq1)))
           (Geometry.RookAttacksOnTheFly sq2
              (Z.land sqs (Geometry.MaskRookAttacks sq2)))
  else if (Geometry.get_diagonal sq1 =? Geometry.get_diagonal sq2)
          || (Geometry.get_antidiagonal sq1 =? Geometry.get_antidiagonal sq2) then
    Z.land (Geometry.BishopAttacksOnTheFly sq1
              (Z.land sqs (Geometry.MaskBishopAttacks sq1)))
           (Geometry.BishopAttacksOnTheFly sq2
              (Z.land sqs (Geometry.MaskBishopAttacks sq2)))
  else 0.

(** A worker in the middle of a game, over one-point types for what the
    headers leave open, and a parser that returns the point. *)
Definition sample_engine : Engine unit unit unit unit :=
  {| worker :=
       {| pos := {| board := tt; played_positions := [11; 22; 11] |};
          sd := {| histories := tt; counterMoves := [4660; 0; 77] |};
          info := {| starttime := 5; stopped := 1; nodes := 12345;
                     seldepth := 9; limits := tt |};
          pvTable := {| pvLength := {[0 := 3]}; pvArray := {[(0, 0) := 4660]} |} |};
     TT := {[99 := tt]};
     threads_data := [] |}.

Definition sample_parser (command : string) : unit := tt.

(** The milliseconds since the epoch at a time, and the times gettimeofday
    returns: at or after the epoch, with the microseconds below a million,
    and with milliseconds that fit in a [long]. *)
Definition milliseconds (t : timeval) : Z := tv_sec t * 1000 + tv_usec t / 1000.

Definition valid_time (t : timeval) : Prop :=
  0 <= tv_sec t /\ tv_sec t * 1000 + 1000 <= 2 ^ 63 /\
  0 <= tv_usec t < 1000000.

(** The string at the start of some memory: the bytes before the first
    terminator. *)
Fixpoint c_string (s : list ascii) : list ascii :=
  match s with
  | c :: s => if bool_decide (c = NUL) then [] else c :: c_string s
  | [] => []
  end.

(** The fields of a line: its maximal runs of bytes other than [;], in their
    order.  [cur] is the run at hand. *)
Definition close_field (cur : list ascii) : list (list ascii) :=
  match cur with
  | [] => []
  | _ => [cur]
  end.

Fixpoint fields_from (s cur : list ascii) : list (list ascii) :=
  match s with
  | c :: s =>
      if bool_decide (c = ";"%char) then close_field cur ++ fields_from s []
      else fields_from s (cur ++ [c])
  | [] => close_field cur
  end.

Definition fields (s : list ascii) : list (list ascii) := fields_from s [].

(** The string getfield returns, read in the memory it leaves. *)
Definition getfield_text (line : list ascii) (num : Z)
    : option (option (list ascii)) :=
  (fun r : option nat * list ascii =>
     (fun p : nat => c_string (drop p r.2)) <$> r.1) <$> getfield line num.

(** The memory getfield leaves. *)
Definition getfield_memory (line : list ascii) (num : Z)
    : option (list ascii) :=
  snd <$> getfield line num.

(** The fields strtok has still to return: those of the string at its saved
    pointer. *)
Definition pending (m : list ascii * nat) : list (list ascii) :=
  fields (c_string (drop m.2 m.1)).

(** The squares two sliders on [sq1] and [sq2] both attack when only these
    two squares are occupied, by ray casting: the rook's rays when the
    squares share a file or a rank, else the bishop's. *)
Definition rays_between (MaskBishopAttacks MaskRookAttacks : Z -> Z)
    (BishopAttacksOnTheFly RookAttacksOnTheFly : Z -> Z -> Z)
    (get_file get_rank : Z -> Z) (sq1 sq2 : Z) : Z :=
  let sqs := Z.lor (Z.shiftl 1 sq1) (Z.shiftl 1 sq2) in
  if (get_file sq1 =? get_file sq2) || (get_rank sq1 =? get_rank sq2) then
    Z.land (RookAttacksOnTheFly sq1 (Z.land sqs (MaskRookAttacks sq1)))
           (RookAttacksOnTheFly sq2 (Z.land sqs (MaskRookAttacks sq2)))
  else
    Z.land (BishopAttacksOnTheFly sq1 (Z.land sqs (MaskBishopAttacks sq1)))
           (BishopAttacksOnTheFly sq2 (Z.land sqs (MaskBishopAttacks sq2))).

(** The masks of a square are small enough for the loops of InitAttackTables
    and its magic constants are fit for them. *)
Definition fit_square (MaskBishopAttacks MaskRookAttacks : Z -> Z)
    (BishopAttacksOnTheFly RookAttacksOnTheFly : Z -> Z -> Z)
    (bishop_magic_numbers rook_magic_numbers : Z -> Z)
    (bishop_relevant_bits rook_relevant_bits : Z) (sq : Z) : Prop :=
  (0 <= MaskBishopAttacks sq /\ CountBits (MaskBishopAttacks sq) < 31 /\
   magic_consistent (MaskBishopAttacks sq) (BishopAttacksOnTheFly sq)
     (bishop_magic_numbers sq) bishop_relevant_bits) /\
  (0 <= MaskRookAttacks sq /\ CountBits (MaskRookAttacks sq) < 31 /\
   magic_consistent (MaskRookAttacks sq) (RookAttacksOnTheFly sq)
     (rook_magic_numbers sq) rook_relevant_bits).

(** Globals before InitAll ran, over one-point types for the transposition
    table and the network, with the sample generator. *)
Definition sample_globals : Globals Z unit unit :=
  {| attack_tables := zero_tables;
     hash_keys := {| keys := zero_keys; random_state := xorshift_seed |};
     margins := zero_margins;
     transposition_table := tt; network := tt; stdout_buffered := true |}.

(** The occupancy InitAttackTables makes of a mask in round [index], and
    that no later round has the same magic index. *)
Definition occupancy_of (mask index : Z) : Z :=
  SetOccupancy index (CountBits mask) mask.

Definition last_at_its_index (mask magic bits index : Z) : Prop :=
  forall later : Z, index < later < 2 ^ CountBits mask ->
    magic_hash magic bits (occupancy_of mask later)
    <> magic_hash magic bits (occupancy_of mask index).

(** The byte of an [int] at an offset from 0 to 3, in two's complement. *)
Definition byte_of (z offset : Z) : Z := (z / 256 ^ offset) mod 256.

(** A step overwrites cells of a table with values that do not depend on the
    state it starts from, on the states that keep [inv]. *)
Definition overwrites {St : Type} `{Countable K} {V : Type}
    (inv : St -> Prop) (f : St -> gmap K V) (step : St -> St) : Prop :=
  exists W : gmap K V, forall s, inv s -> inv (step s) /\ f (step s) = W ∪ f s.

(** The steps of a list, one after the other. *)
Definition run_steps {St : Type} (steps : list (St -> St)) (s : St) : St :=
  foldl (fun s step => step s) s steps.

(** Another worker, before its first game, with the search data and limits
    of [sample_engine]. *)
Definition fresh_engine : Engine unit unit unit unit :=
  {| worker :=
       {| pos := {| board := tt; played_positions := [] |};
          sd := {| histories := tt; counterMoves := [4660; 0; 77] |};
          info := {| starttime := 0; stopped := 0; nodes := 0;
                     seldepth := 0; limits := tt |};
          pvTable := {| pvLength := ∅; pvArray := ∅ |} |};
     TT := ∅;
     threads_data := [] |}.

(** * Loops and stores *)

Lemma for_loop_empty {St : Type} (lo hi : Z) (body : Z -> St -> St) (s : St) :
  hi <= lo -> for_loop lo hi body s = s.
Proof.
  intros H. unfold for_loop. rewrite seqZ_nil by lia. reflexivity.
Qed.

Lemma for_loop_step {St : Type} (lo hi : Z) (body : Z -> St -> St) (s : St) :
  lo <= hi -> for_loop lo (hi + 1) body s = body hi (for_loop lo hi body s).
Proof.
  intros H. unfold for_loop.
  replace (hi + 1 - lo) with ((hi - lo) + 1) by lia.
  rewrite seqZ_app by lia. rewrite foldl_app.
  replace (lo + (hi - lo)) with hi by lia.
  rewrite (seqZ_cons hi 1) by lia. rewrite (seqZ_nil _ (Z.pred 1)) by lia. reflexivity.
Qed.

(** The invariant rule of a counting loop. *)
Lemma for_loop_inv {St : Type} (P : Z -> St -> Prop) (lo hi : Z)
    (body : Z -> St -> St) (s : St) :
  lo <= hi -> P lo s ->
  (forall i t, lo <= i < hi -> P i t -> P (i + 1) (body i t)) ->
  P hi (for_loop lo hi body s).
Proof.
  intros Hle H0 Hstep.
  assert (Hgen : forall n : nat, lo + Z.of_nat n <= hi ->
             P (lo + Z.of_nat n) (for_loop lo (lo + Z.of_nat n) body s)).
  { induction n as [|n IH]; intros Hn.
    - rewrite Z.add_0_r. rewrite for_loop_empty by lia. exact H0.
    - replace (lo + Z.of_nat (S n)) with (lo + Z.of_nat n + 1) by lia.
      rewrite for_loop_step by lia. apply Hstep; [lia|]. apply IH. lia. }
  specialize (Hgen (Z.to_nat (hi - lo))).
  replace (lo + Z.of_nat (Z.to_nat (hi - lo))) with hi in Hgen by lia.
  apply Hgen. lia.
Qed.

(** A loop whose [i]-th round stores [val i k] in the cells [k] with
    [wr i k] of one array [f], and leaves the other cells of [f] alone, on
    states that keep [inv]: when two rounds that store in the same cell store
    the same value, the cell holds after the loop what any round stored there,
    and a cell no round stored in is as before. *)
Lemma for_loop_stores_inv {St : Type} `{Countable K} {V : Type}
    (inv : St -> Prop)
    (f : St -> gmap K V) (wr : Z -> K -> bool) (val : Z -> K -> V)
    (lo hi : Z) (body : Z -> St -> St) :
  (forall i t, lo <= i < hi -> inv t ->
      inv (body i t) /\
      forall k, f (body i t) !! k = if wr i k then Some (val i k) else f t !! k) ->
  (forall i i' k, lo <= i < hi -> lo <= i' < hi ->
      wr i k = true -> wr i' k = true -> val i k = val i' k) ->
  forall s, inv s ->
    inv (for_loop lo hi body s) /\
    forall k,
      (forall i, lo <= i < hi -> wr i k = true ->
          f (for_loop lo hi body s) !! k = Some (val i k)) /\
      ((forall i, lo <= i < hi -> wr i k = false) ->
          f (for_loop lo hi body s) !! k = f s !! k).
Proof.
  intros Hbody Hsame s Hs.
  destruct (Z_le_gt_dec lo hi) as [Hle|Hgt].
  2:{ rewrite for_loop_empty by lia. split; [exact Hs|]. intros k.
      split; [intros i Hi; lia|reflexivity]. }
  pose (P := fun (n : Z) (t : St) =>
    inv t /\
    forall k,
      (forall i, lo <= i < n -> wr i k = true -> f t !! k = Some (val i k)) /\
      ((forall i, lo <= i < n -> wr i k = false) -> f t !! k = f s !! k)).
  assert (HP : forall n, lo <= n <= hi -> P n (for_loop lo n body s)).
  { intros n Hn. apply for_loop_inv; [lia| |].
    - split; [exact Hs|]. intros k. split; [intros i Hi; lia|reflexivity].
    - intros i t Hi [Hinv Hk]. destruct (Hbody i t ltac:(lia) Hinv) as [Hinv' Hb].
      split; [exact Hinv'|]. intros k. destruct (Hk k) as [Hw Hn']. split.
      + intros j Hj Hwj. rewrite Hb.
        destruct (wr i k) eqn:Hwi.
        * f_equal. apply Hsame; auto; lia.
        * apply Hw; [|exact Hwj].
          destruct (Z.eq_dec j i) as [->|]; [congruence|lia].
      + intros Hnone. rewrite Hb.
        rewrite (Hnone i) by lia. apply Hn'. intros j Hj. apply Hnone. lia. }
  apply (HP hi). lia.
Qed.

Lemma for_loop_stores {St : Type} `{Countable K} {V : Type}
    (f : St -> gmap K V) (wr : Z -> K -> bool) (val : Z -> K -> V)
    (lo hi : Z) (body : Z -> St -> St) :
  (forall i t k, lo <= i < hi ->
      f (body i t) !! k = if wr i k then Some (val i k) else f t !! k) ->
  (forall i i' k, lo <= i < hi -> lo <= i' < hi ->
      wr i k = true -> wr i' k = true -> val i k = val i' k) ->
  forall s k,
    (forall i, lo <= i < hi -> wr i k = true ->
        f (for_loop lo hi body s) !! k = Some (val i k)) /\
    ((forall i, lo <= i < hi -> wr i k = false) ->
        f (for_loop lo hi body s) !! k = f s !! k).
Proof.
  intros Hbody Hsame s k.
  apply (for_loop_stores_inv (fun _ => True) f wr val lo hi body); auto.
Qed.

(** The frame part alone: a loop that never touches [f] leaves it as it is. *)
Lemma for_loop_frame {St A : Type} (f : St -> A) (lo hi : Z) (body : Z -> St -> St) :
  (forall i t, lo <= i < hi -> f (body i t) = f t) ->
  forall s, f (for_loop lo hi body s) = f s.
Proof.
  intros Hbody s.
  destruct (Z_le_gt_dec lo hi) as [Hle|Hgt].
  2:{ rewrite for_loop_empty by lia. reflexivity. }
  apply (for_loop_inv (fun _ t => f t = f s)); [lia|reflexivity|].
  intros i t Hi Ht. rewrite Hbody by lia. exact Ht.
Qed.

(** * Truncation of doubles *)

Lemma trunc_comp (x y : Q) : (x == y)%Q -> trunc x = trunc y.
Proof.
  intros E. unfold trunc.
  rewrite (Qleb_comp 0%Q 0%Q (Qeq_refl 0%Q) x y E).
  destruct (Qle_bool 0 y).
  - apply Qfloor_comp, E.
  - apply Qceiling_comp, E.
Qed.

Lemma trunc_mono (x y : Q) : (x <= y)%Q -> trunc x <= trunc y.
Proof.
  intros Hxy. unfold trunc.
  destruct (Qle_bool 0 x) eqn:Ex, (Qle_bool 0 y) eqn:Ey.
  - apply Qfloor_resp_le, Hxy.
  - apply Qle_bool_iff in Ex.
    assert (Hy : (0 <= y)%Q) by (eapply Qle_trans; eauto).
    apply Qle_bool_iff in Hy. congruence.
  - assert (Hx : (x <= 0)%Q).
    { apply Qnot_lt_le. intros Hlt. apply Qlt_le_weak in Hlt.
      apply Qle_bool_iff in Hlt. congruence. }
    apply Qle_bool_iff in Ey.
    transitivity 0.
    + change 0 with (Qceiling 0%Q). apply Qceiling_resp_le, Hx.
    + change 0 with (Qfloor 0%Q). apply Qfloor_resp_le, Ey.
  - apply Qceiling_resp_le, Hxy.
Qed.

Lemma trunc_quarters (n : Z) : 0 <= n -> trunc (n # 4) = n / 4.
Proof.
  intros Hn. unfold trunc.
  assert (H0 : (0 <= n # 4)%Q) by (unfold Qle; simpl; lia).
  apply Qle_bool_iff in H0. rewrite H0. reflexivity.
Qed.

(** * The cells InitReductions stores in *)

Section ReductionsStores.
Variable MAXDEPTH : Z.
Variable fl : Q -> Q.
Variable libm_log : Q -> Q.
Variable libm_pow : Q -> Q -> Q.

Lemma reductions_body_lookup (i j : Z) (m : Margins) (k : Z * Z * Z) :
  reductions (reductions_body fl libm_log i j m) !! k =
    if bool_decide (k = (0, i, j) \/ k = (1, i, j))
    then Some (reductions_value fl libm_log k)
    else reductions m !! k.
Proof.
  unfold reductions_body, reductions_value. simpl.
  rewrite !lookup_insert.
  destruct k as [[b i'] j']. simpl.
  repeat case_decide; repeat case_bool_decide; simplify_eq; try reflexivity;
    try tauto; try (exfalso; intuition congruence).
Qed.

Lemma reductions_row_lookup (i : Z) (m : Margins) (k : Z * Z * Z) :
  reductions (for_loop 1 MAXDEPTH
                (fun j => reductions_body fl libm_log i j) m) !! k =
    if bool_decide ((k.1.1 = 0 \/ k.1.1 = 1) /\ k.1.2 = i /\ 1 <= k.2 < MAXDEPTH)
    then Some (reductions_value fl libm_log k)
    else reductions m !! k.
Proof.
  pose proof (for_loop_stores reductions
    (fun j k => bool_decide (k = (0, i, j) \/ k = (1, i, j)))
    (fun _ k => reductions_value fl libm_log k) 1 MAXDEPTH
    (fun j => reductions_body fl libm_log i j)) as Hst.
  destruct (Hst (fun j t k _ => reductions_body_lookup i j t k)
                (fun _ _ _ _ _ _ _ => eq_refl) m k) as [Hin Hout].
  destruct k as [[b i'] j']. simpl. case_bool_decide as Hk.
  - apply (Hin j'); [lia|]. apply bool_decide_eq_true.
    destruct Hk as ([-> | ->] & -> & _); auto.
  - apply Hout. intros j Hj. apply bool_decide_eq_false.
    intros [E | E]; inversion E; subst; apply Hk; auto with lia.
Qed.

Lemma reductions_loops_lookup (m : Margins) (k : Z * Z * Z) :
  reductions (for_loop 1 MAXDEPTH (fun i =>
                for_loop 1 MAXDEPTH
                  (fun j => reductions_body fl libm_log i j)) m) !! k =
    if reductions_written MAXDEPTH k
    then Some (reductions_value fl libm_log k)
    else reductions m !! k.
Proof.
  pose proof (for_loop_stores reductions
    (fun i k => bool_decide ((k.1.1 = 0 \/ k.1.1 = 1) /\ k.1.2 = i /\
                             1 <= k.2 < MAXDEPTH))
    (fun _ k => reductions_value fl libm_log k) 1 MAXDEPTH
    (fun i => for_loop 1 MAXDEPTH
                (fun j => reductions_body fl libm_log i j))) as Hst.
  destruct (Hst (fun i t k _ => reductions_row_lookup i t k)
                (fun _ _ _ _ _ _ _ => eq_refl) m k) as [Hin Hout].
  unfold reductions_written. case_bool_decide as Hk.
  - apply (Hin k.1.2); [lia|]. apply bool_decide_eq_true. tauto.
  - apply Hout. intros i Hi. apply bool_decide_eq_false.
    intros (Hb & Hi' & Hj). apply Hk. rewrite Hi'. auto.
Qed.

Lemma margins_body_reductions (d : Z) (m : Margins) :
  reductions (margins_body fl libm_pow d m) = reductions m.
Proof. reflexivity. Qed.

(** What [reductions] holds when InitReductions returns. *)
Lemma InitReductions_reductions (m : Margins) (k : Z * Z * Z) :
  reductions (InitReductions MAXDEPTH fl libm_log libm_pow m) !! k =
    if reductions_written MAXDEPTH k
    then Some (reductions_value fl libm_log k)
    else if bool_decide (k = (0, 0, 0) \/ k = (1, 0, 0)) then Some 0
    else reductions m !! k.
Proof.
  unfold InitReductions.
  rewrite (for_loop_frame reductions 0 MAXDEPTH (margins_body fl libm_pow))
    by (intros; apply margins_body_reductions).
  rewrite reductions_loops_lookup.
  destruct (reductions_written MAXDEPTH k); [reflexivity|].
  simpl. rewrite !lookup_insert.
  repeat case_decide; repeat case_bool_decide; simplify_eq; try reflexivity;
    try tauto; exfalso; intuition congruence.
Qed.

Lemma reductions_loops_margins (m : Margins) :
  lmp_margin (for_loop 1 MAXDEPTH (fun i =>
                for_loop 1 MAXDEPTH
                  (fun j => reductions_body fl libm_log i j)) m) = lmp_margin m /\
  see_margin (for_loop 1 MAXDEPTH (fun i =>
                for_loop 1 MAXDEPTH
                  (fun j => reductions_body fl libm_log i j)) m) = see_margin m.
Proof.
  split.
  - apply (for_loop_frame lmp_margin). intros i t _.
    apply (for_loop_frame lmp_margin). reflexivity.
  - apply (for_loop_frame see_margin). intros i t _.
    apply (for_loop_frame see_margin). reflexivity.
Qed.

Lemma margins_body_lmp (d : Z) (m : Margins) (k : Z * Z) :
  lmp_margin (margins_body fl libm_pow d m) !! k =
    if bool_decide (k = (d, 0) \/ k = (d, 1))
    then Some (if bool_decide (k.2 = 0) then trunc (lmp0 fl libm_pow k.1)
               else trunc (lmp1 fl libm_pow k.1))
    else lmp_margin m !! k.
Proof.
  unfold margins_body. simpl. rewrite !lookup_insert.
  destruct k as [d' c]. simpl.
  repeat case_decide; repeat case_bool_decide; simplify_eq; try reflexivity;
    try tauto; exfalso; intuition congruence.
Qed.

Lemma margins_body_see (d : Z) (m : Margins) (k : Z * Z) :
  see_margin (margins_body fl libm_pow d m) !! k =
    if bool_decide (k = (d, 1) \/ k = (d, 0))
    then Some (if bool_decide (k.2 = 1) then wrap32 (-80 * k.1)
               else wrap32 (wrap32 (-30 * k.1) * k.1))
    else see_margin m !! k.
Proof.
  unfold margins_body. simpl. rewrite !lookup_insert.
  destruct k as [d' c]. simpl.
  repeat case_decide; repeat case_bool_decide; simplify_eq; try reflexivity;
    try tauto; exfalso; intuition congruence.
Qed.

(** What [lmp_margin] and [see_margin] hold at a depth below [MAXDEPTH]. *)
Lemma InitReductions_lmp (m : Margins) (d : Z) :
  0 <= d < MAXDEPTH ->
  lmp_margin (InitReductions MAXDEPTH fl libm_log libm_pow m) !! (d, 0)
    = Some (trunc (lmp0 fl libm_pow d)) /\
  lmp_margin (InitReductions MAXDEPTH fl libm_log libm_pow m) !! (d, 1)
    = Some (trunc (lmp1 fl libm_pow d)).
Proof.
  intros Hd. unfold InitReductions.
  pose proof (for_loop_stores lmp_margin
    (fun d k => bool_decide (k = (d, 0) \/ k = (d, 1)))
    (fun _ k => if bool_decide (k.2 = 0) then trunc (lmp0 fl libm_pow k.1)
                else trunc (lmp1 fl libm_pow k.1))
    0 MAXDEPTH (margins_body fl libm_pow)
    (fun d t k _ => margins_body_lmp d t k)
    (fun _ _ _ _ _ _ _ => eq_refl)) as Hst.
  split.
  - eapply (proj1 (Hst _ (d, 0)) d); [lia|]. apply bool_decide_eq_true. auto.
  - eapply (proj1 (Hst _ (d, 1)) d); [lia|]. apply bool_decide_eq_true. auto.
Qed.

Lemma InitReductions_see (m : Margins) (d : Z) :
  0 <= d < MAXDEPTH ->
  see_margin (InitReductions MAXDEPTH fl libm_log libm_pow m) !! (d, 1)
    = Some (wrap32 (-80 * d)) /\
  see_margin (InitReductions MAXDEPTH fl libm_log libm_pow m) !! (d, 0)
    = Some (wrap32 (wrap32 (-30 * d) * d)).
Proof.
  intros Hd. unfold InitReductions.
  pose proof (for_loop_stores see_margin
    (fun d k => bool_decide (k = (d, 1) \/ k = (d, 0)))
    (fun _ k => if bool_decide (k.2 = 1) then wrap32 (-80 * k.1)
                else wrap32 (wrap32 (-30 * k.1) * k.1))
    0 MAXDEPTH (margins_body fl libm_pow)
    (fun d t k _ => margins_body_see d t k)
    (fun _ _ _ _ _ _ _ => eq_refl)) as Hst.
  split.
  - eapply (proj1 (Hst _ (d, 1)) d); [lia|]. apply bool_decide_eq_true. auto.
  - eapply (proj1 (Hst _ (d, 0)) d); [lia|]. apply bool_decide_eq_true. auto.
Qed.

End ReductionsStores.

(** * Properties of InitReductions *)

Lemma wrap32_small (z : Z) : - 2 ^ 31 <= z < 2 ^ 31 -> wrap32 z = z.
Proof. intros H. unfold wrap32. rewrite Z.mod_small; lia. Qed.

Lemma rd_Some `{Countable K} (t : gmap K Z) (k : K) (v : Z) :
  t !! k = Some v -> rd t k = v.
Proof. intros E. unfold rd. rewrite E. reflexivity. Qed.

Lemma rd_None `{Countable K} (t : gmap K Z) (k : K) : t !! k = None -> rd t k = 0.
Proof. intros E. unfold rd. rewrite E. reflexivity. Qed.

Section ReductionsClaims.
Variable MAXDEPTH : Z.
Variable fl : Q -> Q.
Variable libm_log : Q -> Q.
Variable libm_pow : Q -> Q -> Q.

(** Rounding to a double is monotone. *)
Hypothesis fl_mono : forall x y : Q, (x <= y)%Q -> (fl x <= fl y)%Q.
(** A multiple of a quarter whose numerator has at most 53 bits is a double:
    rounding returns it. *)
Hypothesis fl_exact :
  forall (x : Q) (n : Z), (x == n # 4)%Q -> Z.abs n <= 2 ^ 53 -> (fl x == x)%Q.
(** The logarithm of a double that is at least 1 is not negative. *)
Hypothesis log_nonneg : forall x : Q, (1 <= x)%Q -> (0 <= libm_log x)%Q.
(** [pow(d, 2.0)] is the square of a depth. *)
Hypothesis pow_square :
  forall d : Z, 0 <= d < MAXDEPTH ->
    (libm_pow (inject_Z d) 2 == inject_Z (d * d))%Q.
(** [-30 * depth * depth] does not overflow an [int] below [MAXDEPTH]. *)
Hypothesis MAXDEPTH_int : 30 * MAXDEPTH * MAXDEPTH < 2 ^ 31.

Lemma fl_zero : (fl 0 == 0)%Q.
Proof using fl_exact. apply (fl_exact 0%Q 0); [reflexivity|]. simpl. lia. Qed.

Lemma log_product_nonneg (i j : Z) :
  1 <= i -> 1 <= j ->
  (0 <= fmul fl (libm_log (inject_Z i)) (libm_log (inject_Z j)))%Q.
Proof using fl_mono fl_exact log_nonneg.
  intros Hi Hj. unfold fmul. rewrite <- fl_zero. apply fl_mono.
  apply Qmult_le_0_compat; apply log_nonneg;
    change 1%Q with (inject_Z 1); rewrite <- Zle_Qle; lia.
Qed.

Lemma reduction0_le_reduction1 (i j : Z) :
  1 <= i -> 1 <= j ->
  (reduction0 fl libm_log i j <= reduction1 fl libm_log i j)%Q.
Proof using fl_mono fl_exact log_nonneg.
  intros Hi Hj. unfold reduction0, reduction1, fadd, fdiv.
  pose proof (log_product_nonneg i j Hi Hj) as Hp.
  set (p := fmul fl (libm_log (inject_Z i)) (libm_log (inject_Z j))) in *.
  assert (Hdiv : (fl (p / (9 # 4)) <= fl (p / 2))%Q).
  { apply fl_mono. destruct p as [pn pd]. unfold Qle, Qdiv, Qmult, Qinv in *.
    simpl in *. nia. }
  apply fl_mono. apply Qplus_le_compat; [|exact Hdiv].
  unfold Qle. simpl. lia.
Qed.

(** C5: the entries of the two reduction tables are the truncations of
    [-0.25 + log(i) * log(j) / 2.25] and [1.00 + log(i) * log(j) / 2.00], and
    for every depth [i >= 1] and move index [j >= 1] the second value is at
    least the first, as doubles and as table entries. *)
Theorem reductions_second_formula_ge_first (m : Margins) (i j : Z) :
  1 <= i -> 1 <= j ->
  (reduction0 fl libm_log i j <= reduction1 fl libm_log i j)%Q /\
  (i < MAXDEPTH -> j < MAXDEPTH ->
   rd (reductions (InitReductions MAXDEPTH fl libm_log libm_pow m)) (0, i, j)
     = trunc (reduction0 fl libm_log i j) /\
   rd (reductions (InitReductions MAXDEPTH fl libm_log libm_pow m)) (1, i, j)
     = trunc (reduction1 fl libm_log i j) /\
   rd (reductions (InitReductions MAXDEPTH fl libm_log libm_pow m)) (0, i, j)
     <= rd (reductions (InitReductions MAXDEPTH fl libm_log libm_pow m)) (1, i, j)).
Proof using fl_mono fl_exact log_nonneg.
  intros Hi Hj. pose proof (reduction0_le_reduction1 i j Hi Hj) as Hle.
  split; [exact Hle|]. intros Hi' Hj'.
  assert (E0 : rd (reductions (InitReductions MAXDEPTH fl libm_log libm_pow m))
                 (0, i, j) = trunc (reduction0 fl libm_log i j)).
  { apply rd_Some. rewrite InitReductions_reductions.
    unfold reductions_written, reductions_value. simpl.
    rewrite bool_decide_eq_true_2 by lia. reflexivity. }
  assert (E1 : rd (reductions (InitReductions MAXDEPTH fl libm_log libm_pow m))
                 (1, i, j) = trunc (reduction1 fl libm_log i j)).
  { apply rd_Some. rewrite InitReductions_reductions.
    unfold reductions_written, reductions_value. simpl.
    rewrite bool_decide_eq_true_2 by lia. reflexivity. }
  rewrite E0, E1. repeat split. apply trunc_mono, Hle.
Qed.

Lemma lmp0_exact (d : Z) :
  0 <= d < MAXDEPTH -> (lmp0 fl libm_pow d == (6 + 2 * (d * d)) # 4)%Q.
Proof using fl_exact pow_square MAXDEPTH_int.
  intros Hd. unfold lmp0, fadd, fmul.
  assert (Hsq : 0 <= d * d < 2 ^ 31) by nia.
  assert (E1 : ((1 # 2) * libm_pow (inject_Z d) 2 == (2 * (d * d)) # 4)%Q).
  { rewrite pow_square by lia. unfold Qeq, inject_Z. simpl. lia. }
  pose proof (Qeq_trans _ _ _ (fl_exact _ (2 * (d * d)) E1 ltac:(lia)) E1) as X1.
  assert (E2 : ((3 # 2) + fl ((1 # 2) * libm_pow (inject_Z d) 2)
                == (6 + 2 * (d * d)) # 4)%Q).
  { rewrite X1. unfold Qeq, Qplus. simpl. lia. }
  pose proof (fl_exact _ (6 + 2 * (d * d)) E2 ltac:(lia)) as X2.
  rewrite X2. exact E2.
Qed.

Lemma lmp1_exact (d : Z) :
  0 <= d < MAXDEPTH -> (lmp1 fl libm_pow d == (12 + 4 * (d * d)) # 4)%Q.
Proof using fl_exact pow_square MAXDEPTH_int.
  intros Hd. unfold lmp1, fadd, fmul.
  assert (Hsq : 0 <= d * d < 2 ^ 31) by nia.
  assert (E1 : (1 * libm_pow (inject_Z d) 2 == (4 * (d * d)) # 4)%Q).
  { rewrite pow_square by lia. unfold Qeq, inject_Z. simpl. lia. }
  pose proof (Qeq_trans _ _ _ (fl_exact _ (4 * (d * d)) E1 ltac:(lia)) E1) as X1.
  assert (E2 : (3 + fl (1 * libm_pow (inject_Z d) 2)
                == (12 + 4 * (d * d)) # 4)%Q).
  { rewrite X1. unfold Qeq, Qplus. simpl. lia. }
  pose proof (fl_exact _ (12 + 4 * (d * d)) E2 ltac:(lia)) as X2.
  rewrite X2. exact E2.
Qed.

(** C6: at every depth [d] below [MAXDEPTH] the not-improving margin is the
    truncation of [1.5 + 0.5 * d^2], the improving margin the truncation of
    [3.0 + 1.0 * d^2], and the improving margin is the larger. *)
Theorem lmp_margin_quadratic (m : Margins) (d : Z) :
  0 <= d < MAXDEPTH ->
  rd (lmp_margin (InitReductions MAXDEPTH fl libm_log libm_pow m)) (d, 0)
    = trunc ((3 # 2) + (1 # 2) * inject_Z (d ^ 2)) /\
  rd (lmp_margin (InitReductions MAXDEPTH fl libm_log libm_pow m)) (d, 1)
    = trunc (3 + 1 * inject_Z (d ^ 2)) /\
  rd (lmp_margin (InitReductions MAXDEPTH fl libm_log libm_pow m)) (d, 0)
    < rd (lmp_margin (InitReductions MAXDEPTH fl libm_log libm_pow m)) (d, 1).
Proof using fl_exact pow_square MAXDEPTH_int.
  intros Hd.
  destruct (InitReductions_lmp MAXDEPTH fl libm_log libm_pow m d Hd) as [E0 E1].
  rewrite (rd_Some _ _ _ E0), (rd_Some _ _ _ E1).
  assert (Hsq : 0 <= d * d) by nia.
  assert (F0 : (((3 # 2) + (1 # 2) * inject_Z (d ^ 2)) == (6 + 2 * (d * d)) # 4)%Q).
  { unfold Qeq, Qplus, inject_Z. simpl. lia. }
  assert (F1 : ((3 + 1 * inject_Z (d ^ 2)) == (12 + 4 * (d * d)) # 4)%Q).
  { unfold Qeq, Qplus, inject_Z. simpl. lia. }
  rewrite (trunc_comp _ _ (lmp0_exact d Hd)), (trunc_comp _ _ (lmp1_exact d Hd)).
  rewrite (trunc_comp _ _ F0), (trunc_comp _ _ F1).
  rewrite !trunc_quarters by lia.
  repeat split.
  replace (12 + 4 * (d * d)) with ((3 + d * d) * 4) by lia.
  rewrite Z.div_mul by lia.
  apply Z.div_lt_upper_bound; lia.
Qed.

(** C7: at every depth [d] below [MAXDEPTH] the quiet margin is [-80 * d] and
    the non-quiet margin [-30 * d^2]; both are 0 at depth 0, never positive,
    and do not grow with the depth. *)
Theorem see_margin_depth (m : Margins) (d : Z) :
  0 <= d < MAXDEPTH ->
  rd (see_margin (InitReductions MAXDEPTH fl libm_log libm_pow m)) (d, 1)
    = -80 * d /\
  rd (see_margin (InitReductions MAXDEPTH fl libm_log libm_pow m)) (d, 0)
    = -30 * d ^ 2 /\
  rd (see_margin (InitReductions MAXDEPTH fl libm_log libm_pow m)) (0, 1) = 0 /\
  rd (see_margin (InitReductions MAXDEPTH fl libm_log libm_pow m)) (0, 0) = 0 /\
  rd (see_margin (InitReductions MAXDEPTH fl libm_log libm_pow m)) (d, 1) <= 0 /\
  rd (see_margin (InitReductions MAXDEPTH fl libm_log libm_pow m)) (d, 0) <= 0 /\
  (forall d' : Z, d <= d' < MAXDEPTH ->
     rd (see_margin (InitReductions MAXDEPTH fl libm_log libm_pow m)) (d', 1)
       <= rd (see_margin (InitReductions MAXDEPTH fl libm_log libm_pow m)) (d, 1) /\
     rd (see_margin (InitReductions MAXDEPTH fl libm_log libm_pow m)) (d', 0)
       <= rd (see_margin (InitReductions MAXDEPTH fl libm_log libm_pow m)) (d, 0)).
Proof using MAXDEPTH_int.
  intros Hd.
  assert (Hval : forall e, 0 <= e < MAXDEPTH ->
    rd (see_margin (InitReductions MAXDEPTH fl libm_log libm_pow m)) (e, 1)
      = -80 * e /\
    rd (see_margin (InitReductions MAXDEPTH fl libm_log libm_pow m)) (e, 0)
      = -30 * e ^ 2).
  { intros e He.
    destruct (InitReductions_see MAXDEPTH fl libm_log libm_pow m e He) as [E1 E0].
    rewrite (rd_Some _ _ _ E0), (rd_Some _ _ _ E1).
    assert (0 <= e * e < MAXDEPTH * MAXDEPTH) by nia.
    rewrite (wrap32_small (-80 * e)) by nia.
    rewrite (wrap32_small (-30 * e)) by nia.
    rewrite wrap32_small by nia. split; [reflexivity|]. lia. }
  destruct (Hval d Hd) as [-> ->].
  destruct (Hval 0 ltac:(lia)) as [-> ->].
  repeat split; try lia; try nia.
  - destruct (Hval d' ltac:(lia)) as [-> _]. lia.
  - destruct (Hval d' ltac:(lia)) as [_ ->]. nia.
Qed.

(** C9: InitReductions stores 0 in [reductions[b][0][0]]; any other cell it
    changes has both indices at least 1; a cell with exactly one index 0 is
    left as it was, and so reads 0 in the zero-initialised array. *)
Theorem reductions_zero_index_cells (m : Margins) (b i j : Z) :
  (i = 0 /\ 1 <= j) \/ (1 <= i /\ j = 0) ->
  rd (reductions (InitReductions MAXDEPTH fl libm_log libm_pow m)) (0, 0, 0) = 0 /\
  rd (reductions (InitReductions MAXDEPTH fl libm_log libm_pow m)) (1, 0, 0) = 0 /\
  (forall k : Z * Z * Z,
     reductions (InitReductions MAXDEPTH fl libm_log libm_pow m) !! k
       <> reductions m !! k ->
     (k.1.2 = 0 /\ k.2 = 0) \/ (1 <= k.1.2 /\ 1 <= k.2)) /\
  reductions (InitReductions MAXDEPTH fl libm_log libm_pow m) !! (b, i, j)
    = reductions m !! (b, i, j) /\
  rd (reductions (InitReductions MAXDEPTH fl libm_log libm_pow zero_margins))
     (b, i, j) = 0.
Proof.
  intros Hij.
  assert (Hsame : reductions (InitReductions MAXDEPTH fl libm_log libm_pow m)
                    !! (b, i, j) = reductions m !! (b, i, j)).
  { intros. rewrite InitReductions_reductions. unfold reductions_written. cbn [fst snd].
    rewrite bool_decide_eq_false_2 by lia.
    rewrite bool_decide_eq_false_2; [reflexivity|].
    intros [E | E]; inversion E; lia. }
  split; [|split; [|split; [|split]]].
  - apply rd_Some. rewrite InitReductions_reductions. unfold reductions_written.
    cbn [fst snd]. rewrite bool_decide_eq_false_2 by lia.
    rewrite bool_decide_eq_true_2 by auto. reflexivity.
  - apply rd_Some. rewrite InitReductions_reductions. unfold reductions_written.
    cbn [fst snd]. rewrite bool_decide_eq_false_2 by lia.
    rewrite bool_decide_eq_true_2 by auto. reflexivity.
  - intros k Hk. rewrite InitReductions_reductions in Hk.
    unfold reductions_written in Hk.
    case_bool_decide as Hw; [lia|].
    case_bool_decide as Hz; [|congruence].
    destruct Hz as [-> | ->]; simpl; lia.
  - exact Hsame.
  - apply rd_None.
    assert (Hz : reductions
              (InitReductions MAXDEPTH fl libm_log libm_pow zero_margins)
              !! (b, i, j) = reductions zero_margins !! (b, i, j)).
    { rewrite InitReductions_reductions. unfold reductions_written. cbn [fst snd].
      rewrite bool_decide_eq_false_2 by lia.
      rewrite bool_decide_eq_false_2; [reflexivity|].
      intros [E | E]; inversion E; lia. }
    rewrite Hz. reflexivity.
Qed.

End ReductionsClaims.

(** * The assumptions on doubles hold of exact arithmetic *)

Lemma exact_fl_mono (x y : Q) : (x <= y)%Q -> (exact_fl x <= exact_fl y)%Q.
Proof. intros H. exact H. Qed.

Lemma exact_fl_exact (x : Q) (n : Z) :
  (x == n # 4)%Q -> Z.abs n <= 2 ^ 53 -> (exact_fl x == x)%Q.
Proof. intros _ _. reflexivity. Qed.

Lemma floor_log2_nonneg (x : Q) : (1 <= x)%Q -> (0 <= floor_log2 x)%Q.
Proof.
  intros _. unfold floor_log2. change 0%Q with (inject_Z 0).
  rewrite <- Zle_Qle. apply Z.log2_nonneg.
Qed.

Lemma exact_pow_square (MAXDEPTH d : Z) :
  0 <= d < MAXDEPTH -> (exact_pow (inject_Z d) 2 == inject_Z (d * d))%Q.
Proof.
  intros _. unfold exact_pow. simpl. rewrite inject_Z_mult. reflexivity.
Qed.

Lemma reductions_second_formula_ge_first_witness :
  rd (reductions (InitReductions 128 exact_fl floor_log2 exact_pow zero_margins))
     (0, 8, 16) = 5 /\
  rd (reductions (InitReductions 128 exact_fl floor_log2 exact_pow zero_margins))
     (1, 8, 16) = 7.
Proof.
  destruct (reductions_second_formula_ge_first 128 exact_fl floor_log2 exact_pow
              exact_fl_mono exact_fl_exact floor_log2_nonneg zero_margins 8 16
              ltac:(lia) ltac:(lia)) as [_ H].
  destruct (H ltac:(lia) ltac:(lia)) as (E0 & E1 & _).
  rewrite E0, E1. split; reflexivity.
Defined.

Lemma lmp_margin_quadratic_witness :
  rd (lmp_margin (InitReductions 128 exact_fl floor_log2 exact_pow zero_margins))
     (3, 0) = 6 /\
  rd (lmp_margin (InitReductions 128 exact_fl floor_log2 exact_pow zero_margins))
     (3, 1) = 12.
Proof.
  destruct (lmp_margin_quadratic 128 exact_fl floor_log2 exact_pow
              exact_fl_exact (exact_pow_square 128) ltac:(lia)
              zero_margins 3 ltac:(lia)) as (E0 & E1 & _).
  rewrite E0, E1. split; reflexivity.
Defined.

Lemma see_margin_depth_witness :
  rd (see_margin (InitReductions 128 exact_fl floor_log2 exact_pow zero_margins))
     (3, 1) = -240 /\
  rd (see_margin (InitReductions 128 exact_fl floor_log2 exact_pow zero_margins))
     (3, 0) = -270.
Proof.
  destruct (see_margin_depth 128 exact_fl floor_log2 exact_pow ltac:(lia)
              zero_margins 3 ltac:(lia)) as (E1 & E0 & _).
  rewrite E0, E1. split; reflexivity.
Defined.

Lemma reductions_zero_index_cells_witness :
  rd (reductions (InitReductions 128 exact_fl floor_log2 exact_pow zero_margins))
     (1, 0, 5) = 0.
Proof.
  destruct (reductions_zero_index_cells 128 exact_fl floor_log2 exact_pow
              zero_margins 1 0 5 ltac:(lia)) as (_ & _ & _ & _ & E).
  exact E.
Defined.

(** * Properties of InitNewGame *)

Lemma memset_int_0 : memset_int 0 = 0.
Proof. reflexivity. Qed.

Section NewGameClaims.
Variable MAXDEPTH : Z.
Variable NOMOVE : Z.
Variable Board : Type.
Variable Histories : Type.
Variable Limits : Type.
Variable TTEntry : Type.
Variable parse_position_text : string -> Board.
Variable CleanHistories : SearchData Histories -> SearchData Histories.
Variable StopHelperThreads :
  list (ThreadData Board Histories Limits) ->
  list (ThreadData Board Histories Limits).

Lemma pv_row_lookup (index : Z) (t : PvTable) :
  pvLength (for_loop 0 (MAXDEPTH + 1)
              (fun index2 => set_pvArray (index, index2) NOMOVE) t)
    = pvLength t /\
  forall k, pvArray (for_loop 0 (MAXDEPTH + 1)
              (fun index2 => set_pvArray (index, index2) NOMOVE) t) !! k =
    if bool_decide (k.1 = index /\ 0 <= k.2 <= MAXDEPTH) then Some NOMOVE
    else pvArray t !! k.
Proof.
  split.
  { apply (for_loop_frame pvLength). reflexivity. }
  intros k.
  pose proof (for_loop_stores pvArray
    (fun (index2 : Z) (k : Z * Z) => bool_decide (k = (index, index2)))
    (fun _ _ => NOMOVE) 0 (MAXDEPTH + 1)
    (fun index2 => set_pvArray (index, index2) NOMOVE)) as Hst.
  destruct (Hst (fun i u k _ => ltac:(simpl; rewrite lookup_insert;
                   case_decide; case_bool_decide; congruence))
                (fun _ _ _ _ _ _ _ => eq_refl) t k) as [Hin Hout].
  case_bool_decide as Hk.
  - apply (Hin k.2); [lia|]. apply bool_decide_eq_true.
    destruct k as [a b]. simpl in *. destruct Hk as [-> _]. reflexivity.
  - apply Hout. intros i Hi. apply bool_decide_eq_false. intros ->.
    apply Hk. simpl. lia.
Qed.

Lemma clean_pv_table_lookup (t : PvTable) :
  (forall i, pvLength (clean_pv_table MAXDEPTH NOMOVE t) !! i =
     if bool_decide (0 <= i <= MAXDEPTH) then Some 0 else pvLength t !! i) /\
  (forall k, pvArray (clean_pv_table MAXDEPTH NOMOVE t) !! k =
     if bool_decide (0 <= k.1 <= MAXDEPTH /\ 0 <= k.2 <= MAXDEPTH)
     then Some NOMOVE else pvArray t !! k).
Proof.
  unfold clean_pv_table. split.
  - intros i.
    pose proof (for_loop_stores pvLength
      (fun index k : Z => bool_decide (k = index)) (fun _ _ => 0)
      0 (MAXDEPTH + 1)
      (fun index t =>
         let t := set_pvLength index 0 t in
         for_loop 0 (MAXDEPTH + 1)
           (fun index2 => set_pvArray (index, index2) NOMOVE) t)) as Hst.
    destruct (Hst (fun j u k _ => ltac:(simpl;
                     rewrite (proj1 (pv_row_lookup j _)); simpl;
                     rewrite lookup_insert;
                     case_decide; case_bool_decide; congruence))
                  (fun _ _ _ _ _ _ _ => eq_refl) t i) as [Hin Hout].
    case_bool_decide as Hi.
    + apply (Hin i); [lia|]. apply bool_decide_eq_true. reflexivity.
    + apply Hout. intros j Hj. apply bool_decide_eq_false. lia.
  - intros k.
    pose proof (for_loop_stores pvArray
      (fun (index : Z) (k : Z * Z) =>
         bool_decide (k.1 = index /\ 0 <= k.2 <= MAXDEPTH))
      (fun _ _ => NOMOVE) 0 (MAXDEPTH + 1)
      (fun index t =>
         let t := set_pvLength index 0 t in
         for_loop 0 (MAXDEPTH + 1)
           (fun index2 => set_pvArray (index, index2) NOMOVE) t)) as Hst.
    destruct (Hst (fun j u k _ => ltac:(simpl;
                     rewrite (proj2 (pv_row_lookup j _)); reflexivity))
                  (fun _ _ _ _ _ _ _ => eq_refl) t k) as [Hin Hout].
    case_bool_decide as Hk.
    + apply (Hin k.1); [lia|]. apply bool_decide_eq_true. tauto.
    + apply Hout. intros j Hj. apply bool_decide_eq_false. intros [E ?].
      apply Hk. rewrite E. lia.
Qed.

(** C8: when InitNewGame returns, every cell of the PV table is cleared, the
    counter moves are the null move, the node counter, the selective depth
    and the stop flag are 0, the played-position history is empty and the
    transposition table holds no entry. *)
Theorem InitNewGame_clears (now : Z) (e : Engine Board Histories Limits TTEntry) :
  NOMOVE = 0 ->
  (forall index, 0 <= index <= MAXDEPTH ->
     pvLength (pvTable (worker (InitNewGame MAXDEPTH NOMOVE parse_position_text
       CleanHistories StopHelperThreads now e))) !! index = Some 0) /\
  (forall index index2, 0 <= index <= MAXDEPTH -> 0 <= index2 <= MAXDEPTH ->
     pvArray (pvTable (worker (InitNewGame MAXDEPTH NOMOVE parse_position_text
       CleanHistories StopHelperThreads now e))) !! (index, index2)
       = Some NOMOVE) /\
  Forall (fun move => move = NOMOVE)
    (counterMoves (sd (worker (InitNewGame MAXDEPTH NOMOVE parse_position_text
       CleanHistories StopHelperThreads now e)))) /\
  nodes (info (worker (InitNewGame MAXDEPTH NOMOVE parse_position_text
       CleanHistories StopHelperThreads now e))) = 0 /\
  seldepth (info (worker (InitNewGame MAXDEPTH NOMOVE parse_position_text
       CleanHistories StopHelperThreads now e))) = 0 /\
  stopped (info (worker (InitNewGame MAXDEPTH NOMOVE parse_position_text
       CleanHistories StopHelperThreads now e))) = 0 /\
  played_positions (pos (worker (InitNewGame MAXDEPTH NOMOVE
       parse_position_text CleanHistories StopHelperThreads now e))) = [] /\
  TT (InitNewGame MAXDEPTH NOMOVE parse_position_text
       CleanHistories StopHelperThreads now e) = ∅.
Proof.
  intros Hnomove. unfold InitNewGame. cbn [worker pvTable sd info pos TT
    counterMoves nodes seldepth stopped played_positions ParsePosition].
  destruct (clean_pv_table_lookup (pvTable (worker e))) as [HL HA].
  split; [|split; [|split; [|repeat split]]].
  - intros index Hi. rewrite HL. rewrite bool_decide_eq_true_2 by lia.
    reflexivity.
  - intros index index2 Hi Hi2. rewrite HA. cbn [fst snd].
    rewrite bool_decide_eq_true_2 by lia. reflexivity.
  - apply Forall_fmap. apply Forall_forall. intros move _. simpl.
    rewrite Hnomove. reflexivity.
Qed.

(** C10: whatever the worker held, InitNewGame leaves it with an empty
    played-position history and the position that ParsePosition makes of
    "position startpos". *)
Theorem InitNewGame_startpos (now : Z) (e : Engine Board Histories Limits TTEntry) :
  pos (worker (InitNewGame MAXDEPTH NOMOVE parse_position_text
         CleanHistories StopHelperThreads now e))
    = ParsePosition parse_position_text "position startpos"
        {| board := board (pos (worker e)); played_positions := [] |} /\
  board (pos (worker (InitNewGame MAXDEPTH NOMOVE parse_position_text
         CleanHistories StopHelperThreads now e)))
    = parse_position_text "position startpos" /\
  played_positions (pos (worker (InitNewGame MAXDEPTH NOMOVE
         parse_position_text CleanHistories StopHelperThreads now e))) = [] /\
  forall (now' : Z) (e' : Engine Board Histories Limits TTEntry),
    pos (worker (InitNewGame MAXDEPTH NOMOVE parse_position_text
           CleanHistories StopHelperThreads now' e'))
      = pos (worker (InitNewGame MAXDEPTH NOMOVE parse_position_text
           CleanHistories StopHelperThreads now e)).
Proof.
  unfold InitNewGame, ParsePosition. cbn [worker pos board played_positions].
  repeat split.
Qed.

End NewGameClaims.

Lemma InitNewGame_clears_witness :
  counterMoves (sd (worker (InitNewGame 128 0 sample_parser id id 1000
                              sample_engine))) = [0; 0; 0] /\
  pvArray (pvTable (worker (InitNewGame 128 0 sample_parser id id 1000
                              sample_engine))) !! (0, 0) = Some 0 /\
  nodes (info (worker (InitNewGame 128 0 sample_parser id id 1000
                              sample_engine))) = 0 /\
  played_positions (pos (worker (InitNewGame 128 0 sample_parser id id 1000
                              sample_engine))) = [] /\
  TT (InitNewGame 128 0 sample_parser id id 1000 sample_engine) = ∅.
Proof.
  destruct (InitNewGame_clears 128 0 unit unit unit unit sample_parser id id
              1000 sample_engine eq_refl)
    as (_ & HA & _ & Hn & _ & _ & Hp & Ht).
  split; [reflexivity|]. split; [apply HA; lia|]. auto.
Defined.

(** * Properties of initHashKeys *)

Section HashKeysStores.
Variable rng : Type.
Variable GetRandomBitboardNumber : rng -> Z * rng.

Lemma rng_after_0 (g : rng) : rng_after rng GetRandomBitboardNumber 0 g = g.
Proof. reflexivity. Qed.

Lemma rng_after_succ (n : Z) (g : rng) :
  0 <= n ->
  rng_after rng GetRandomBitboardNumber (n + 1) g
    = snd (GetRandomBitboardNumber (rng_after rng GetRandomBitboardNumber n g)).
Proof.
  intros Hn. unfold rng_after.
  replace (Z.to_nat (n + 1)) with (S (Z.to_nat n)) by lia. reflexivity.
Qed.

Lemma rng_after_add (a b : Z) (g : rng) :
  0 <= a -> 0 <= b ->
  rng_after rng GetRandomBitboardNumber b
    (rng_after rng GetRandomBitboardNumber a g)
    = rng_after rng GetRandomBitboardNumber (a + b) g.
Proof.
  intros Ha Hb. unfold rng_after.
  replace (Z.to_nat (a + b)) with (Z.to_nat b + Z.to_nat a)%nat by lia.
  rewrite Nat.iter_add. reflexivity.
Qed.

Lemma draw_after (a n : Z) (g : rng) :
  0 <= a -> 0 <= n ->
  draw rng GetRandomBitboardNumber n (rng_after rng GetRandomBitboardNumber a g)
    = draw rng GetRandomBitboardNumber (a + n) g.
Proof. intros Ha Hn. unfold draw. rewrite rng_after_add by lia. reflexivity. Qed.

Lemma assign_random_spec (store : Z -> ZobristKeys -> ZobristKeys)
    (s : HashState rng) :
  assign_random rng GetRandomBitboardNumber store s
    = {| keys := store (draw rng GetRandomBitboardNumber 0 (random_state s))
                       (keys s);
         random_state := rng_after rng GetRandomBitboardNumber 1 (random_state s) |}.
Proof.
  unfold assign_random, draw, rng_after. simpl.
  destruct (GetRandomBitboardNumber (random_state s)); reflexivity.
Qed.

(** A loop each round of which draws [c] numbers and stores some of them in
    cells of the table [proj]: round [row k] is the one that stores in cell
    [k], the number it drew as its [off k]-th. *)
Lemma random_fill_loop `{Countable K} (proj : ZobristKeys -> gmap K Z)
    (c : Z) (wr : Z -> K -> bool) (off row : K -> Z)
    (lo hi : Z) (body : Z -> HashState rng -> HashState rng) :
  0 <= c ->
  (forall i k, wr i k = true -> row k = i /\ 0 <= off k) ->
  (forall i s, lo <= i < hi ->
     random_state (body i s)
       = rng_after rng GetRandomBitboardNumber c (random_state s) /\
     forall k, proj (keys (body i s)) !! k =
       if wr i k
       then Some (draw rng GetRandomBitboardNumber (off k) (random_state s))
       else proj (keys s) !! k) ->
  forall s, lo <= hi ->
    random_state (for_loop lo hi body s)
      = rng_after rng GetRandomBitboardNumber (c * (hi - lo)) (random_state s) /\
    forall k, proj (keys (for_loop lo hi body s)) !! k =
      if bool_decide (lo <= row k < hi) && wr (row k) k
      then Some (draw rng GetRandomBitboardNumber (c * (row k - lo) + off k)
                   (random_state s))
      else proj (keys s) !! k.
Proof.
  intros Hc Hwr Hbody s Hle.
  pose (P := fun (n : Z) (t : HashState rng) =>
    random_state t
      = rng_after rng GetRandomBitboardNumber (c * (n - lo)) (random_state s) /\
    forall k, proj (keys t) !! k =
      if bool_decide (lo <= row k < n) && wr (row k) k
      then Some (draw rng GetRandomBitboardNumber (c * (row k - lo) + off k)
                   (random_state s))
      else proj (keys s) !! k).
  change (P hi (for_loop lo hi body s)).
  apply for_loop_inv; [exact Hle| |]; unfold P.
  - split.
    + replace (c * (lo - lo)) with 0 by lia. reflexivity.
    + intros k. rewrite bool_decide_eq_false_2 by lia. reflexivity.
  - intros i t Hi [Hg Hk]. destruct (Hbody i t Hi) as [Hg' Hk']. split.
    + rewrite Hg', Hg. rewrite rng_after_add by nia. f_equal. lia.
    + intros k. rewrite Hk'. destruct (wr i k) eqn:Ew.
      * destruct (Hwr i k Ew) as [Hrow Hoff]. rewrite Hrow, Ew.
        rewrite bool_decide_eq_true_2 by lia. simpl.
        rewrite Hg, draw_after by nia. reflexivity.
      * rewrite Hk. destruct (Z.eq_dec (row k) i) as [E|E].
        -- rewrite E, Ew. rewrite !andb_false_r. reflexivity.
        -- destruct (wr (row k) k); [|rewrite !andb_false_r; reflexivity].
           rewrite !andb_true_r.
           destruct (decide (lo <= row k < i)).
           ++ rewrite !bool_decide_eq_true_2 by lia. reflexivity.
           ++ rewrite !bool_decide_eq_false_2 by lia. reflexivity.
Qed.

(** A loop whose rounds leave a component of the keys alone leaves it alone. *)
Lemma random_fill_frame {A : Type} (other : ZobristKeys -> A) (lo hi : Z)
    (body : Z -> HashState rng -> HashState rng) :
  (forall i s, lo <= i < hi -> other (keys (body i s)) = other (keys s)) ->
  forall s, other (keys (for_loop lo hi body s)) = other (keys s).
Proof. intros Hb s. apply (for_loop_frame (fun s => other (keys s))). exact Hb. Qed.

End HashKeysStores.

Lemma size_range_map (m : gmap Z Z) (n : Z) :
  0 <= n -> (forall k, is_Some (m !! k) <-> 0 <= k < n) -> size m = Z.to_nat n.
Proof.
  intros Hn Hdom.
  assert (E : dom m = list_to_set (seqZ 0 n)).
  { apply set_eq. intros k. rewrite elem_of_dom, Hdom, elem_of_list_to_set.
    rewrite elem_of_seqZ. lia. }
  rewrite <- size_dom, E, size_list_to_set by apply NoDup_seqZ.
  apply length_seqZ.
Qed.

Section HashKeysClaims.
Variable rng : Type.
Variable GetRandomBitboardNumber : rng -> Z * rng.

Ltac frame_tac :=
  repeat (apply random_fill_frame; intros ? ? ?);
  rewrite ?assign_random_spec; reflexivity.

Lemma piece_row_spec (t : Z) (s : HashState rng) :
  random_state (for_loop 0 64 (fun Numberindex =>
      assign_random rng GetRandomBitboardNumber
        (set_PieceKeys (t, Numberindex))) s)
    = rng_after rng GetRandomBitboardNumber 64 (random_state s) /\
  forall k, PieceKeys (keys (for_loop 0 64 (fun Numberindex =>
      assign_random rng GetRandomBitboardNumber
        (set_PieceKeys (t, Numberindex))) s)) !! k =
    if bool_decide (0 <= k.2 < 64) && bool_decide (k = (t, k.2))
    then Some (draw rng GetRandomBitboardNumber (1 * (k.2 - 0) + 0)
                 (random_state s))
    else PieceKeys (keys s) !! k.
Proof.
  pose proof (random_fill_loop rng GetRandomBitboardNumber PieceKeys 1
           (fun (j : Z) (k : Z * Z) => bool_decide (k = (t, j)))
           (fun _ : Z * Z => 0) snd 0 64
           (fun Numberindex => assign_random rng GetRandomBitboardNumber
              (set_PieceKeys (t, Numberindex)))) as Hfill.
  apply Hfill; [lia| | |lia].
  - intros i k Hk. apply bool_decide_eq_true in Hk. subst k. simpl. lia.
  - intros i u Hi. rewrite assign_random_spec. simpl. split; [reflexivity|].
    intros k. rewrite lookup_insert.
    case_decide; case_bool_decide; congruence.
Qed.

Lemma piece_loops_spec (s : HashState rng) :
  random_state (for_loop WP (BK + 1) (fun Typeindex =>
      for_loop 0 64 (fun Numberindex =>
        assign_random rng GetRandomBitboardNumber
          (set_PieceKeys (Typeindex, Numberindex)))) s)
    = rng_after rng GetRandomBitboardNumber 768 (random_state s) /\
  forall t sq, PieceKeys (keys (for_loop WP (BK + 1) (fun Typeindex =>
      for_loop 0 64 (fun Numberindex =>
        assign_random rng GetRandomBitboardNumber
          (set_PieceKeys (Typeindex, Numberindex)))) s)) !! (t, sq) =
    if bool_decide (0 <= t < 12 /\ 0 <= sq < 64)
    then Some (draw rng GetRandomBitboardNumber (64 * t + sq) (random_state s))
    else PieceKeys (keys s) !! (t, sq).
Proof.
  pose proof (random_fill_loop rng GetRandomBitboardNumber PieceKeys 64
           (fun (t : Z) (k : Z * Z) =>
              bool_decide (0 <= k.2 < 64) && bool_decide (k = (t, k.2)))
           (fun k : Z * Z => 1 * (k.2 - 0) + 0) fst WP (BK + 1)
           (fun Typeindex => for_loop 0 64 (fun Numberindex =>
              assign_random rng GetRandomBitboardNumber
                (set_PieceKeys (Typeindex, Numberindex))))) as Hfill.
  destruct (fun a b c => Hfill a b c s)  as [Hg Hk]; [lia| | |unfold WP, BK; lia|].
  - intros i k Hk. apply andb_true_iff in Hk. destruct Hk as [H1 H2].
    apply bool_decide_eq_true in H1, H2. rewrite H2. simpl. lia.
  - intros i u _. apply piece_row_spec.
  - split; [exact Hg|]. intros t sq. rewrite Hk. unfold WP, BK. simpl.
    rewrite (bool_decide_eq_true_2 ((t, sq) = (t, sq))) by reflexivity.
    rewrite andb_true_r.
    destruct (decide (0 <= t < 12 /\ 0 <= sq < 64)) as [Hin|Hout].
    + rewrite !bool_decide_eq_true_2 by lia. simpl. do 2 f_equal. lia.
    + rewrite (bool_decide_eq_false_2 _ Hout).
      destruct (decide (0 <= t < 11 + 1)); destruct (decide (0 <= sq < 64));
        rewrite ?bool_decide_eq_true_2, ?bool_decide_eq_false_2 by assumption;
        simpl; try reflexivity. lia.
Qed.

Lemma enpassant_loop_spec (s : HashState rng) :
  random_state (for_loop 0 64 (fun square =>
      assign_random rng GetRandomBitboardNumber (set_enpassant_keys square)) s)
    = rng_after rng GetRandomBitboardNumber 64 (random_state s) /\
  forall sq, enpassant_keys (keys (for_loop 0 64 (fun square =>
      assign_random rng GetRandomBitboardNumber (set_enpassant_keys square)) s))
      !! sq =
    if bool_decide (0 <= sq < 64)
    then Some (draw rng GetRandomBitboardNumber sq (random_state s))
    else enpassant_keys (keys s) !! sq.
Proof.
  pose proof (random_fill_loop rng GetRandomBitboardNumber enpassant_keys 1
           (fun i k : Z => bool_decide (k = i)) (fun _ : Z => 0) (fun k : Z => k) 0 64
           (fun square => assign_random rng GetRandomBitboardNumber
                            (set_enpassant_keys square))) as Hfill.
  destruct (fun a b c => Hfill a b c s)  as [Hg Hk]; [lia| | |lia|].
  - intros i k Hk. apply bool_decide_eq_true in Hk. lia.
  - intros i u Hi. rewrite assign_random_spec. simpl. split; [reflexivity|].
    intros k. rewrite lookup_insert.
    case_decide; case_bool_decide; congruence.
  - split; [exact Hg|]. intros sq. rewrite Hk.
    rewrite (bool_decide_eq_true_2 (sq = sq)) by reflexivity.
    rewrite andb_true_r. case_bool_decide; [|reflexivity]. do 2 f_equal. lia.
Qed.

Lemma castle_loop_spec (s : HashState rng) :
  random_state (for_loop 0 16 (fun index =>
      assign_random rng GetRandomBitboardNumber (set_CastleKeys index)) s)
    = rng_after rng GetRandomBitboardNumber 16 (random_state s) /\
  forall i, CastleKeys (keys (for_loop 0 16 (fun index =>
      assign_random rng GetRandomBitboardNumber (set_CastleKeys index)) s))
      !! i =
    if bool_decide (0 <= i < 16)
    then Some (draw rng GetRandomBitboardNumber i (random_state s))
    else CastleKeys (keys s) !! i.
Proof.
  pose proof (random_fill_loop rng GetRandomBitboardNumber CastleKeys 1
           (fun i k : Z => bool_decide (k = i)) (fun _ : Z => 0) (fun k : Z => k) 0 16
           (fun index => assign_random rng GetRandomBitboardNumber
                            (set_CastleKeys index))) as Hfill.
  destruct (fun a b c => Hfill a b c s)  as [Hg Hk]; [lia| | |lia|].
  - intros i k Hk. apply bool_decide_eq_true in Hk. lia.
  - intros i u Hi. rewrite assign_random_spec. simpl. split; [reflexivity|].
    intros k. rewrite lookup_insert.
    case_decide; case_bool_decide; congruence.
  - split; [exact Hg|]. intros sq. rewrite Hk.
    rewrite (bool_decide_eq_true_2 (sq = sq)) by reflexivity.
    rewrite andb_true_r. case_bool_decide; [|reflexivity]. do 2 f_equal. lia.
Qed.

(** The tables and the generator when initHashKeys returns, from any state. *)
Lemma initHashKeys_spec (s : HashState rng) :
  (forall t sq,
     PieceKeys (keys (initHashKeys rng GetRandomBitboardNumber s)) !! (t, sq) =
       if bool_decide (0 <= t < 12 /\ 0 <= sq < 64)
       then Some (draw rng GetRandomBitboardNumber (64 * t + sq) (random_state s))
       else PieceKeys (keys s) !! (t, sq)) /\
  (forall sq,
     enpassant_keys (keys (initHashKeys rng GetRandomBitboardNumber s)) !! sq =
       if bool_decide (0 <= sq < 64)
       then Some (draw rng GetRandomBitboardNumber (768 + sq) (random_state s))
       else enpassant_keys (keys s) !! sq) /\
  (forall i,
     CastleKeys (keys (initHashKeys rng GetRandomBitboardNumber s)) !! i =
       if bool_decide (0 <= i < 16)
       then Some (draw rng GetRandomBitboardNumber (832 + i) (random_state s))
       else CastleKeys (keys s) !! i) /\
  SideKey (keys (initHashKeys rng GetRandomBitboardNumber s))
    = draw rng GetRandomBitboardNumber 848 (random_state s) /\
  random_state (initHashKeys rng GetRandomBitboardNumber s)
    = rng_after rng GetRandomBitboardNumber 849 (random_state s).
Proof.
  unfold initHashKeys.
  set (s1 := for_loop WP (BK + 1) _ s).
  set (s2 := for_loop 0 64 _ s1).
  set (s3 := for_loop 0 16 _ s2).
  destruct (piece_loops_spec s) as [G1 K1]. fold s1 in G1, K1.
  destruct (enpassant_loop_spec s1) as [G2 K2]. fold s2 in G2, K2.
  destruct (castle_loop_spec s2) as [G3 K3]. fold s3 in G3, K3.
  rewrite G1 in G2, K2. rewrite rng_after_add in G2 by lia.
  rewrite G2 in G3, K3. rewrite rng_after_add in G3 by lia.
  rewrite assign_random_spec. simpl.
  assert (P3 : PieceKeys (keys s3) = PieceKeys (keys s2)) by (subst s3; frame_tac).
  assert (P2 : PieceKeys (keys s2) = PieceKeys (keys s1)) by (subst s2; frame_tac).
  assert (E3 : enpassant_keys (keys s3) = enpassant_keys (keys s2))
    by (subst s3; frame_tac).
  assert (E1 : enpassant_keys (keys s1) = enpassant_keys (keys s))
    by (subst s1; frame_tac).
  assert (C2 : CastleKeys (keys s2) = CastleKeys (keys s1)) by (subst s2; frame_tac).
  assert (C1 : CastleKeys (keys s1) = CastleKeys (keys s)) by (subst s1; frame_tac).
  split; [|split; [|split; [|split]]].
  - intros t sq. rewrite P3, P2. apply K1.
  - intros sq. rewrite E3, K2, E1. case_bool_decide; [|reflexivity].
    rewrite draw_after by lia. reflexivity.
  - intros i. rewrite K3, C2, C1. case_bool_decide; [|reflexivity].
    rewrite draw_after by lia. reflexivity.
  - rewrite G3. rewrite draw_after by lia. reflexivity.
  - rewrite G3. rewrite rng_after_add by lia. reflexivity.
Qed.

(** C4, as the code has it: the tables built by initHashKeys hold one number
    of the generator for each pair of piece type and square, one for each of
    the 64 squares as en-passant key, one for each of the 16 castling masks
    and one for the side to move: 849 successive numbers, each of 64 bits. *)
Theorem initHashKeys_tables (g : rng) :
  (forall g', 0 <= fst (GetRandomBitboardNumber g') < 2 ^ 64) ->
  (forall t sq,
     PieceKeys (keys (initHashKeys rng GetRandomBitboardNumber
                        {| keys := zero_keys; random_state := g |})) !! (t, sq) =
       if bool_decide (0 <= t < 12 /\ 0 <= sq < 64)
       then Some (draw rng GetRandomBitboardNumber (64 * t + sq) g) else None) /\
  (forall sq,
     enpassant_keys (keys (initHashKeys rng GetRandomBitboardNumber
                        {| keys := zero_keys; random_state := g |})) !! sq =
       if bool_decide (0 <= sq < 64)
       then Some (draw rng GetRandomBitboardNumber (768 + sq) g) else None) /\
  (forall i,
     CastleKeys (keys (initHashKeys rng GetRandomBitboardNumber
                        {| keys := zero_keys; random_state := g |})) !! i =
       if bool_decide (0 <= i < 16)
       then Some (draw rng GetRandomBitboardNumber (832 + i) g) else None) /\
  SideKey (keys (initHashKeys rng GetRandomBitboardNumber
                   {| keys := zero_keys; random_state := g |}))
    = draw rng GetRandomBitboardNumber 848 g /\
  enpassant_keys_by_square
    (keys (initHashKeys rng GetRandomBitboardNumber
             {| keys := zero_keys; random_state := g |})) /\
  size (enpassant_keys (keys (initHashKeys rng GetRandomBitboardNumber
                        {| keys := zero_keys; random_state := g |}))) = 64%nat /\
  size (CastleKeys (keys (initHashKeys rng GetRandomBitboardNumber
                        {| keys := zero_keys; random_state := g |}))) = 16%nat /\
  (forall n, 0 <= draw rng GetRandomBitboardNumber n g < 2 ^ 64).
Proof.
  intros Hbits.
  destruct (initHashKeys_spec {| keys := zero_keys; random_state := g |})
    as (HP & HE & HC & HS & _). simpl in *.
  assert (Hsq : enpassant_keys_by_square
    (keys (initHashKeys rng GetRandomBitboardNumber
             {| keys := zero_keys; random_state := g |}))).
  { intros k. rewrite HE. case_bool_decide as Hk.
    - split; [intros _; exact Hk|eauto].
    - rewrite lookup_empty. split; [intros [? ?]; discriminate|tauto]. }
  split; [|split; [|split; [|split; [|split; [|split; [|split]]]]]].
  - intros t sq. rewrite HP. reflexivity.
  - intros sq. rewrite HE. reflexivity.
  - intros i. rewrite HC. reflexivity.
  - exact HS.
  - exact Hsq.
  - apply (size_range_map _ 64); [lia|]. exact Hsq.
  - apply (size_range_map _ 16); [lia|]. intros k. rewrite HC.
    case_bool_decide as Hk.
    + split; [intros _; exact Hk|eauto].
    + rewrite lookup_empty. split; [intros [? ?]; discriminate|tauto].
  - intros n. apply Hbits.
Qed.

(** X4: initHashKeys draws 849 numbers from the generator, whatever the
    tables held, and the first en-passant key is the 769th of them. *)
Theorem initHashKeys_draws (s : HashState rng) :
  random_state (initHashKeys rng GetRandomBitboardNumber s)
    = rng_after rng GetRandomBitboardNumber 849 (random_state s) /\
  enpassant_keys (keys (initHashKeys rng GetRandomBitboardNumber s)) !! 0
    = Some (draw rng GetRandomBitboardNumber 768 (random_state s)).
Proof.
  destruct (initHashKeys_spec s) as (_ & HE & _ & _ & Hg).
  split; [exact Hg|]. rewrite HE. reflexivity.
Qed.

End HashKeysClaims.

(** * The sample generator *)

Lemma lor_range (n a b : Z) :
  0 <= n -> 0 <= a < 2 ^ n -> 0 <= b < 2 ^ n -> 0 <= Z.lor a b < 2 ^ n.
Proof.
  intros Hn Ha Hb.
  assert (H0 : 0 <= Z.lor a b) by (apply Z.lor_nonneg; lia).
  split; [exact H0|].
  destruct (Z.eq_dec n 0) as [->|Hn0].
  { change (2 ^ 0) with 1 in *. assert (a = 0) by lia. assert (b = 0) by lia.
    subst. reflexivity. }
  destruct (Z.eq_dec (Z.lor a b) 0) as [E|E]; [rewrite E; lia|].
  apply Z.log2_lt_pow2; [lia|]. rewrite Z.log2_lor by lia.
  apply Z.max_lub_lt.
  - destruct (Z.eq_dec a 0) as [->|]; [simpl; lia|apply Z.log2_lt_pow2; lia].
  - destruct (Z.eq_dec b 0) as [->|]; [simpl; lia|apply Z.log2_lt_pow2; lia].
Qed.

Lemma land_mask_range (a n : Z) : 0 <= n -> 0 <= Z.land a (2 ^ n - 1) < 2 ^ n.
Proof.
  intros Hn. replace (2 ^ n - 1) with (Z.ones n) by (rewrite Z.ones_equiv; lia).
  rewrite Z.land_ones by lia.
  apply Z.mod_pos_bound. lia.
Qed.

Lemma xorshift_bitboard_range (state : Z) :
  0 <= fst (xorshift_bitboard state) < 2 ^ 64.
Proof.
  unfold xorshift_bitboard. cbn [fst].
  assert (Hm : forall a, 0 <= Z.land a 65535 < 2 ^ 16)
    by (intros a; apply (land_mask_range a 16); lia).
  assert (Hs : forall a k, 0 <= k -> k + 16 <= 64 ->
            0 <= Z.shiftl (Z.land a 65535) k < 2 ^ 64).
  { intros a k Hk Hk'. rewrite Z.shiftl_mul_pow2 by lia.
    pose proof (Hm a) as Ha.
    assert (2 ^ 16 * 2 ^ k <= 2 ^ 64).
    { rewrite <- Z.pow_add_r by lia. apply Z.pow_le_mono_r; lia. }
    assert (0 < 2 ^ k) by (apply Z.pow_pos_nonneg; lia). nia. }
  repeat apply lor_range; try lia; try (apply Hs; lia).
  pose proof (Hm (xorshift32 state)). lia.
Qed.

(** C4 as stated does not hold: the en-passant keys are not indexed by file. *)
Lemma enpassant_keys_not_by_file :
  ~ enpassant_keys_by_file
      (keys (initHashKeys Z xorshift_bitboard
               {| keys := zero_keys; random_state := xorshift_seed |})).
Proof.
  intros Hfile.
  assert (Hsome : is_Some (enpassant_keys
      (keys (initHashKeys Z xorshift_bitboard
               {| keys := zero_keys; random_state := xorshift_seed |})) !! 8)).
  { vm_compute. eauto. }
  apply Hfile in Hsome. lia.
Qed.

Lemma initHashKeys_tables_witness :
  enpassant_keys (keys (initHashKeys Z xorshift_bitboard
                    {| keys := zero_keys; random_state := xorshift_seed |})) !! 63
    = Some (draw Z xorshift_bitboard 831 xorshift_seed) /\
  size (enpassant_keys (keys (initHashKeys Z xorshift_bitboard
                    {| keys := zero_keys; random_state := xorshift_seed |})))
    = 64%nat.
Proof.
  destruct (initHashKeys_tables Z xorshift_bitboard xorshift_seed
              xorshift_bitboard_range) as (_ & HE & _ & _ & _ & Hsz & _).
  split; [|exact Hsz]. rewrite HE. reflexivity.
Defined.

(** * Bits *)

Ltac bits i Hi :=
  apply Z.bits_inj'; intros i Hi;
  rewrite ?Z.land_spec, ?Z.lor_spec, ?Z.ldiff_spec, ?Z.lnot_spec by lia.

Lemma shiftl_1_testbit (s i : Z) :
  0 <= s -> Z.testbit (Z.shiftl 1 s) i = (s =? i).
Proof.
  intros Hs. rewrite Z.shiftl_1_l. destruct (Z_lt_le_dec i 0) as [Hi|Hi].
  - rewrite Z.testbit_neg_r by lia. symmetry. apply Z.eqb_neq. lia.
  - apply Z.pow2_bits_eqb. lia.
Qed.

Lemma subset_of_testbit (occ mask : Z) :
  subset_of occ mask <->
  (forall i, 0 <= i -> Z.testbit occ i = true -> Z.testbit mask i = true).
Proof.
  unfold subset_of. split.
  - intros E i Hi Ho. rewrite <- E in Ho. rewrite Z.land_spec in Ho.
    apply andb_true_iff in Ho. tauto.
  - intros H. bits i Hi. specialize (H i Hi).
    destruct (Z.testbit occ i); [rewrite H by reflexivity|]; reflexivity.
Qed.

Lemma subset_of_refl (mask : Z) : subset_of mask mask.
Proof. apply Z.land_diag. Qed.

Lemma subset_of_nonneg (occ mask : Z) : 0 <= mask -> subset_of occ mask -> 0 <= occ.
Proof. intros Hm E. rewrite <- E. apply Z.land_nonneg. auto. Qed.

Lemma subset_of_trans (a b c : Z) : subset_of a b -> subset_of b c -> subset_of a c.
Proof. rewrite !subset_of_testbit. auto. Qed.

Lemma pop_bit_testbit (m s i : Z) :
  0 <= s -> 0 <= i ->
  Z.testbit (pop_bit m s) i = Z.testbit m i && negb (s =? i).
Proof.
  intros Hs Hi. unfold pop_bit.
  rewrite Z.land_spec, Z.lnot_spec, shiftl_1_testbit by lia. reflexivity.
Qed.

Lemma pop_bit_sub (m s : Z) :
  0 <= s -> Z.testbit m s = true -> pop_bit m s = m - 2 ^ s.
Proof.
  intros Hs Hb. unfold pop_bit. rewrite <- Z.ldiff_land, Z.shiftl_1_l.
  symmetry. apply Z.sub_nocarry_ldiff.
  bits i Hi. rewrite Z.bits_0, Z.pow2_bits_eqb by lia.
  destruct (Z.eqb_spec s i) as [->|]; [rewrite Hb|]; reflexivity.
Qed.

Lemma land_bit_test (index count : Z) :
  0 <= count ->
  (Z.land index (Z.shiftl 1 count) =? 0) = negb (Z.testbit index count).
Proof.
  intros Hc. destruct (Z.testbit index count) eqn:Hb; simpl.
  - apply Z.eqb_neq. intros E.
    assert (Z.testbit (Z.land index (Z.shiftl 1 count)) count = true).
    { rewrite Z.land_spec, Hb, shiftl_1_testbit, Z.eqb_refl by lia. reflexivity. }
    rewrite E, Z.bits_0 in H. discriminate.
  - apply Z.eqb_eq. bits i Hi. rewrite Z.bits_0, shiftl_1_testbit by lia.
    destruct (Z.eqb_spec count i) as [<-|]; [rewrite Hb|rewrite andb_false_r];
      reflexivity.
Qed.

(** * CountBits and GetLsbIndex *)

Lemma popcount_pos (p : positive) : 1 <= popcount p.
Proof. induction p; simpl; lia. Qed.

Lemma CountBits_nonneg (m : Z) : 0 <= CountBits m.
Proof. destruct m; simpl; try lia. pose proof (popcount_pos p). lia. Qed.

Lemma CountBits_0 (m : Z) : 0 <= m -> CountBits m = 0 -> m = 0.
Proof.
  intros Hm E. destruct m as [|p|p]; [reflexivity| |lia].
  simpl in E. pose proof (popcount_pos p). lia.
Qed.

Lemma trailing_zeros_nonneg (p : positive) : 0 <= trailing_zeros p.
Proof. induction p; simpl; lia. Qed.

Lemma trailing_zeros_testbit (p : positive) :
  Z.testbit (Zpos p) (trailing_zeros p) = true.
Proof.
  induction p as [q IH|q IH|]; try reflexivity.
  cbn [trailing_zeros]. pose proof (trailing_zeros_nonneg q).
  change (Zpos q~0) with (2 * Zpos q).
  replace (1 + trailing_zeros q) with (Z.succ (trailing_zeros q)) by lia.
  rewrite Z.double_bits_succ. exact IH.
Qed.

Lemma CountBits_double (x b : Z) :
  0 <= x -> 0 <= b <= 1 -> CountBits (2 * x + b) = CountBits x + b.
Proof.
  intros Hx Hb. destruct x as [|p|p]; [| |lia].
  - assert (b = 0 \/ b = 1) as [-> | ->] by lia; reflexivity.
  - assert (b = 0 \/ b = 1) as [-> | ->] by lia.
    + change (2 * Z.pos p + 0) with (Zpos p~0). cbn [CountBits popcount]. lia.
    + change (2 * Z.pos p + 1) with (Zpos p~1). cbn [CountBits popcount]. lia.
Qed.

Lemma CountBits_sub_bit (p : positive) (s : Z) :
  0 <= s -> Z.testbit (Zpos p) s = true ->
  0 <= Zpos p - 2 ^ s /\ CountBits (Zpos p - 2 ^ s) = popcount p - 1.
Proof.
  revert s. induction p as [q IH|q IH|]; intros s Hs Hb.
  - destruct (Z.eq_dec s 0) as [->|Hne].
    + change (Zpos q~1 - 2 ^ 0) with (Zpos q~0). simpl. lia.
    + assert (Hq : Z.testbit (Zpos q) (s - 1) = true).
      { change (Zpos q~1) with (2 * Zpos q + 1) in Hb.
        replace s with (Z.succ (s - 1)) in Hb by lia.
        rewrite Z.testbit_odd_succ in Hb by lia. exact Hb. }
      destruct (IH (s - 1) ltac:(lia) Hq) as [H0 Hc].
      replace (Zpos q~1 - 2 ^ s) with (2 * (Zpos q - 2 ^ (s - 1)) + 1).
      2:{ replace (2 ^ s) with (2 * 2 ^ (s - 1)).
          - lia.
          - rewrite <- Z.pow_succ_r by lia. f_equal. lia. }
      split; [lia|]. rewrite CountBits_double by lia. rewrite Hc. simpl. lia.
  - destruct (Z.eq_dec s 0) as [->|Hne]; [discriminate Hb|].
    assert (Hq : Z.testbit (Zpos q) (s - 1) = true).
    { change (Zpos q~0) with (2 * Zpos q) in Hb.
      replace s with (Z.succ (s - 1)) in Hb by lia.
      rewrite Z.double_bits_succ in Hb. exact Hb. }
    destruct (IH (s - 1) ltac:(lia) Hq) as [H0 Hc].
    replace (Zpos q~0 - 2 ^ s) with (2 * (Zpos q - 2 ^ (s - 1)) + 0).
    2:{ replace (2 ^ s) with (2 * 2 ^ (s - 1)).
        - lia.
        - rewrite <- Z.pow_succ_r by lia. f_equal. lia. }
    split; [lia|]. rewrite CountBits_double by lia. rewrite Hc. simpl. lia.
  - destruct (Z.eq_dec s 0) as [->|Hne]; [simpl; lia|].
    exfalso. change 1 with (2 ^ 0) in Hb. rewrite Z.pow2_bits_eqb in Hb by lia.
    apply Z.eqb_eq in Hb. lia.
Qed.

(** Taking the lowest square off a mask that is not empty. *)
Lemma pop_lsb_spec (p : positive) :
  0 <= GetLsbIndex (Zpos p) /\
  Z.testbit (Zpos p) (GetLsbIndex (Zpos p)) = true /\
  0 <= pop_bit (Zpos p) (GetLsbIndex (Zpos p)) /\
  CountBits (pop_bit (Zpos p) (GetLsbIndex (Zpos p))) = CountBits (Zpos p) - 1.
Proof.
  cbn [GetLsbIndex CountBits].
  pose proof (trailing_zeros_nonneg p) as H0.
  pose proof (trailing_zeros_testbit p) as Hb.
  rewrite pop_bit_sub by assumption.
  destruct (CountBits_sub_bit p _ H0 Hb). auto.
Qed.

(** * SetOccupancy *)

Lemma testbit_above_low (low k count : Z) (b : bool) :
  0 <= count -> 0 <= low < 2 ^ count ->
  Z.testbit (low + (Z.b2z b + 2 * k) * 2 ^ count) count = b.
Proof.
  intros Hc Hlow.
  assert (H2 : 0 < 2 ^ count) by (apply Z.pow_pos_nonneg; lia).
  pose proof (Z.testbit_spec' (low + (Z.b2z b + 2 * k) * 2 ^ count) count Hc) as E.
  rewrite Z.div_add in E by lia.
  rewrite Z.div_small in E by lia.
  replace (0 + (Z.b2z b + 2 * k)) with (Z.b2z b + k * 2) in E by lia.
  rewrite Z.mod_add in E by lia.
  destruct b, (Z.testbit _ count); simpl in E; try reflexivity; discriminate.
Qed.

(** Every round of SetOccupancy adds a square of the mask or nothing. *)
Lemma SetOccupancy_loop_subset (rounds : nat) (count index mask occ big : Z) :
  0 <= mask -> subset_of mask big -> subset_of occ big ->
  subset_of (SetOccupancy_loop rounds count index mask occ) big.
Proof.
  revert count mask occ.
  induction rounds as [|rounds IH]; intros count mask occ Hm Hmask Hocc.
  - exact Hocc.
  - cbn [SetOccupancy_loop]. destruct mask as [|p|p]; [| |lia].
    + apply IH; [reflexivity|exact Hmask|].
      destruct (_ =? 0); [exact Hocc|]. simpl. rewrite Z.lor_0_r. exact Hocc.
    + destruct (pop_lsb_spec p) as (Hs & Hb & Hpop & _).
      apply IH; [exact Hpop| |].
      * apply subset_of_testbit. intros i Hi Ht.
        rewrite pop_bit_testbit in Ht by lia. apply andb_true_iff in Ht.
        revert i Hi Ht. intros i Hi [Ht _].
        apply (proj1 (subset_of_testbit _ _) Hmask i Hi Ht).
      * destruct (_ =? 0); [exact Hocc|].
        apply subset_of_testbit. intros i Hi Ht.
        rewrite Z.lor_spec, shiftl_1_testbit in Ht by lia.
        apply orb_true_iff in Ht. destruct Ht as [Ht|Ht].
        -- apply (proj1 (subset_of_testbit _ _) Hocc i Hi Ht).
        -- apply Z.eqb_eq in Ht. subst i.
           apply (proj1 (subset_of_testbit _ _) Hmask _ Hs Hb).
Qed.

Lemma SetOccupancy_subset (index bits_in_mask mask : Z) :
  0 <= mask -> subset_of (SetOccupancy index bits_in_mask mask) mask.
Proof.
  intros Hm. apply SetOccupancy_loop_subset; [exact Hm|apply subset_of_refl|].
  apply Z.land_0_l.
Qed.

(** With as many rounds as the mask has squares, the rounds reach every
    subset of the mask. *)
Lemma SetOccupancy_loop_onto (rounds : nat) :
  forall mask target count occ : Z,
    0 <= mask -> CountBits mask = Z.of_nat rounds ->
    subset_of target mask -> 0 <= count ->
    exists idx, 0 <= idx < 2 ^ Z.of_nat rounds /\
      forall low, 0 <= low < 2 ^ count ->
        SetOccupancy_loop rounds count (low + idx * 2 ^ count) mask occ
          = Z.lor occ target.
Proof.
  induction rounds as [|rounds IH]; intros mask target count occ Hm Hc Hsub Hcount.
  - apply CountBits_0 in Hc; [|exact Hm]. subst mask.
    unfold subset_of in Hsub. rewrite Z.land_0_r in Hsub. subst target.
    exists 0. split; [simpl; lia|]. intros low _. simpl. rewrite Z.lor_0_r.
    reflexivity.
  - destruct mask as [|p|p]; [simpl in Hc; lia| |lia].
    destruct (pop_lsb_spec p) as (Hs & Hb & Hpop & Hcnt).
    set (sq := GetLsbIndex (Zpos p)) in *.
    set (b := Z.testbit target sq).
    assert (Hsub' : subset_of (pop_bit target sq) (pop_bit (Zpos p) sq)).
    { apply subset_of_testbit. intros i Hi Ht.
      rewrite pop_bit_testbit in * by lia. apply andb_true_iff in Ht.
      destruct Ht as [Ht Hne]. rewrite Hne, andb_true_r.
      apply (proj1 (subset_of_testbit _ _) Hsub i Hi Ht). }
    destruct (IH (pop_bit (Zpos p) sq) (pop_bit target sq) (count + 1)
                (if b then Z.lor occ (Z.shiftl 1 sq) else occ)
                Hpop ltac:(lia) Hsub' ltac:(lia)) as (idx' & Hidx' & Hloop).
    exists (Z.b2z b + 2 * idx'). split.
    { rewrite Nat2Z.inj_succ, Z.pow_succ_r by lia. destruct b; simpl; lia. }
    intros low Hlow. cbn [SetOccupancy_loop]. fold sq.
    rewrite land_bit_test by lia.
    rewrite (testbit_above_low low idx' count b) by lia.
    assert (H2 : 0 < 2 ^ count) by (apply Z.pow_pos_nonneg; lia).
    replace (low + (Z.b2z b + 2 * idx') * 2 ^ count)
      with ((low + Z.b2z b * 2 ^ count) + idx' * 2 ^ (count + 1))
      by (rewrite Z.pow_add_r by lia; change (2 ^ 1) with 2; ring).
    replace (if negb b then occ else Z.lor occ (Z.shiftl 1 sq))
      with (if b then Z.lor occ (Z.shiftl 1 sq) else occ) by (destruct b; reflexivity).
    rewrite Hloop.
    2:{ rewrite Z.pow_add_r by lia. change (2 ^ 1) with 2.
        destruct b; simpl; lia. }
    bits i Hi. rewrite pop_bit_testbit by lia.
    destruct (Z.eqb_spec sq i) as [<-|Hne]; fold b.
    + destruct b; rewrite ?Z.lor_spec, ?shiftl_1_testbit, ?Z.eqb_refl by lia;
        simpl; rewrite ?orb_true_r, ?andb_false_r, ?orb_false_r; reflexivity.
    + destruct b; rewrite ?Z.lor_spec, ?shiftl_1_testbit by lia;
        [replace (sq =? i) with false by (symmetry; apply Z.eqb_neq; lia)|];
        simpl; rewrite ?andb_true_r, ?orb_false_r; reflexivity.
Qed.

(** SetOccupancy makes every subset of the mask from an index below
    [1 << CountBits mask]. *)
Lemma SetOccupancy_onto (mask target : Z) :
  0 <= mask -> subset_of target mask ->
  exists index, 0 <= index < 2 ^ CountBits mask /\
    SetOccupancy index (CountBits mask) mask = target.
Proof.
  intros Hm Hsub. pose proof (CountBits_nonneg mask) as Hc.
  destruct (SetOccupancy_loop_onto (Z.to_nat (CountBits mask)) mask target 0 0
              Hm ltac:(lia) Hsub ltac:(lia)) as (idx & Hidx & Hloop).
  exists idx. rewrite Z2Nat.id in Hidx by lia. split; [exact Hidx|].
  unfold SetOccupancy. specialize (Hloop 0 ltac:(simpl; lia)).
  rewrite Z.add_0_l, Z.pow_0_r, Z.mul_1_r, Z.lor_0_l in Hloop. exact Hloop.
Qed.

(** * The loop over the occupancies of one slider on one square *)

Lemma wrap32_shiftl_1 (n : Z) : 0 <= n < 31 -> wrap32 (Z.shiftl 1 n) = 2 ^ n.
Proof.
  intros Hn. rewrite Z.shiftl_1_l. unfold wrap32.
  assert (0 < 2 ^ n) by (apply Z.pow_pos_nonneg; lia).
  assert (2 ^ n < 2 ^ 31) by (apply Z.pow_lt_mono_r; lia).
  rewrite Z.mod_small; lia.
Qed.

Lemma slider_loop_lookup (f : AttackTables -> gmap (Z * Z) Z)
    (body : Z -> AttackTables -> AttackTables)
    (square mask : Z) (attacks : Z -> Z) (magic bits : Z) :
  (forall index t,
     f (body index t)
       = <[(square, magic_hash magic bits
                      (SetOccupancy index (CountBits mask) mask))
           := attacks (SetOccupancy index (CountBits mask) mask)]> (f t)) ->
  0 <= mask -> CountBits mask < 31 ->
  magic_consistent mask attacks magic bits ->
  forall t occ, subset_of occ mask ->
    f (for_loop 0 (wrap32 (Z.shiftl 1 (CountBits mask))) body t)
      !! (square, magic_hash magic bits occ) = Some (attacks occ).
Proof.
  intros Hbody Hm Hsmall Hok t occ Hocc.
  pose proof (CountBits_nonneg mask) as Hc.
  rewrite wrap32_shiftl_1 by lia.
  pose proof (for_loop_stores f
    (fun (index : Z) (k : Z * Z) =>
       bool_decide (k = (square, magic_hash magic bits
                                   (SetOccupancy index (CountBits mask) mask))))
    (fun (index : Z) (_ : Z * Z) =>
       attacks (SetOccupancy index (CountBits mask) mask))
    0 (2 ^ CountBits mask) body) as Hst.
  assert (Hst' := fun H1 H2 k => Hst H1 H2 t k). clear Hst.
  assert (H1 : forall i u k, 0 <= i < 2 ^ CountBits mask ->
    f (body i u) !! k =
      if bool_decide (k = (square, magic_hash magic bits
                                     (SetOccupancy i (CountBits mask) mask)))
      then Some (attacks (SetOccupancy i (CountBits mask) mask))
      else f u !! k).
  { intros i u k _. rewrite Hbody, lookup_insert.
    case_decide; case_bool_decide; congruence. }
  assert (H2 : forall i i' (k : Z * Z),
    0 <= i < 2 ^ CountBits mask -> 0 <= i' < 2 ^ CountBits mask ->
    bool_decide (k = (square, magic_hash magic bits
                                (SetOccupancy i (CountBits mask) mask))) = true ->
    bool_decide (k = (square, magic_hash magic bits
                                (SetOccupancy i' (CountBits mask) mask))) = true ->
    attacks (SetOccupancy i (CountBits mask) mask)
      = attacks (SetOccupancy i' (CountBits mask) mask)).
  { intros i i' k _ _ Hi Hi'.
    apply bool_decide_eq_true in Hi, Hi'. subst k. inversion Hi' as [E].
    apply Hok; [apply SetOccupancy_subset| apply SetOccupancy_subset|]; auto. }
  specialize (Hst' H1 H2).
  destruct (SetOccupancy_onto mask occ Hm Hocc) as (index & Hindex & E).
  destruct (Hst' (square, magic_hash magic bits occ)) as [Hin _].
  rewrite (Hin index Hindex); [rewrite E; reflexivity|].
  apply bool_decide_eq_true. rewrite E. reflexivity.
Qed.

(** The loop of one square leaves the rows of the other squares alone. *)
Lemma slider_loop_frame (f : AttackTables -> gmap (Z * Z) Z)
    (body : Z -> AttackTables -> AttackTables) (square : Z) :
  (forall index u k, k.1 <> square -> f (body index u) !! k = f u !! k) ->
  forall lo hi t k, k.1 <> square -> f (for_loop lo hi body t) !! k = f t !! k.
Proof.
  intros Hbody lo hi t k Hk.
  destruct (Z_le_gt_dec lo hi) as [Hle|Hgt].
  2:{ rewrite for_loop_empty by lia. reflexivity. }
  apply (for_loop_inv (fun _ u => f u !! k = f t !! k)); [lia|reflexivity|].
  intros i u _ IH. rewrite Hbody by exact Hk. exact IH.
Qed.

Lemma insert_other_row (m : gmap (Z * Z) Z) (square cell v : Z) (k : Z * Z) :
  k.1 <> square -> <[(square, cell) := v]> m !! k = m !! k.
Proof. intros Hk. apply lookup_insert_ne. intros E. apply Hk. rewrite <- E. reflexivity. Qed.

Section AttackTablesStores.
Variable MaskPawnAttacks : Z -> Z -> Z.
Variable MaskKnightAttacks : Z -> Z.
Variable MaskKingAttacks : Z -> Z.
Variable MaskBishopAttacks : Z -> Z.
Variable MaskRookAttacks : Z -> Z.
Variable BishopAttacksOnTheFly : Z -> Z -> Z.
Variable RookAttacksOnTheFly : Z -> Z -> Z.
Variable bishop_magic_numbers : Z -> Z.
Variable rook_magic_numbers : Z -> Z.
Variable bishop_relevant_bits : Z.
Variable rook_relevant_bits : Z.

(** The round of one square: what it stores in the masks, and that it leaves
    the squares-between table and the rows of the other squares alone. *)
Lemma attack_tables_body_frame (square : Z) (t : AttackTables) :
  bishop_masks (attack_tables_body MaskPawnAttacks MaskKnightAttacks
      MaskKingAttacks MaskBishopAttacks MaskRookAttacks BishopAttacksOnTheFly
      RookAttacksOnTheFly bishop_magic_numbers rook_magic_numbers
      bishop_relevant_bits rook_relevant_bits square t)
    = <[square := MaskBishopAttacks square]> (bishop_masks t) /\
  rook_masks (attack_tables_body MaskPawnAttacks MaskKnightAttacks
      MaskKingAttacks MaskBishopAttacks MaskRookAttacks BishopAttacksOnTheFly
      RookAttacksOnTheFly bishop_magic_numbers rook_magic_numbers
      bishop_relevant_bits rook_relevant_bits square t)
    = <[square := MaskRookAttacks square]> (rook_masks t) /\
  SQUARES_BETWEEN_BB (attack_tables_body MaskPawnAttacks MaskKnightAttacks
      MaskKingAttacks MaskBishopAttacks MaskRookAttacks BishopAttacksOnTheFly
      RookAttacksOnTheFly bishop_magic_numbers rook_magic_numbers
      bishop_relevant_bits rook_relevant_bits square t)
    = SQUARES_BETWEEN_BB t /\
  (forall k, k.1 <> square ->
     bishop_attacks (attack_tables_body MaskPawnAttacks MaskKnightAttacks
         MaskKingAttacks MaskBishopAttacks MaskRookAttacks BishopAttacksOnTheFly
         RookAttacksOnTheFly bishop_magic_numbers rook_magic_numbers
         bishop_relevant_bits rook_relevant_bits square t) !! k
       = bishop_attacks t !! k) /\
  (forall k, k.1 <> square ->
     rook_attacks (attack_tables_body MaskPawnAttacks MaskKnightAttacks
         MaskKingAttacks MaskBishopAttacks MaskRookAttacks BishopAttacksOnTheFly
         RookAttacksOnTheFly bishop_magic_numbers rook_magic_numbers
         bishop_relevant_bits rook_relevant_bits square t) !! k
       = rook_attacks t !! k).
Proof.
  unfold attack_tables_body.
  set (t5 := set_bishop_masks square (MaskBishopAttacks square) _).
  set (t6 := for_loop 0 _ _ t5).
  set (t7 := set_rook_masks square (MaskRookAttacks square) t6).
  set (t8 := for_loop 0 _ _ t7).
  assert (F8 : forall {A} (g : AttackTables -> A),
            (forall k v u, g (set_rook_attacks k v u) = g u) -> g t8 = g t7).
  { intros A g Hg. apply (for_loop_frame g). intros i u _. apply Hg. }
  assert (F6 : forall {A} (g : AttackTables -> A),
            (forall k v u, g (set_bishop_attacks k v u) = g u) -> g t6 = g t5).
  { intros A g Hg. apply (for_loop_frame g). intros i u _. apply Hg. }
  split; [|split; [|split; [|split]]].
  - rewrite (F8 _ bishop_masks) by reflexivity. unfold t7. cbn [bishop_masks rook_masks bishop_attacks rook_attacks
      SQUARES_BETWEEN_BB set_rook_masks set_bishop_masks].
    rewrite (F6 _ bishop_masks) by reflexivity. reflexivity.
  - rewrite (F8 _ rook_masks) by reflexivity. unfold t7. cbn [bishop_masks rook_masks bishop_attacks rook_attacks
      SQUARES_BETWEEN_BB set_rook_masks set_bishop_masks].
    rewrite (F6 _ rook_masks) by reflexivity. reflexivity.
  - rewrite (F8 _ SQUARES_BETWEEN_BB) by reflexivity. unfold t7. cbn [bishop_masks rook_masks bishop_attacks rook_attacks
      SQUARES_BETWEEN_BB set_rook_masks set_bishop_masks].
    rewrite (F6 _ SQUARES_BETWEEN_BB) by reflexivity. reflexivity.
  - intros k Hk. rewrite (F8 _ bishop_attacks) by reflexivity.
    unfold t7. cbn [bishop_attacks set_rook_masks]. unfold t6.
    rewrite (slider_loop_frame bishop_attacks _ square) by
      (try exact Hk; intros; apply insert_other_row; assumption).
    reflexivity.
  - intros k Hk. unfold t8.
    rewrite (slider_loop_frame rook_attacks _ square) by
      (try exact Hk; intros; apply insert_other_row; assumption).
    unfold t7. cbn [bishop_masks rook_masks bishop_attacks rook_attacks
      SQUARES_BETWEEN_BB set_rook_masks set_bishop_masks]. rewrite (F6 _ rook_attacks) by reflexivity. reflexivity.
Qed.

(** The round of a square fills its row of the bishop table. *)
Lemma attack_tables_body_bishop (square : Z) (t : AttackTables) :
  0 <= MaskBishopAttacks square -> CountBits (MaskBishopAttacks square) < 31 ->
  magic_consistent (MaskBishopAttacks square) (BishopAttacksOnTheFly square)
    (bishop_magic_numbers square) bishop_relevant_bits ->
  forall occ, subset_of occ (MaskBishopAttacks square) ->
     bishop_attacks (attack_tables_body MaskPawnAttacks MaskKnightAttacks
         MaskKingAttacks MaskBishopAttacks MaskRookAttacks BishopAttacksOnTheFly
         RookAttacksOnTheFly bishop_magic_numbers rook_magic_numbers
         bishop_relevant_bits rook_relevant_bits square t)
       !! (square, magic_hash (bishop_magic_numbers square)
                     bishop_relevant_bits occ)
       = Some (BishopAttacksOnTheFly square occ).
Proof.
  intros Hb0 Hb31 Hok occ Hocc. unfold attack_tables_body.
  set (t5 := set_bishop_masks square (MaskBishopAttacks square) _).
  assert (Eb : rd (bishop_masks t5) square = MaskBishopAttacks square).
  { unfold rd, t5. cbn [bishop_masks set_bishop_masks]. rewrite lookup_insert_eq. reflexivity. }
  rewrite Eb.
  set (t6 := for_loop 0 _ _ t5).
  set (t7 := set_rook_masks square (MaskRookAttacks square) t6).
  rewrite (for_loop_frame bishop_attacks) by reflexivity.
  unfold t7. cbn [bishop_attacks set_rook_masks]. unfold t6.
  apply (slider_loop_lookup bishop_attacks
           (bishop_index_body BishopAttacksOnTheFly bishop_magic_numbers
              bishop_relevant_bits square
              (CountBits (MaskBishopAttacks square)) (MaskBishopAttacks square))
           square (MaskBishopAttacks square)
           (BishopAttacksOnTheFly square) (bishop_magic_numbers square)
           bishop_relevant_bits (fun _ _ => eq_refl) Hb0 Hb31 Hok t5 occ Hocc).
Qed.

(** The round of a square fills its row of the rook table. *)
Lemma attack_tables_body_rook (square : Z) (t : AttackTables) :
  0 <= MaskRookAttacks square -> CountBits (MaskRookAttacks square) < 31 ->
  magic_consistent (MaskRookAttacks square) (RookAttacksOnTheFly square)
    (rook_magic_numbers square) rook_relevant_bits ->
  forall occ, subset_of occ (MaskRookAttacks square) ->
     rook_attacks (attack_tables_body MaskPawnAttacks MaskKnightAttacks
         MaskKingAttacks MaskBishopAttacks MaskRookAttacks BishopAttacksOnTheFly
         RookAttacksOnTheFly bishop_magic_numbers rook_magic_numbers
         bishop_relevant_bits rook_relevant_bits square t)
       !! (square, magic_hash (rook_magic_numbers square)
                     rook_relevant_bits occ)
       = Some (RookAttacksOnTheFly square occ).
Proof.
  intros Hr0 Hr31 Hok occ Hocc. unfold attack_tables_body.
  set (t5 := set_bishop_masks square (MaskBishopAttacks square) _).
  set (t6 := for_loop 0 _ _ t5).
  set (t7 := set_rook_masks square (MaskRookAttacks square) t6).
  assert (Er : rd (rook_masks t7) square = MaskRookAttacks square).
  { unfold rd, t7. cbn [rook_masks set_rook_masks]. rewrite lookup_insert_eq. reflexivity. }
  rewrite Er.
  apply (slider_loop_lookup rook_attacks
           (rook_index_body RookAttacksOnTheFly rook_magic_numbers
              rook_relevant_bits square
              (CountBits (MaskRookAttacks square)) (MaskRookAttacks square))
           square (MaskRookAttacks square)
           (RookAttacksOnTheFly square) (rook_magic_numbers square)
           rook_relevant_bits (fun _ _ => eq_refl) Hr0 Hr31 Hok t7 occ Hocc).
Qed.

(** The masks and the squares-between table when InitAttackTables returns. *)
Lemma InitAttackTables_masks (t : AttackTables) :
  SQUARES_BETWEEN_BB (InitAttackTables MaskPawnAttacks MaskKnightAttacks
      MaskKingAttacks MaskBishopAttacks MaskRookAttacks BishopAttacksOnTheFly
      RookAttacksOnTheFly bishop_magic_numbers rook_magic_numbers
      bishop_relevant_bits rook_relevant_bits t) = SQUARES_BETWEEN_BB t /\
  forall sq, 0 <= sq < 64 ->
    bishop_masks (InitAttackTables MaskPawnAttacks MaskKnightAttacks
        MaskKingAttacks MaskBishopAttacks MaskRookAttacks BishopAttacksOnTheFly
        RookAttacksOnTheFly bishop_magic_numbers rook_magic_numbers
        bishop_relevant_bits rook_relevant_bits t) !! sq
      = Some (MaskBishopAttacks sq) /\
    rook_masks (InitAttackTables MaskPawnAttacks MaskKnightAttacks
        MaskKingAttacks MaskBishopAttacks MaskRookAttacks BishopAttacksOnTheFly
        RookAttacksOnTheFly bishop_magic_numbers rook_magic_numbers
        bishop_relevant_bits rook_relevant_bits t) !! sq
      = Some (MaskRookAttacks sq).
Proof.
  unfold InitAttackTables.
  set (body := attack_tables_body MaskPawnAttacks MaskKnightAttacks
      MaskKingAttacks MaskBishopAttacks MaskRookAttacks BishopAttacksOnTheFly
      RookAttacksOnTheFly bishop_magic_numbers rook_magic_numbers
      bishop_relevant_bits rook_relevant_bits).
  pose (P := fun (n : Z) (u : AttackTables) =>
    SQUARES_BETWEEN_BB u = SQUARES_BETWEEN_BB t /\
    forall sq, 0 <= sq < n ->
      bishop_masks u !! sq = Some (MaskBishopAttacks sq) /\
      rook_masks u !! sq = Some (MaskRookAttacks sq)).
  change (P 64 (for_loop 0 64 body t)).
  apply for_loop_inv; [lia| |]; unfold P.
  - split; [reflexivity|]. intros sq Hsq. lia.
  - intros i u Hi [HS IH].
    destruct (attack_tables_body_frame i u) as (Ebm & Erm & Esb & _).
    fold body in Ebm, Erm, Esb.
    split; [congruence|]. intros sq Hsq. rewrite Ebm, Erm.
    destruct (Z.eq_dec sq i) as [->|Hne].
    + rewrite !lookup_insert_eq. auto.
    + rewrite !lookup_insert_ne by congruence. apply IH. lia.
Qed.

(** The row of a square in the bishop table when InitAttackTables returns. *)
Lemma InitAttackTables_bishop (t : AttackTables) (s : Z) :
  0 <= s < 64 ->
  0 <= MaskBishopAttacks s -> CountBits (MaskBishopAttacks s) < 31 ->
  magic_consistent (MaskBishopAttacks s) (BishopAttacksOnTheFly s)
    (bishop_magic_numbers s) bishop_relevant_bits ->
  forall occ, subset_of occ (MaskBishopAttacks s) ->
    bishop_attacks (InitAttackTables MaskPawnAttacks MaskKnightAttacks
        MaskKingAttacks MaskBishopAttacks MaskRookAttacks
        BishopAttacksOnTheFly RookAttacksOnTheFly bishop_magic_numbers
        rook_magic_numbers bishop_relevant_bits rook_relevant_bits t)
      !! (s, magic_hash (bishop_magic_numbers s) bishop_relevant_bits occ)
      = Some (BishopAttacksOnTheFly s occ).
Proof.
  intros Hs H0 H31 Hok occ Hocc. unfold InitAttackTables.
  set (body := attack_tables_body MaskPawnAttacks MaskKnightAttacks
      MaskKingAttacks MaskBishopAttacks MaskRookAttacks BishopAttacksOnTheFly
      RookAttacksOnTheFly bishop_magic_numbers rook_magic_numbers
      bishop_relevant_bits rook_relevant_bits).
  pose (P := fun (n : Z) (u : AttackTables) =>
    s < n ->
    bishop_attacks u
      !! (s, magic_hash (bishop_magic_numbers s) bishop_relevant_bits occ)
      = Some (BishopAttacksOnTheFly s occ)).
  assert (HP : P 64 (for_loop 0 64 body t)); [|apply HP; lia].
  apply for_loop_inv; [lia| |]; unfold P.
  - lia.
  - intros i u Hi IH Hlt. destruct (Z.eq_dec i s) as [->|Hne].
    + apply attack_tables_body_bishop; assumption.
    + destruct (attack_tables_body_frame i u) as (_ & _ & _ & HB & _).
      fold body in HB. rewrite HB by (cbn [fst]; congruence). apply IH. lia.
Qed.

(** The row of a square in the rook table when InitAttackTables returns. *)
Lemma InitAttackTables_rook (t : AttackTables) (s : Z) :
  0 <= s < 64 ->
  0 <= MaskRookAttacks s -> CountBits (MaskRookAttacks s) < 31 ->
  magic_consistent (MaskRookAttacks s) (RookAttacksOnTheFly s)
    (rook_magic_numbers s) rook_relevant_bits ->
  forall occ, subset_of occ (MaskRookAttacks s) ->
    rook_attacks (InitAttackTables MaskPawnAttacks MaskKnightAttacks
        MaskKingAttacks MaskBishopAttacks MaskRookAttacks
        BishopAttacksOnTheFly RookAttacksOnTheFly bishop_magic_numbers
        rook_magic_numbers bishop_relevant_bits rook_relevant_bits t)
      !! (s, magic_hash (rook_magic_numbers s) rook_relevant_bits occ)
      = Some (RookAttacksOnTheFly s occ).
Proof.
  intros Hs H0 H31 Hok occ Hocc. unfold InitAttackTables.
  set (body := attack_tables_body MaskPawnAttacks MaskKnightAttacks
      MaskKingAttacks MaskBishopAttacks MaskRookAttacks BishopAttacksOnTheFly
      RookAttacksOnTheFly bishop_magic_numbers rook_magic_numbers
      bishop_relevant_bits rook_relevant_bits).
  pose (P := fun (n : Z) (u : AttackTables) =>
    s < n ->
    rook_attacks u
      !! (s, magic_hash (rook_magic_numbers s) rook_relevant_bits occ)
      = Some (RookAttacksOnTheFly s occ)).
  assert (HP : P 64 (for_loop 0 64 body t)); [|apply HP; lia].
  apply for_loop_inv; [lia| |]; unfold P.
  - lia.
  - intros i u Hi IH Hlt. destruct (Z.eq_dec i s) as [->|Hne].
    + apply attack_tables_body_rook; assumption.
    + destruct (attack_tables_body_frame i u) as (_ & _ & _ & _ & HR).
      fold body in HR. rewrite HR by (cbn [fst]; congruence). apply IH. lia.
Qed.

End AttackTablesStores.

(** * The slider tables after InitAttackTables *)

Section AttackTablesClaims.
Variable MaskPawnAttacks : Z -> Z -> Z.
Variable MaskKnightAttacks : Z -> Z.
Variable MaskKingAttacks : Z -> Z.
Variable MaskBishopAttacks : Z -> Z.
Variable MaskRookAttacks : Z -> Z.
Variable BishopAttacksOnTheFly : Z -> Z -> Z.
Variable RookAttacksOnTheFly : Z -> Z -> Z.
Variable bishop_magic_numbers : Z -> Z.
Variable rook_magic_numbers : Z -> Z.
Variable bishop_relevant_bits : Z.
Variable rook_relevant_bits : Z.

(** C1: after InitAttackTables, for every square [s] and every subset [occ]
    of the relevant-occupancy mask of [s], the entry at the magic index of
    [occ] is the ray-cast attack set of [s] and [occ], in the bishop table and
    in the rook table: for a mask that is a bitboard of fewer than 31 squares
    and a magic constant that is fit for it. *)
Theorem InitAttackTables_lookup (t : AttackTables) (s occ : Z) :
  0 <= s < 64 ->
  (0 <= MaskBishopAttacks s -> CountBits (MaskBishopAttacks s) < 31 ->
   magic_consistent (MaskBishopAttacks s) (BishopAttacksOnTheFly s)
     (bishop_magic_numbers s) bishop_relevant_bits ->
   subset_of occ (MaskBishopAttacks s) ->
   rd (bishop_attacks (InitAttackTables MaskPawnAttacks MaskKnightAttacks
         MaskKingAttacks MaskBishopAttacks MaskRookAttacks BishopAttacksOnTheFly
         RookAttacksOnTheFly bishop_magic_numbers rook_magic_numbers
         bishop_relevant_bits rook_relevant_bits t))
      (s, magic_hash (bishop_magic_numbers s) bishop_relevant_bits occ)
     = BishopAttacksOnTheFly s occ) /\
  (0 <= MaskRookAttacks s -> CountBits (MaskRookAttacks s) < 31 ->
   magic_consistent (MaskRookAttacks s) (RookAttacksOnTheFly s)
     (rook_magic_numbers s) rook_relevant_bits ->
   subset_of occ (MaskRookAttacks s) ->
   rd (rook_attacks (InitAttackTables MaskPawnAttacks MaskKnightAttacks
         MaskKingAttacks MaskBishopAttacks MaskRookAttacks BishopAttacksOnTheFly
         RookAttacksOnTheFly bishop_magic_numbers rook_magic_numbers
         bishop_relevant_bits rook_relevant_bits t))
      (s, magic_hash (rook_magic_numbers s) rook_relevant_bits occ)
     = RookAttacksOnTheFly s occ).
Proof.
  intros Hs. split; intros H0 H31 Hok Hocc; apply rd_Some.
  - apply InitAttackTables_bishop; assumption.
  - apply InitAttackTables_rook; assumption.
Qed.


End AttackTablesClaims.

(** * Checking magic constants by evaluation *)

Lemma consistent_fill_sound (l : list (Z * Z)) (tbl : gmap Z Z) :
  consistent_fill l tbl = true ->
  exists full : gmap Z Z,
    tbl ⊆ full /\ forall k v, (k, v) ∈ l -> full !! k = Some v.
Proof.
  revert tbl. induction l as [|[k v] l IH]; intros tbl Hfill.
  - exists tbl. split; [reflexivity|]. intros k v Hin. inversion Hin.
  - simpl in Hfill. destruct (tbl !! k) as [v'|] eqn:Ek.
    + apply andb_true_iff in Hfill. destruct Hfill as [Hv Hfill].
      apply Z.eqb_eq in Hv. subst v'.
      destruct (IH tbl Hfill) as (full & Hsub & Hall).
      exists full. split; [exact Hsub|]. intros k' w Hin.
      apply elem_of_cons in Hin. destruct Hin as [E|Hin]; [|auto].
      inversion E; subst. eapply lookup_weaken; eauto.
    + destruct (IH _ Hfill) as (full & Hsub & Hall).
      exists full. split.
      * etransitivity; [|exact Hsub]. apply insert_subseteq. exact Ek.
      * intros k' w Hin.
        apply elem_of_cons in Hin. destruct Hin as [E|Hin]; [|auto].
        inversion E; subst. eapply lookup_weaken; [|exact Hsub].
        apply lookup_insert_eq.
Qed.

Lemma check_magic_sound (mask : Z) (attacks : Z -> Z) (magic bits : Z) :
  0 <= mask -> check_magic mask attacks magic bits = true ->
  magic_consistent mask attacks magic bits.
Proof.
  intros Hm Hcheck o1 o2 H1 H2 Hidx.
  destruct (consistent_fill_sound _ _ Hcheck) as (full & _ & Hall).
  destruct (SetOccupancy_onto mask o1 Hm H1) as (i1 & Hi1 & E1).
  destruct (SetOccupancy_onto mask o2 Hm H2) as (i2 & Hi2 & E2).
  assert (F1 : full !! magic_hash magic bits o1 = Some (attacks o1)).
  { apply Hall. unfold magic_entries. apply list_elem_of_fmap.
    exists i1. rewrite E1. split; [reflexivity|]. apply elem_of_seqZ. lia. }
  assert (F2 : full !! magic_hash magic bits o2 = Some (attacks o2)).
  { apply Hall. unfold magic_entries. apply list_elem_of_fmap.
    exists i2. rewrite E2. split; [reflexivity|]. apply elem_of_seqZ. lia. }
  rewrite Hidx in F1. congruence.
Qed.

Lemma forallb_squares (P : Z -> bool) :
  forallb P (seqZ 0 64) = true -> forall sq, 0 <= sq < 64 -> P sq = true.
Proof.
  intros H sq Hsq. rewrite forallb_forall in H. apply H.
  apply list_elem_of_In, elem_of_seqZ. lia.
Qed.

Lemma check_mask_sound (mask : Z) :
  check_mask mask = true -> 0 <= mask /\ CountBits mask < 31.
Proof. unfold check_mask. intros H. apply andb_true_iff in H. lia. Qed.

Lemma InitAttackTables_lookup_witness :
  subset_of 264 (Geometry.MaskRookAttacks 0) /\
  rd (rook_attacks (InitAttackTables no_pawn_attacks no_attacks no_attacks
        Geometry.MaskBishopAttacks Geometry.MaskRookAttacks
        Geometry.BishopAttacksOnTheFly Geometry.RookAttacksOnTheFly
        Geometry.bishop_magic_numbers Geometry.rook_magic_numbers
        Geometry.bishop_relevant_bits Geometry.rook_relevant_bits zero_tables))
     (0, magic_hash (Geometry.rook_magic_numbers 0)
           Geometry.rook_relevant_bits 264)
    = 270.
Proof.
  assert (Hsub : subset_of 264 (Geometry.MaskRookAttacks 0)) by reflexivity.
  split; [exact Hsub|].
  destruct (InitAttackTables_lookup no_pawn_attacks no_attacks no_attacks
        Geometry.MaskBishopAttacks Geometry.MaskRookAttacks
        Geometry.BishopAttacksOnTheFly Geometry.RookAttacksOnTheFly
        Geometry.bishop_magic_numbers Geometry.rook_magic_numbers
        Geometry.bishop_relevant_bits Geometry.rook_relevant_bits zero_tables
        0 264 ltac:(lia)) as [_ Hr].
  rewrite Hr; [reflexivity|vm_compute; discriminate|reflexivity| |exact Hsub].
  apply check_magic_sound; [vm_compute; discriminate|vm_compute; reflexivity].
Defined.

(** X3: with an index of 9 bits for the bishops and 12 bits for the rooks,
    every magic index is inside a row of [bishop_attacks[64][512]] and of
    [rook_attacks[64][4096]], whatever the occupancy and the constant. *)
Theorem magic_hash_in_row (magic occupancy : Z) :
  0 <= magic_hash magic Geometry.bishop_relevant_bits occupancy < 512 /\
  0 <= magic_hash magic Geometry.rook_relevant_bits occupancy < 4096.
Proof.
  unfold magic_hash, wrap64, Geometry.bishop_relevant_bits,
    Geometry.rook_relevant_bits.
  pose proof (Z.mod_pos_bound (occupancy * magic) (2 ^ 64) ltac:(lia)) as Hm.
  rewrite !Z.shiftr_div_pow2 by lia. split; split.
  - apply Z.div_pos; lia.
  - apply Z.div_lt_upper_bound; lia.
  - apply Z.div_pos; lia.
  - apply Z.div_lt_upper_bound; lia.
Qed.

(** * The squares-between table *)

Section LookupTablesStores.
Variable bishop_magic_numbers : Z -> Z.
Variable rook_magic_numbers : Z -> Z.
Variable bishop_relevant_bits : Z.
Variable rook_relevant_bits : Z.
Variable get_file : Z -> Z.
Variable get_rank : Z -> Z.
Variable get_diagonal : Z -> Z.
Variable get_antidiagonal : Z -> Z.

Lemma between_value_same_sliders (t u : AttackTables) (sq1 sq2 : Z) :
  same_sliders t u ->
  between_value bishop_magic_numbers rook_magic_numbers bishop_relevant_bits
    rook_relevant_bits get_file get_rank u sq1 sq2
  = between_value bishop_magic_numbers rook_magic_numbers bishop_relevant_bits
      rook_relevant_bits get_file get_rank t sq1 sq2.
Proof.
  intros (E1 & E2 & E3 & E4).
  unfold between_value, GetRookAttacks, GetBishopAttacks.
  rewrite E1, E2, E3, E4. reflexivity.
Qed.

Lemma squares_between_body_spec (t u : AttackTables) (sq1 sq2 : Z) :
  same_sliders t u ->
  same_sliders t (squares_between_body bishop_magic_numbers rook_magic_numbers
      bishop_relevant_bits rook_relevant_bits get_file get_rank get_diagonal
      get_antidiagonal sq1 sq2 u) /\
  forall k,
    SQUARES_BETWEEN_BB (squares_between_body bishop_magic_numbers
        rook_magic_numbers bishop_relevant_bits rook_relevant_bits get_file
        get_rank get_diagonal get_antidiagonal sq1 sq2 u) !! k =
      if bool_decide (k = (sq1, sq2))
         && on_a_line get_file get_rank get_diagonal get_antidiagonal sq1 sq2
      then Some (between_value bishop_magic_numbers rook_magic_numbers
                   bishop_relevant_bits rook_relevant_bits get_file get_rank
                   t k.1 k.2)
      else SQUARES_BETWEEN_BB u !! k.
Proof.
  intros Hsame.
  pose proof (between_value_same_sliders t u sq1 sq2 Hsame) as Ev.
  unfold squares_between_body, on_a_line.
  destruct ((get_file sq1 =? get_file sq2) || (get_rank sq1 =? get_rank sq2))
    eqn:Erook; cbn [orb].
  - split; [exact Hsame|]. intros k.
    cbn [SQUARES_BETWEEN_BB set_SQUARES_BETWEEN_BB]. rewrite lookup_insert.
    case_decide as Hk; case_bool_decide as Hk'; try congruence; cbn [andb].
    + subst k. cbn [fst snd]. rewrite <- Ev. unfold between_value.
      rewrite Erook. reflexivity.
    + reflexivity.
  - destruct ((get_diagonal sq1 =? get_diagonal sq2)
              || (get_antidiagonal sq1 =? get_antidiagonal sq2)) eqn:Ebishop.
    + split; [exact Hsame|]. intros k.
      cbn [SQUARES_BETWEEN_BB set_SQUARES_BETWEEN_BB]. rewrite lookup_insert.
      case_decide as Hk; case_bool_decide as Hk'; try congruence; cbn [andb].
      * subst k. cbn [fst snd]. rewrite <- Ev. unfold between_value.
        rewrite Erook. reflexivity.
      * reflexivity.
    + split; [exact Hsame|]. intros k.
      rewrite andb_false_r. reflexivity.
Qed.

(** The squares-between table when initializeLookupTables returns. *)
Lemma initializeLookupTables_lookup (t : AttackTables) (sq1 sq2 : Z) :
  SQUARES_BETWEEN_BB (initializeLookupTables bishop_magic_numbers
      rook_magic_numbers bishop_relevant_bits rook_relevant_bits get_file
      get_rank get_diagonal get_antidiagonal t) !! (sq1, sq2) =
    if bool_decide (0 <= sq1 < 64 /\ 0 <= sq2 < 64)
       && on_a_line get_file get_rank get_diagonal get_antidiagonal sq1 sq2
    then Some (between_value bishop_magic_numbers rook_magic_numbers
                 bishop_relevant_bits rook_relevant_bits get_file get_rank
                 t sq1 sq2)
    else SQUARES_BETWEEN_BB t !! (sq1, sq2).
Proof.
  unfold initializeLookupTables.
  set (value := fun (_ : Z) (k : Z * Z) =>
    between_value bishop_magic_numbers rook_magic_numbers bishop_relevant_bits
      rook_relevant_bits get_file get_rank t k.1 k.2).
  set (line := on_a_line get_file get_rank get_diagonal get_antidiagonal).
  set (body := squares_between_body bishop_magic_numbers rook_magic_numbers
      bishop_relevant_bits rook_relevant_bits get_file get_rank get_diagonal
      get_antidiagonal).
  assert (Hrow : forall a u, same_sliders t u ->
    same_sliders t (for_loop 0 64 (fun sq2 => body a sq2) u) /\
    forall k, SQUARES_BETWEEN_BB (for_loop 0 64 (fun sq2 => body a sq2) u) !! k =
      if bool_decide (k.1 = a /\ 0 <= k.2 < 64) && line k.1 k.2
      then Some (value 0 k) else SQUARES_BETWEEN_BB u !! k).
  { intros a u Hu.
    pose proof (for_loop_stores_inv (same_sliders t) SQUARES_BETWEEN_BB
      (fun (b : Z) (k : Z * Z) => bool_decide (k = (a, b)) && line a b)
      value 0 64 (fun sq2 => body a sq2)) as Hst.
    destruct (Hst (fun b v _ Hv => squares_between_body_spec t v a b Hv)
                  (fun _ _ _ _ _ _ _ => eq_refl) u Hu) as [Hinv Hk].
    split; [exact Hinv|]. intros k. destruct (Hk k) as [Hin Hout].
    destruct (bool_decide (k.1 = a /\ 0 <= k.2 < 64) && line k.1 k.2) eqn:E.
    - apply andb_true_iff in E. destruct E as [E1 E2].
      apply bool_decide_eq_true in E1. destruct E1 as [E1 E3].
      apply (Hin k.2 E3). rewrite <- E1, E2, andb_true_r.
      apply bool_decide_eq_true. destruct k; reflexivity.
    - apply Hout. intros b Hb. apply andb_false_iff.
      destruct (decide (k = (a, b))) as [->|Hne].
      + right. cbn [fst snd] in E. apply andb_false_iff in E.
        destruct E as [E|E]; [|exact E].
        apply bool_decide_eq_false in E. lia.
      + left. apply bool_decide_eq_false. exact Hne. }
  pose proof (for_loop_stores_inv (same_sliders t) SQUARES_BETWEEN_BB
    (fun (a : Z) (k : Z * Z) =>
       bool_decide (k.1 = a /\ 0 <= k.2 < 64) && line k.1 k.2)
    value 0 64 (fun sq1 => for_loop 0 64 (fun sq2 => body sq1 sq2))) as Hst.
  destruct (Hst (fun a v _ Hv => Hrow a v Hv) (fun _ _ _ _ _ _ _ => eq_refl) t
              ltac:(repeat split)) as [_ Hk].
  destruct (Hk (sq1, sq2)) as [Hin Hout]. cbn [fst snd] in *.
  destruct (bool_decide (0 <= sq1 < 64 /\ 0 <= sq2 < 64) && line sq1 sq2) eqn:E.
  - apply andb_true_iff in E. destruct E as [E1 E2].
    apply bool_decide_eq_true in E1.
    apply (Hin sq1); [lia|]. rewrite E2, andb_true_r.
    apply bool_decide_eq_true. lia.
  - apply Hout. intros a Ha. apply andb_false_iff.
    apply andb_false_iff in E. destruct E as [E|E]; [|right; exact E].
    left. apply bool_decide_eq_false in E. apply bool_decide_eq_false. lia.
Qed.

End LookupTablesStores.

(** * Lookups in the tables InitAttackTables built *)

Section Lookups.
Variable MaskPawnAttacks : Z -> Z -> Z.
Variable MaskKnightAttacks : Z -> Z.
Variable MaskKingAttacks : Z -> Z.
Variable MaskBishopAttacks : Z -> Z.
Variable MaskRookAttacks : Z -> Z.
Variable BishopAttacksOnTheFly : Z -> Z -> Z.
Variable RookAttacksOnTheFly : Z -> Z -> Z.
Variable bishop_magic_numbers : Z -> Z.
Variable rook_magic_numbers : Z -> Z.
Variable bishop_relevant_bits : Z.
Variable rook_relevant_bits : Z.

Lemma land_subset_of (occ mask : Z) : subset_of (Z.land occ mask) mask.
Proof. unfold subset_of. rewrite <- Z.land_assoc, Z.land_diag. reflexivity. Qed.

Lemma GetRookAttacks_InitAttackTables (t : AttackTables) (sq occ : Z) :
  0 <= sq < 64 ->
  0 <= MaskRookAttacks sq -> CountBits (MaskRookAttacks sq) < 31 ->
  magic_consistent (MaskRookAttacks sq) (RookAttacksOnTheFly sq)
    (rook_magic_numbers sq) rook_relevant_bits ->
  GetRookAttacks rook_magic_numbers rook_relevant_bits
    (InitAttackTables MaskPawnAttacks MaskKnightAttacks MaskKingAttacks
       MaskBishopAttacks MaskRookAttacks BishopAttacksOnTheFly
       RookAttacksOnTheFly bishop_magic_numbers rook_magic_numbers
       bishop_relevant_bits rook_relevant_bits t) sq occ
  = RookAttacksOnTheFly sq (Z.land occ (MaskRookAttacks sq)).
Proof.
  intros Hsq H0 H31 Hok. unfold GetRookAttacks.
  destruct (InitAttackTables_masks MaskPawnAttacks MaskKnightAttacks
              MaskKingAttacks MaskBishopAttacks MaskRookAttacks
              BishopAttacksOnTheFly RookAttacksOnTheFly bishop_magic_numbers
              rook_magic_numbers bishop_relevant_bits rook_relevant_bits t)
    as [_ Hm].
  destruct (Hm sq Hsq) as [_ Emask]. rewrite (rd_Some _ _ _ Emask).
  apply rd_Some. apply InitAttackTables_rook; try assumption.
  apply land_subset_of.
Qed.

Lemma GetBishopAttacks_InitAttackTables (t : AttackTables) (sq occ : Z) :
  0 <= sq < 64 ->
  0 <= MaskBishopAttacks sq -> CountBits (MaskBishopAttacks sq) < 31 ->
  magic_consistent (MaskBishopAttacks sq) (BishopAttacksOnTheFly sq)
    (bishop_magic_numbers sq) bishop_relevant_bits ->
  GetBishopAttacks bishop_magic_numbers bishop_relevant_bits
    (InitAttackTables MaskPawnAttacks MaskKnightAttacks MaskKingAttacks
       MaskBishopAttacks MaskRookAttacks BishopAttacksOnTheFly
       RookAttacksOnTheFly bishop_magic_numbers rook_magic_numbers
       bishop_relevant_bits rook_relevant_bits t) sq occ
  = BishopAttacksOnTheFly sq (Z.land occ (MaskBishopAttacks sq)).
Proof.
  intros Hsq H0 H31 Hok. unfold GetBishopAttacks.
  destruct (InitAttackTables_masks MaskPawnAttacks MaskKnightAttacks
              MaskKingAttacks MaskBishopAttacks MaskRookAttacks
              BishopAttacksOnTheFly RookAttacksOnTheFly bishop_magic_numbers
              rook_magic_numbers bishop_relevant_bits rook_relevant_bits t)
    as [_ Hm].
  destruct (Hm sq Hsq) as [Emask _]. rewrite (rd_Some _ _ _ Emask).
  apply rd_Some. apply InitAttackTables_bishop; try assumption.
  apply land_subset_of.
Qed.

End Lookups.

(** * The squares-between table on the board model *)

Lemma Geometry_rook_mask_facts (sq : Z) :
  0 <= sq < 64 ->
  (0 <= Geometry.MaskRookAttacks sq /\
   CountBits (Geometry.MaskRookAttacks sq) < 31) /\
  Z.land (Z.lor (Z.shiftl 1 sq) (Z.shiftl 1 sq)) (Geometry.MaskRookAttacks sq) = 0 /\
  Geometry.RookAttacksOnTheFly sq 0 <> 0.
Proof.
  intros Hsq.
  pose proof (forallb_squares (fun sq =>
    check_mask (Geometry.MaskRookAttacks sq)
    && (Z.land (Z.lor (Z.shiftl 1 sq) (Z.shiftl 1 sq))
          (Geometry.MaskRookAttacks sq) =? 0)
    && negb (Geometry.RookAttacksOnTheFly sq 0 =? 0))
    ltac:(vm_compute; reflexivity) sq Hsq) as H.
  cbv beta in H. apply andb_true_iff in H. destruct H as [H H3].
  apply andb_true_iff in H. destruct H as [H1 H2].
  split; [apply check_mask_sound, H1|]. split; [apply Z.eqb_eq, H2|].
  apply Z.eqb_neq. apply negb_true_iff in H3. exact H3.
Qed.

Lemma Geometry_bishop_mask_small (sq : Z) :
  0 <= sq < 64 ->
  0 <= Geometry.MaskBishopAttacks sq /\
  CountBits (Geometry.MaskBishopAttacks sq) < 31.
Proof.
  intros Hsq. apply check_mask_sound.
  apply (forallb_squares (fun sq => check_mask (Geometry.MaskBishopAttacks sq)));
    [vm_compute; reflexivity|exact Hsq].
Qed.

(** Ray casting from both ends gives the squares strictly between two
    different squares, and nothing when they share no line. *)
Lemma between_by_rays_correct (sq1 sq2 : Z) :
  0 <= sq1 < 64 -> 0 <= sq2 < 64 -> sq1 <> sq2 ->
  between_by_rays sq1 sq2 = squares_strictly_between sq1 sq2.
Proof.
  intros H1 H2 Hne.
  pose proof (forallb_squares (fun a => forallb (fun b =>
      (a =? b) || (between_by_rays a b =? squares_strictly_between a b))
      (seqZ 0 64)) ltac:(vm_compute; reflexivity) sq1 H1) as H.
  cbv beta in H.
  pose proof (forallb_squares _ H sq2 H2) as H'. cbv beta in H'.
  apply orb_true_iff in H'. destruct H' as [E|E].
  - apply Z.eqb_eq in E. contradiction.
  - apply Z.eqb_eq, E.
Qed.

Section LookupTablesClaims.
Variable MaskPawnAttacks : Z -> Z -> Z.
Variable MaskKnightAttacks : Z -> Z.
Variable MaskKingAttacks : Z -> Z.
Variable bishop_magic_numbers : Z -> Z.
Variable rook_magic_numbers : Z -> Z.
Variable bishop_relevant_bits : Z.
Variable rook_relevant_bits : Z.
Variable get_file : Z -> Z.
Variable get_rank : Z -> Z.
Variable get_diagonal : Z -> Z.
Variable get_antidiagonal : Z -> Z.

(** C3 at a pair of equal squares: initializeLookupTables stores there the
    attack set of a rook on that square of the empty board, which is not
    empty, whatever the line tables are. *)
Theorem squares_between_same_square (sq : Z) :
  0 <= sq < 64 ->
  magic_consistent (Geometry.MaskRookAttacks sq) (Geometry.RookAttacksOnTheFly sq)
    (rook_magic_numbers sq) rook_relevant_bits ->
  rd (SQUARES_BETWEEN_BB
        (initializeLookupTables bishop_magic_numbers rook_magic_numbers
           bishop_relevant_bits rook_relevant_bits get_file get_rank
           get_diagonal get_antidiagonal
           (InitAttackTables MaskPawnAttacks MaskKnightAttacks MaskKingAttacks
              Geometry.MaskBishopAttacks Geometry.MaskRookAttacks
              Geometry.BishopAttacksOnTheFly Geometry.RookAttacksOnTheFly
              bishop_magic_numbers rook_magic_numbers bishop_relevant_bits
              rook_relevant_bits zero_tables)))
     (sq, sq)
    = Geometry.RookAttacksOnTheFly sq 0 /\
  Geometry.RookAttacksOnTheFly sq 0 <> 0.
Proof.
  intros Hsq Hok.
  destruct (Geometry_rook_mask_facts sq Hsq) as ([H0 H31] & Hown & Hnz).
  split; [|exact Hnz]. apply rd_Some.
  rewrite initializeLookupTables_lookup.
  rewrite bool_decide_eq_true_2 by lia.
  unfold on_a_line, between_value. rewrite !Z.eqb_refl. cbn [orb andb].
  rewrite Z.land_diag.
  rewrite GetRookAttacks_InitAttackTables by assumption.
  rewrite Hown. reflexivity.
Qed.

(** X1: the squares-between table at two different squares: the squares strictly
    between them when they share a rank, a file or a diagonal, and 0
    otherwise. *)
Theorem squares_between_distinct_squares (sq1 sq2 : Z) :
  0 <= sq1 < 64 -> 0 <= sq2 < 64 -> sq1 <> sq2 ->
  (forall sq, sq = sq1 \/ sq = sq2 ->
     magic_consistent (Geometry.MaskBishopAttacks sq)
       (Geometry.BishopAttacksOnTheFly sq) (bishop_magic_numbers sq)
       bishop_relevant_bits /\
     magic_consistent (Geometry.MaskRookAttacks sq)
       (Geometry.RookAttacksOnTheFly sq) (rook_magic_numbers sq)
       rook_relevant_bits) ->
  rd (SQUARES_BETWEEN_BB
        (initializeLookupTables bishop_magic_numbers rook_magic_numbers
           bishop_relevant_bits rook_relevant_bits Geometry.get_file
           Geometry.get_rank Geometry.get_diagonal Geometry.get_antidiagonal
           (InitAttackTables MaskPawnAttacks MaskKnightAttacks MaskKingAttacks
              Geometry.MaskBishopAttacks Geometry.MaskRookAttacks
              Geometry.BishopAttacksOnTheFly Geometry.RookAttacksOnTheFly
              bishop_magic_numbers rook_magic_numbers bishop_relevant_bits
              rook_relevant_bits zero_tables)))
     (sq1, sq2)
    = squares_strictly_between sq1 sq2.
Proof.
  intros H1 H2 Hne Hok.
  rewrite <- (between_by_rays_correct sq1 sq2 H1 H2 Hne).
  destruct (Hok sq1 (or_introl eq_refl)) as [HB1 HR1].
  destruct (Hok sq2 (or_intror eq_refl)) as [HB2 HR2].
  destruct (Geometry_rook_mask_facts sq1 H1) as ([R10 R131] & _).
  destruct (Geometry_rook_mask_facts sq2 H2) as ([R20 R231] & _).
  destruct (Geometry_bishop_mask_small sq1 H1) as [B10 B131].
  destruct (Geometry_bishop_mask_small sq2 H2) as [B20 B231].
  unfold rd. rewrite initializeLookupTables_lookup.
  rewrite bool_decide_eq_true_2 by lia. cbn [andb].
  unfold on_a_line, between_value, between_by_rays.
  destruct ((Geometry.get_file sq1 =? Geometry.get_file sq2)
            || (Geometry.get_rank sq1 =? Geometry.get_rank sq2)) eqn:Erook;
    cbn [orb].
  - rewrite !GetRookAttacks_InitAttackTables by assumption. reflexivity.
  - destruct ((Geometry.get_diagonal sq1 =? Geometry.get_diagonal sq2)
              || (Geometry.get_antidiagonal sq1 =? Geometry.get_antidiagonal sq2))
      eqn:Ebishop.
    + rewrite !GetBishopAttacks_InitAttackTables by assumption. reflexivity.
    + destruct (InitAttackTables_masks MaskPawnAttacks MaskKnightAttacks
                  MaskKingAttacks Geometry.MaskBishopAttacks
                  Geometry.MaskRookAttacks Geometry.BishopAttacksOnTheFly
                  Geometry.RookAttacksOnTheFly bishop_magic_numbers
                  rook_magic_numbers bishop_relevant_bits rook_relevant_bits
                  zero_tables) as [E _].
      rewrite E. reflexivity.
Qed.

End LookupTablesClaims.

Lemma squares_between_same_square_witness :
  rd (SQUARES_BETWEEN_BB
        (initializeLookupTables Geometry.bishop_magic_numbers
           Geometry.rook_magic_numbers Geometry.bishop_relevant_bits
           Geometry.rook_relevant_bits Geometry.get_file Geometry.get_rank
           Geometry.get_diagonal Geometry.get_antidiagonal
           (InitAttackTables no_pawn_attacks no_attacks no_attacks
              Geometry.MaskBishopAttacks Geometry.MaskRookAttacks
              Geometry.BishopAttacksOnTheFly Geometry.RookAttacksOnTheFly
              Geometry.bishop_magic_numbers Geometry.rook_magic_numbers
              Geometry.bishop_relevant_bits Geometry.rook_relevant_bits
              zero_tables)))
     (0, 0)
    = 72340172838076926.
Proof.
  destruct (squares_between_same_square no_pawn_attacks no_attacks no_attacks
              Geometry.bishop_magic_numbers Geometry.rook_magic_numbers
              Geometry.bishop_relevant_bits Geometry.rook_relevant_bits
              Geometry.get_file Geometry.get_rank Geometry.get_diagonal
              Geometry.get_antidiagonal 0 ltac:(lia)) as [E _].
  - apply check_magic_sound; [vm_compute; discriminate|vm_compute; reflexivity].
  - rewrite E. reflexivity.
Defined.

Lemma squares_between_distinct_squares_witness :
  rd (SQUARES_BETWEEN_BB
        (initializeLookupTables Geometry.bishop_magic_numbers
           Geometry.rook_magic_numbers Geometry.bishop_relevant_bits
           Geometry.rook_relevant_bits Geometry.get_file Geometry.get_rank
           Geometry.get_diagonal Geometry.get_antidiagonal
           (InitAttackTables no_pawn_attacks no_attacks no_attacks
              Geometry.MaskBishopAttacks Geometry.MaskRookAttacks
              Geometry.BishopAttacksOnTheFly Geometry.RookAttacksOnTheFly
              Geometry.bishop_magic_numbers Geometry.rook_magic_numbers
              Geometry.bishop_relevant_bits Geometry.rook_relevant_bits
              zero_tables)))
     (0, 27)
    = 262656.
Proof.
  rewrite (squares_between_distinct_squares no_pawn_attacks no_attacks
             no_attacks Geometry.bishop_magic_numbers
             Geometry.rook_magic_numbers Geometry.bishop_relevant_bits
             Geometry.rook_relevant_bits 0 27 ltac:(lia) ltac:(lia) ltac:(lia)).
  - reflexivity.
  - intros sq [-> | ->]; split; apply check_magic_sound;
      try (vm_compute; discriminate); vm_compute; reflexivity.
Defined.

(** * Properties of GetTimeMs *)

Lemma wrap32_range (z : Z) : - 2 ^ 31 <= wrap32 z < 2 ^ 31.
Proof. unfold wrap32. pose proof (Z.mod_pos_bound (z + 2 ^ 31) (2 ^ 32)). lia. Qed.

Lemma wrap32_eq_iff (z : Z) : wrap32 z = z <-> - 2 ^ 31 <= z < 2 ^ 31.
Proof.
  split.
  - intros E. rewrite <- E. apply wrap32_range.
  - intros H. unfold wrap32. rewrite Z.mod_small; lia.
Qed.

(** Numbers that differ by a multiple of 2^32 are the same [int]. *)
Lemma wrap32_congr (a b k : Z) : a = b + k * 2 ^ 32 -> wrap32 a = wrap32 b.
Proof.
  intros ->. unfold wrap32.
  replace (b + k * 2 ^ 32 + 2 ^ 31) with (b + 2 ^ 31 + k * 2 ^ 32) by lia.
  rewrite Z.mod_add by lia. reflexivity.
Qed.

Lemma wrap32_multiple (z : Z) : exists k : Z, wrap32 z = z + k * 2 ^ 32.
Proof.
  exists (- ((z + 2 ^ 31) / 2 ^ 32)). unfold wrap32.
  rewrite Z.mod_eq by lia. lia.
Qed.

Lemma wrap_long_multiple (z : Z) : exists k : Z, wrap_long z = z + k * 2 ^ 64.
Proof.
  exists (- ((z + 2 ^ 63) / 2 ^ 64)). unfold wrap_long.
  rewrite Z.mod_eq by lia. lia.
Qed.

(** The [long] arithmetic leaves no trace in the [int] returned. *)
Lemma GetTimeMs_wrap32 (t : timeval) :
  GetTimeMs t = wrap32 (tv_sec t * 1000 + Z.quot (tv_usec t) 1000).
Proof.
  unfold GetTimeMs.
  destruct (wrap_long_multiple (tv_sec t * 1000)) as [k1 ->].
  destruct (wrap_long_multiple (tv_sec t * 1000 + k1 * 2 ^ 64
                                + Z.quot (tv_usec t) 1000)) as [k2 ->].
  apply (wrap32_congr _ _ ((k1 + k2) * 2 ^ 32)). lia.
Qed.

Lemma GetTimeMs_milliseconds (t : timeval) :
  valid_time t -> GetTimeMs t = wrap32 (milliseconds t).
Proof.
  intros (_ & _ & Hu). rewrite GetTimeMs_wrap32. unfold milliseconds.
  rewrite Z.quot_div_nonneg by lia. reflexivity.
Qed.

Lemma milliseconds_range (t : timeval) :
  valid_time t -> 0 <= milliseconds t < 2 ^ 63.
Proof.
  intros (Hs & Hl & Hu). unfold milliseconds.
  assert (0 <= tv_usec t / 1000 < 1000).
  { split; [apply Z.div_pos; lia|apply Z.div_lt_upper_bound; lia]. }
  lia.
Qed.

Lemma wrap_long_small (z : Z) : - 2 ^ 63 <= z < 2 ^ 63 -> wrap_long z = z.
Proof. intros H. unfold wrap_long. rewrite Z.mod_small; lia. Qed.

(** At a valid time the [long] arithmetic does not overflow. *)
Lemma GetTimeMs_long (t : timeval) :
  valid_time t ->
  wrap_long (wrap_long (tv_sec t * 1000) + Z.quot (tv_usec t) 1000)
  = milliseconds t.
Proof.
  intros Ht. pose proof (milliseconds_range t Ht) as Hr.
  destruct Ht as (Hs & Hl & Hu). unfold milliseconds in *.
  rewrite Z.quot_div_nonneg by lia.
  assert (0 <= tv_usec t / 1000) by (apply Z.div_pos; lia).
  rewrite (wrap_long_small (tv_sec t * 1000)) by lia.
  apply wrap_long_small. lia.
Qed.

(** X5: the sum GetTimeMs computes on [long] is the milliseconds since the
    epoch, but the [int] it returns is that number exactly when it is below
    2^31, that is during the first 24.8 days after the epoch; at any later
    time it returns another number. *)
Theorem GetTimeMs_exact_iff (t : timeval) :
  valid_time t ->
  wrap_long (wrap_long (tv_sec t * 1000) + Z.quot (tv_usec t) 1000)
    = milliseconds t /\
  GetTimeMs t = wrap32 (milliseconds t) /\
  (GetTimeMs t = milliseconds t <-> milliseconds t < 2 ^ 31).
Proof.
  intros Ht. pose proof (milliseconds_range t Ht) as H0.
  split; [apply GetTimeMs_long, Ht|].
  rewrite (GetTimeMs_milliseconds t Ht). split; [reflexivity|].
  rewrite wrap32_eq_iff. lia.
Qed.

(** X6: the time between two readings of the clock that are less than 2^31
    milliseconds apart is the difference of what GetTimeMs returned, taken
    as an [int]; the plain difference is that time when the second value is
    not below the first, and 2^32 less when it is (the value wrapped in
    between). *)
Theorem GetTimeMs_elapsed (t1 t2 : timeval) :
  valid_time t1 -> valid_time t2 ->
  0 <= milliseconds t2 - milliseconds t1 < 2 ^ 31 ->
  wrap32 (GetTimeMs t2 - GetTimeMs t1) = milliseconds t2 - milliseconds t1 /\
  (GetTimeMs t1 <= GetTimeMs t2 ->
   GetTimeMs t2 - GetTimeMs t1 = milliseconds t2 - milliseconds t1) /\
  (GetTimeMs t2 < GetTimeMs t1 ->
   GetTimeMs t2 - GetTimeMs t1 = milliseconds t2 - milliseconds t1 - 2 ^ 32).
Proof.
  intros H1 H2 Hd.
  rewrite (GetTimeMs_milliseconds t1 H1), (GetTimeMs_milliseconds t2 H2).
  pose proof (wrap32_range (milliseconds t1)) as R1.
  pose proof (wrap32_range (milliseconds t2)) as R2.
  destruct (wrap32_multiple (milliseconds t1)) as [k1 E1].
  destruct (wrap32_multiple (milliseconds t2)) as [k2 E2].
  split; [|split].
  - rewrite (wrap32_congr _ (milliseconds t2 - milliseconds t1) (k2 - k1))
      by lia.
    apply wrap32_eq_iff. lia.
  - intros Hle. lia.
  - intros Hlt. lia.
Qed.

Lemma GetTimeMs_exact_iff_witness :
  GetTimeMs {| tv_sec := 2147483; tv_usec := 646999 |} = 2147483646.
Proof.
  destruct (GetTimeMs_exact_iff {| tv_sec := 2147483; tv_usec := 646999 |})
    as (_ & _ & _ & H).
  - unfold valid_time. simpl. lia.
  - rewrite H; [reflexivity|]. vm_compute. reflexivity.
Defined.

Lemma GetTimeMs_elapsed_witness :
  GetTimeMs {| tv_sec := 2147483; tv_usec := 648000 |}
  - GetTimeMs {| tv_sec := 2147483; tv_usec := 647000 |} = 1 - 2 ^ 32.
Proof.
  destruct (GetTimeMs_elapsed {| tv_sec := 2147483; tv_usec := 647000 |}
              {| tv_sec := 2147483; tv_usec := 648000 |}) as (_ & _ & H).
  - unfold valid_time. simpl. lia.
  - unfold valid_time. simpl. lia.
  - vm_compute. split; [discriminate|reflexivity].
  - rewrite H; [reflexivity|]. vm_compute. reflexivity.
Defined.

(** * Properties of getfield *)

Lemma semicolon_not_NUL : ";"%char <> NUL.
Proof. discriminate. Qed.

Lemma in_delimiters (c : ascii) : c ∈ [";"%char] <-> c = ";"%char.
Proof. apply list_elem_of_singleton. Qed.

(** ** Strings *)

Lemma c_string_app (x y : list ascii) :
  Forall (fun c => c <> NUL) x -> c_string (x ++ y) = x ++ c_string y.
Proof.
  induction 1 as [|c x Hc _ IH]; [reflexivity|]. simpl.
  rewrite bool_decide_eq_false_2 by exact Hc. rewrite IH. reflexivity.
Qed.

Lemma c_string_no_NUL (s : list ascii) : Forall (fun c => c <> NUL) (c_string s).
Proof.
  induction s as [|c s IH]; simpl; [constructor|].
  case_bool_decide; [constructor|]. constructor; assumption.
Qed.

Lemma c_string_length (s : list ascii) : (length (c_string s) <= length s)%nat.
Proof.
  induction s as [|c s IH]; simpl; [lia|]. case_bool_decide; simpl; lia.
Qed.

Lemma c_string_idemp (s : list ascii) : c_string (c_string s) = c_string s.
Proof.
  rewrite <- (app_nil_r (c_string s)) at 1.
  rewrite c_string_app by apply c_string_no_NUL. apply app_nil_r.
Qed.

(** A terminator written after the end of a string does not change it. *)
Lemma c_string_insert_after (s : list ascii) (e : nat) :
  (length (c_string s) < e)%nat -> c_string (<[e := NUL]> s) = c_string s.
Proof.
  revert e. induction s as [|c s IH]; intros e He; [reflexivity|].
  destruct e as [|e]; [lia|]. simpl in *.
  case_bool_decide; [reflexivity|]. simpl in He. rewrite IH by lia. reflexivity.
Qed.

(** ** Fields *)

Lemma fields_from_run (f s cur : list ascii) :
  Forall (fun c => c <> ";"%char) f ->
  fields_from (f ++ s) cur = fields_from s (cur ++ f).
Proof.
  intros Hf. revert cur. induction Hf as [|c f Hc _ IH]; intros cur.
  - rewrite app_nil_r. reflexivity.
  - simpl. rewrite bool_decide_eq_false_2 by exact Hc. rewrite IH.
    rewrite <- app_assoc. reflexivity.
Qed.

Lemma fields_delimiters (n : nat) (s : list ascii) :
  fields (replicate n ";"%char ++ s) = fields s.
Proof. induction n as [|n IH]; [reflexivity|]. exact IH. Qed.

Lemma fields_token (f s : list ascii) :
  f <> [] -> Forall (fun c => c <> ";"%char) f ->
  fields (f ++ ";"%char :: s) = f :: fields s.
Proof.
  intros Hne Hf. unfold fields. rewrite fields_from_run by exact Hf. simpl.
  destruct f; [contradiction|reflexivity].
Qed.

Lemma fields_last (f : list ascii) :
  f <> [] -> Forall (fun c => c <> ";"%char) f -> fields f = [f].
Proof.
  intros Hne Hf. unfold fields. rewrite <- (app_nil_r f) at 1.
  rewrite fields_from_run by exact Hf. simpl.
  destruct f; [contradiction|reflexivity].
Qed.

Lemma fields_from_length (s cur : list ascii) :
  (length (fields_from s cur) <= length s + length (close_field cur))%nat.
Proof.
  revert cur. induction s as [|c s IH]; intros cur; simpl; [lia|].
  case_bool_decide.
  - rewrite length_app. specialize (IH []). simpl in IH. lia.
  - specialize (IH (cur ++ [c])). destruct cur; simpl in *; lia.
Qed.

Lemma fields_length (s : list ascii) : (length (fields s) <= length s)%nat.
Proof. pose proof (fields_from_length s []). simpl in *. unfold fields. lia. Qed.

(** A field is not empty and holds no [;]. *)
Lemma fields_from_Forall (s cur : list ascii) :
  Forall (fun c => c <> ";"%char) cur ->
  Forall (fun f => f <> [] /\ Forall (fun c => c <> ";"%char) f)
    (fields_from s cur).
Proof.
  revert cur. induction s as [|c s IH]; intros cur Hcur; simpl.
  - destruct cur; constructor; [|constructor]. split; [discriminate|exact Hcur].
  - case_bool_decide.
    + apply Forall_app. split; [|apply IH; constructor].
      destruct cur; constructor; [|constructor].
      split; [discriminate|exact Hcur].
    + apply IH. apply Forall_app. split; [exact Hcur|]. repeat constructor.
      assumption.
Qed.

(** ** The scans of strtok *)

Lemma strspn_split (l : list ascii) :
  l = replicate (strspn l [";"%char]) ";"%char ++ drop (strspn l [";"%char]) l /\
  forall c, head (drop (strspn l [";"%char]) l) = Some c ->
            c = NUL \/ c <> ";"%char.
Proof.
  induction l as [|c l [E1 E2]]; simpl.
  - split; [reflexivity|]. intros c. discriminate.
  - case_bool_decide as H.
    + destruct H as [_ Hin]. apply in_delimiters in Hin. subst c. simpl.
      split; [f_equal; exact E1|exact E2].
    + simpl. split; [reflexivity|]. intros c' [= ->].
      destruct (decide (c' = NUL)) as [|Hn]; [left; assumption|right].
      intros ->. apply H. split; [exact Hn|]. apply in_delimiters. reflexivity.
Qed.

Lemma strcspn_split (l : list ascii) :
  Forall (fun c => c <> NUL /\ c <> ";"%char) (take (strcspn l [";"%char]) l) /\
  forall c, head (drop (strcspn l [";"%char]) l) = Some c ->
            c = NUL \/ c = ";"%char.
Proof.
  induction l as [|c l [E1 E2]]; simpl.
  - split; [constructor|]. intros c. discriminate.
  - case_bool_decide as H.
    + destruct H as [Hn Hin]. simpl. split; [|exact E2].
      constructor; [|exact E1]. split; [exact Hn|]. intros ->. apply Hin.
      apply in_delimiters. reflexivity.
    + simpl. split; [constructor|]. intros c' [= ->].
      destruct (decide (c' = NUL)) as [|Hn]; [left; assumption|right].
      destruct (decide (c' = ";"%char)) as [|Hd]; [assumption|].
      exfalso. apply H. split; [exact Hn|]. rewrite in_delimiters. exact Hd.
Qed.

Lemma char_at_drop (memory : list ascii) (p n : nat) :
  char_at memory (p + n) = default NUL (head (drop n (drop p memory))).
Proof.
  unfold char_at. rewrite drop_drop, head_lookup, lookup_drop, Nat.add_0_r.
  reflexivity.
Qed.

Lemma c_string_NUL (l : list ascii) : c_string (NUL :: l) = [].
Proof. reflexivity. Qed.

Lemma c_string_semicolon (l : list ascii) :
  c_string (";"%char :: l) = ";"%char :: c_string l.
Proof. reflexivity. Qed.

Lemma head_default_NUL (l : list ascii) :
  default NUL (head l) = NUL -> c_string l = [].
Proof.
  destruct l as [|c l]; [reflexivity|]. simpl. intros ->.
  rewrite bool_decide_eq_true_2 by reflexivity. reflexivity.
Qed.

Lemma replicate_no_NUL (n : nat) :
  Forall (fun c => c <> NUL) (replicate n ";"%char).
Proof. apply Forall_replicate. discriminate. Qed.

(** What one call of strtok finds in the string [l] it starts at: no field;
    or a last field, which ends with the string; or a field that ends at a
    delimiter, which it overwrites. *)
Lemma strtok_suffix (l : list ascii) :
  let n := strspn l [";"%char] in
  let l1 := drop n l in
  let k := strcspn l1 [";"%char] in
  let f := take k l1 in
  (default NUL (head l1) = NUL /\ fields (c_string l) = []) \/
  (default NUL (head l1) <> NUL /\ default NUL (head (drop k l1)) = NUL /\
   f <> [] /\ c_string l1 = f /\ fields (c_string l) = [f]) \/
  (default NUL (head l1) <> NUL /\ default NUL (head (drop k l1)) <> NUL /\
   f <> [] /\ (n + k < length l)%nat /\
   c_string (<[k := NUL]> l1) = f /\
   fields (c_string l) = f :: fields (c_string (drop (S k) l1)) /\
   c_string (<[(n + k)%nat := NUL]> l) = replicate n ";"%char ++ f /\
   fields (c_string (<[(n + k)%nat := NUL]> l)) = [f]).
Proof.
  intros n l1 k f.
  destruct (strspn_split l) as [El Hhead]. fold n in El, Hhead. fold l1 in El, Hhead.
  destruct (strcspn_split l1) as [Hf Hend]. fold k in Hf, Hend. fold f in Hf.
  assert (Hf1 : Forall (fun c => c <> NUL) f)
    by (eapply Forall_impl; [exact Hf|]; simpl; tauto).
  assert (Hf2 : Forall (fun c => c <> ";"%char) f)
    by (eapply Forall_impl; [exact Hf|]; simpl; tauto).
  assert (El1 : l1 = f ++ drop k l1) by (symmetry; apply take_drop).
  destruct (decide (default NUL (head l1) = NUL)) as [E1|E1].
  { left. split; [exact E1|]. rewrite El.
    rewrite c_string_app by apply replicate_no_NUL.
    rewrite fields_delimiters. rewrite (head_default_NUL _ E1). reflexivity. }
  right.
  assert (Hne : f <> []).
  { unfold f, k. destruct l1 as [|c l1']; [contradiction|]. simpl in *.
    destruct (Hhead c eq_refl) as [-> | Hc]; [contradiction|].
    rewrite bool_decide_eq_true_2; [discriminate|].
    split; [exact E1|]. rewrite in_delimiters. exact Hc. }
  destruct (decide (default NUL (head (drop k l1)) = NUL)) as [E2|E2].
  { left. split; [exact E1|]. split; [exact E2|]. split; [exact Hne|].
    assert (Ec : c_string l1 = f).
    { rewrite El1, c_string_app by exact Hf1.
      rewrite (head_default_NUL _ E2). apply app_nil_r. }
    split; [exact Ec|]. rewrite El.
    rewrite c_string_app by apply replicate_no_NUL.
    rewrite fields_delimiters, Ec. apply fields_last; assumption. }
  right. split; [exact E1|]. split; [exact E2|]. split; [exact Hne|].
  destruct (drop k l1) as [|c2 l3] eqn:E3; [contradiction|]. simpl in E2.
  destruct (Hend c2 eq_refl) as [-> | ->]; [contradiction|].
  assert (Hk : length f = k).
  { unfold f. rewrite length_take. apply Nat.min_l.
    pose proof (f_equal length E3) as HL. rewrite length_drop in HL.
    simpl in HL. lia. }
  assert (El3 : drop (S k) l1 = l3).
  { rewrite El1 at 1. replace (S k) with (length f + 1)%nat by lia.
    rewrite drop_app_add. reflexivity. }
  assert (Ei1 : <[k := NUL]> l1 = f ++ NUL :: l3).
  { rewrite El1 at 1. rewrite <- Hk at 1.
    replace (length f) with (length f + 0)%nat by lia.
    rewrite insert_app_r. reflexivity. }
  assert (Ei : <[(n + k)%nat := NUL]> l = replicate n ";"%char ++ f ++ NUL :: l3).
  { rewrite El at 1. rewrite <- (length_replicate n ";"%char) at 1.
    rewrite insert_app_r. rewrite Ei1. reflexivity. }
  split.
  { rewrite El, length_app, length_replicate, El1, length_app. simpl. lia. }
  split.
  { rewrite Ei1, c_string_app by exact Hf1. rewrite c_string_NUL.
    apply app_nil_r. }
  split.
  { rewrite El3. rewrite El at 1. rewrite c_string_app by apply replicate_no_NUL.
    rewrite fields_delimiters. rewrite El1, c_string_app by exact Hf1.
    rewrite c_string_semicolon. apply fields_token; assumption. }
  assert (Ec : c_string (<[(n + k)%nat := NUL]> l) = replicate n ";"%char ++ f).
  { rewrite Ei. rewrite c_string_app by apply replicate_no_NUL.
    rewrite c_string_app by exact Hf1. rewrite c_string_NUL, app_nil_r.
    reflexivity. }
  split; [exact Ec|]. rewrite Ec, fields_delimiters.
  apply fields_last; assumption.
Qed.

(** ** One call of strtok *)

(** A call of strtok that starts at [p]: it returns NULL when no field is
    pending there, and else the first pending field, whose text the memory
    then holds at the pointer returned; the later fields stay pending. *)
Lemma strtok_spec (s : option nat) (m : list ascii * nat) :
  let p := default m.2 s in
  let r := strtok s [";"%char] m in
  length r.2.1 = length m.1 /\ (p <= r.2.2)%nat /\
  ((r.1 = None /\ r.2.1 = m.1 /\ pending (m.1, p) = [] /\ pending r.2 = []) \/
   (exists q f,
      r.1 = Some q /\ char_at r.2.1 q <> NUL /\ c_string (drop q r.2.1) = f /\
      pending (m.1, p) = f :: pending r.2 /\
      fields (c_string (drop p r.2.1)) = [f] /\
      ((r.2.1 = m.1 /\ pending r.2 = []) \/
       (exists e, (p <= e)%nat /\ r.2.1 = <[e := NUL]> m.1 /\
          (p + length (c_string (drop p r.2.1)) < r.2.2)%nat)))).
Proof.
  destruct m as [buf olds]. intros p r. cbn [fst snd] in p.
  pose proof (strtok_suffix (drop p buf)) as H. cbv zeta in H.
  unfold r, strtok. cbn [fst snd]. fold p.
  set (n := strspn (drop p buf) [";"%char]) in *.
  assert (E1 : drop (p + n) buf = drop n (drop p buf)) by (rewrite drop_drop; reflexivity).
  rewrite E1.
  set (l1 := drop n (drop p buf)) in *.
  set (k := strcspn l1 [";"%char]) in *.
  assert (C1 : char_at buf (p + n) = default NUL (head l1)) by apply char_at_drop.
  assert (C2 : char_at buf (p + n + k) = default NUL (head (drop k l1))).
  { rewrite char_at_drop, E1. reflexivity. }
  rewrite C1, C2.
  destruct H as [[H1 H2] | [(H1 & H2 & Hne & Hc & Hf) |
                            (H1 & H2 & Hne & Hlt & Hc & Hf & Hc' & Hf')]].
  - rewrite bool_decide_eq_true_2 by exact H1. cbn [fst snd].
    split; [reflexivity|]. split; [lia|]. left.
    split; [reflexivity|]. split; [reflexivity|]. split; [exact H2|].
    unfold pending. cbn [fst snd]. rewrite E1. fold l1.
    rewrite (head_default_NUL _ H1). reflexivity.
  - rewrite bool_decide_eq_false_2 by exact H1.
    rewrite bool_decide_eq_true_2 by exact H2. cbn [fst snd].
    split; [reflexivity|]. split; [lia|]. right.
    exists (p + n)%nat, (take k l1).
    assert (Hp : pending (buf, (p + n + k)%nat) = []).
    { unfold pending. cbn [fst snd].
      replace (drop (p + n + k) buf) with (drop k l1)
        by (unfold l1; rewrite !drop_drop; f_equal; lia).
      rewrite (head_default_NUL _ H2). reflexivity. }
    split; [reflexivity|]. split; [rewrite C1; exact H1|].
    split; [rewrite E1; exact Hc|]. split; [rewrite Hp; exact Hf|].
    split; [exact Hf|]. left. split; [reflexivity|exact Hp].
  - rewrite bool_decide_eq_false_2 by exact H1.
    rewrite bool_decide_eq_false_2 by exact H2. cbn [fst snd].
    assert (Hk : k <> O) by (intros E; apply Hne; rewrite E; reflexivity).
    assert (D1 : drop (p + n) (<[(p + n + k)%nat := NUL]> buf) = <[k := NUL]> l1).
    { rewrite drop_insert_ge by lia. rewrite E1.
      replace (p + n + k - (p + n))%nat with k by lia. reflexivity. }
    assert (D2 : drop (S (p + n + k)) (<[(p + n + k)%nat := NUL]> buf)
                 = drop (S k) l1).
    { rewrite drop_insert_lt by lia. unfold l1. rewrite !drop_drop.
      f_equal. lia. }
    assert (D3 : drop p (<[(p + n + k)%nat := NUL]> buf)
                 = <[(n + k)%nat := NUL]> (drop p buf)).
    { rewrite drop_insert_ge by lia. f_equal. lia. }
    split; [apply length_insert|]. split; [lia|]. right.
    exists (p + n)%nat, (take k l1).
    split; [reflexivity|]. split.
    { unfold char_at. rewrite list_lookup_insert_ne by lia.
      fold (char_at buf (p + n)). rewrite C1. exact H1. }
    split; [rewrite D1; exact Hc|].
    split; [unfold pending at 2; cbn [fst snd]; rewrite D2; exact Hf|].
    split; [rewrite D3; exact Hf'|]. right.
    exists (p + n + k)%nat. split; [lia|]. split; [reflexivity|].
    rewrite D3, Hc', length_app, length_replicate, length_take. lia.
Qed.

(** ** The loop *)

Lemma wrap32_0_iff (x : Z) : wrap32 x = 0 <-> x mod 2 ^ 32 = 0.
Proof.
  unfold wrap32.
  pose proof (Z.mod_pos_bound x (2 ^ 32) ltac:(lia)) as Hx.
  pose proof (Z.mod_pos_bound (x + 2 ^ 31) (2 ^ 32) ltac:(lia)) as Hy.
  pose proof (Z.div_mod x (2 ^ 32) ltac:(lia)) as Ex.
  pose proof (Z.div_mod (x + 2 ^ 31) (2 ^ 32) ltac:(lia)) as Ey.
  lia.
Qed.

Lemma wrap32_pred_mod (x : Z) :
  x mod 2 ^ 32 <> 0 -> (wrap32 x - 1) mod 2 ^ 32 = x mod 2 ^ 32 - 1.
Proof.
  intros Hx. destruct (wrap32_multiple x) as [k ->].
  replace (x + k * 2 ^ 32 - 1) with (x - 1 + k * 2 ^ 32) by lia.
  rewrite Z.mod_add by lia.
  pose proof (Z.mod_pos_bound x (2 ^ 32) ltac:(lia)) as Hb.
  pose proof (Z.div_mod x (2 ^ 32) ltac:(lia)) as Ex.
  symmetry. apply (Z.mod_unique_pos _ _ (x / 2 ^ 32)); lia.
Qed.

(** The loop returns the field whose number, counted from the token at hand,
    is [num] as an unsigned number, if there is one, and NULL if not; it
    leaves the string at the start of the memory as it is once a terminator
    stands before the saved pointer. *)
Lemma getfield_loop_spec (fuel : nat) :
  forall (tok : option nat) (num : Z) (m : list ascii * nat)
         (toks : list (list ascii)),
    match tok with
    | Some q => char_at m.1 q <> NUL /\ toks = c_string (drop q m.1) :: pending m
    | None => toks = []
    end ->
    (length (pending m) < fuel)%nat \/ tok = None ->
    (length (c_string m.1) < m.2)%nat \/ pending m = [] ->
    exists (r : option nat) (memory : list ascii),
      getfield_loop fuel tok num m = Some (r, memory) /\
      (fun p : nat => c_string (drop p memory)) <$> r
        = toks !! Z.to_nat ((num - 1) mod 2 ^ 32) /\
      length memory = length m.1 /\ c_string memory = c_string m.1.
Proof.
  induction fuel as [|fuel IH]; intros tok num [buf olds] toks Htok Hfuel HJ;
    cbn [fst snd] in *.
  - destruct tok as [q|].
    + destruct Htok as [Hq ->]. cbn [getfield_loop fst snd].
      rewrite bool_decide_eq_false_2 by exact Hq.
      destruct (wrap32 (num - 1) =? 0) eqn:E.
      * apply Z.eqb_eq, wrap32_0_iff in E. rewrite E.
        exists (Some q), buf. repeat split.
      * destruct Hfuel as [Hfuel|Hfuel]; [lia|discriminate].
    + subst toks. exists None, buf. repeat split.
  - destruct tok as [q|].
    2:{ subst toks. exists None, buf. repeat split. }
    destruct Htok as [Hq ->]. cbn [getfield_loop fst snd].
    rewrite bool_decide_eq_false_2 by exact Hq.
    destruct (wrap32 (num - 1) =? 0) eqn:E.
    { apply Z.eqb_eq, wrap32_0_iff in E. rewrite E.
      exists (Some q), buf. repeat split. }
    apply Z.eqb_neq in E. rewrite wrap32_0_iff in E.
    pose proof (Z.mod_pos_bound (num - 1) (2 ^ 32) ltac:(lia)) as Hb.
    assert (Eidx : Z.to_nat ((num - 1) mod 2 ^ 32)
                   = S (Z.to_nat ((wrap32 (num - 1) - 1) mod 2 ^ 32))).
    { rewrite wrap32_pred_mod by exact E. lia. }
    rewrite Eidx. cbn [lookup list_lookup].
    pose proof (strtok_spec None (buf, olds)) as Hs. cbv zeta in Hs.
    cbn [default fst snd] in Hs.
    destruct (strtok None [";"%char] (buf, olds)) as [tok' [buf' olds']].
    cbn [fst snd] in *.
    destruct Hs as (Hlen & Hle & Hs).
    assert (Hkeep : c_string buf' = c_string buf /\
                    ((length (c_string buf') < olds')%nat \/
                     pending (buf', olds') = [])).
    { destruct Hs as [(_ & -> & _ & Hp)|(q' & f & _ & _ & _ & Hp & _ & Hw)].
      - split; [reflexivity|right; exact Hp].
      - destruct Hw as [[-> Hp']|(e & He & -> & Hlt)].
        + split; [reflexivity|right; exact Hp'].
        + destruct HJ as [HJ|HJ]; [|rewrite HJ in Hp; discriminate].
          rewrite c_string_insert_after by lia.
          split; [reflexivity|left; lia]. }
    destruct Hkeep as [Ekeep HJ'].
    destruct (IH tok' (wrap32 (num - 1)) (buf', olds') (pending (buf, olds)))
      as (r & memory & Er & Et & El & Ec).
    + destruct Hs as [(-> & _ & Hp & _)|(q' & f & -> & Hq' & Hf & Hp & _)].
      * exact Hp.
      * cbn [fst snd]. split; [exact Hq'|]. rewrite Hf. exact Hp.
    + destruct Hs as [(-> & _)|(q' & f & _ & _ & _ & Hp & _)]; [right; reflexivity|].
      left. destruct Hfuel as [Hfuel|Hfuel]; [|discriminate].
      rewrite Hp in Hfuel. simpl in Hfuel. lia.
    + exact HJ'.
    + exists r, memory. cbn [fst snd] in *. split; [exact Er|].
      split; [exact Et|]. split; congruence.
Qed.

(** ** getfield *)

(** getfield returns, and what it returns and leaves is determined by the
    fields of the line. *)
Lemma getfield_spec (line : list ascii) (num : Z) :
  exists (r : option nat) (memory : list ascii),
    getfield line num = Some (r, memory) /\
    (fun p : nat => c_string (drop p memory)) <$> r
      = fields (c_string line) !! Z.to_nat ((num - 1) mod 2 ^ 32) /\
    length memory = length line /\
    fields (c_string memory) = take 1 (fields (c_string line)).
Proof.
  unfold getfield.
  pose proof (strtok_spec (Some O) (line, O)) as Hs. cbv zeta in Hs.
  change (default (line, O).2 (Some O)) with O in Hs.
  cbn [fst snd] in Hs. rewrite drop_0 in Hs.
  destruct (strtok (Some O) [";"%char] (line, O)) as [tok [buf olds]].
  cbn [fst snd] in *. destruct Hs as (Hlen & _ & Hs).
  change (pending (line, O)) with (fields (c_string line)) in Hs.
  assert (Hfirst : fields (c_string buf) = take 1 (fields (c_string line)) /\
                   ((length (c_string buf) < olds)%nat \/
                    pending (buf, olds) = [])).
  { destruct Hs as [(_ & -> & Hp & Hp')|(q & f & _ & _ & _ & Hp & Hf & Hw)].
    - rewrite Hp. split; [reflexivity|right; exact Hp'].
    - rewrite Hp. split; [exact Hf|].
      destruct Hw as [[_ Hp']|(e & _ & _ & Hlt)]; [right; exact Hp'|left; lia]. }
  destruct Hfirst as [Hfirst HJ].
  destruct (getfield_loop_spec (length line) tok num (buf, olds)
              (fields (c_string line))) as (r & memory & Er & Et & El & Ec).
  - destruct Hs as [(-> & _ & Hp & _)|(q & f & -> & Hq & Hf & Hp & _)].
    + exact Hp.
    + cbn [fst snd]. split; [exact Hq|]. rewrite Hf. exact Hp.
  - destruct Hs as [(-> & _)|(q & f & _ & _ & _ & Hp & _)]; [right; reflexivity|].
    left. pose proof (fields_length (c_string line)) as H1.
    pose proof (c_string_length line) as H2.
    rewrite Hp in H1. simpl in H1. lia.
  - exact HJ.
  - exists r, memory. cbn [fst snd] in *. split; [exact Er|].
    split; [exact Et|]. split; [congruence|]. rewrite Ec. exact Hfirst.
Qed.

(** X7: for a number [num >= 1], getfield returns the [num]-th field of the
    line, the fields being the non-empty runs of bytes between [;], and NULL
    if the line has fewer fields; a field it returns is not empty and holds
    no [;]. *)
Theorem getfield_nth_field (line : list ascii) (num : Z) :
  1 <= num < 2 ^ 31 ->
  getfield_text line num
    = Some (fields (c_string line) !! Z.to_nat (num - 1)) /\
  forall f, getfield_text line num = Some (Some f) ->
    f <> [] /\ ";"%char ∉ f.
Proof.
  intros Hnum.
  assert (E : getfield_text line num
              = Some (fields (c_string line) !! Z.to_nat (num - 1))).
  { destruct (getfield_spec line num) as (r & memory & Er & Et & _).
    unfold getfield_text. rewrite Er. cbn [fmap option_fmap option_map fst snd].
    rewrite Et. rewrite Z.mod_small by lia. reflexivity. }
  split; [exact E|]. intros f Hf. rewrite E in Hf. injection Hf as Hf.
  pose proof (fields_from_Forall (c_string line) [] ltac:(constructor)) as HF.
  rewrite Forall_lookup in HF. destruct (HF _ _ Hf) as [Hne Hsemi].
  split; [exact Hne|]. rewrite Forall_forall in Hsemi. intros Hin.
  exact (Hsemi _ Hin eq_refl).
Qed.

(** X8: for a number [num <= 0], getfield returns NULL, on a line of fewer
    than 2^31 bytes. *)
Theorem getfield_not_positive (line : list ascii) (num : Z) :
  - 2 ^ 31 <= num <= 0 -> Z.of_nat (length line) < 2 ^ 31 ->
  getfield_text line num = Some None.
Proof.
  intros Hnum Hlen.
  destruct (getfield_spec line num) as (r & memory & Er & Et & _).
  unfold getfield_text. rewrite Er. cbn [fmap option_fmap option_map fst snd].
  rewrite Et. f_equal. apply lookup_ge_None.
  pose proof (fields_length (c_string line)) as H1.
  pose proof (c_string_length line) as H2.
  replace ((num - 1) mod 2 ^ 32) with (num - 1 + 2 ^ 32); [lia|].
  apply (Z.mod_unique_pos _ _ (-1)); lia.
Qed.

(** X9: getfield changes the line: whatever [num] is, the line afterwards
    has the same length in memory but reads as its first field only, so that
    a second call on it finds no field after the first. *)
Theorem getfield_cuts_line (line : list ascii) (num : Z) :
  exists memory : list ascii,
    getfield_memory line num = Some memory /\
    length memory = length line /\
    fields (c_string memory) = take 1 (fields (c_string line)) /\
    forall num' : Z, 2 <= num' < 2 ^ 31 -> getfield_text memory num' = Some None.
Proof.
  destruct (getfield_spec line num) as (r & memory & Er & _ & El & Ef).
  exists memory. unfold getfield_memory. rewrite Er.
  split; [reflexivity|]. split; [exact El|]. split; [exact Ef|].
  intros num' Hnum'.
  destruct (getfield_spec memory num') as (r' & memory' & Er' & Et' & _).
  unfold getfield_text. rewrite Er'. cbn [fmap option_fmap option_map fst snd].
  rewrite Et'. f_equal. apply lookup_ge_None. rewrite Ef, length_take.
  rewrite Z.mod_small by lia. lia.
Qed.

Lemma getfield_nth_field_witness :
  getfield_text (list_ascii_of_string "rnbqk;;20;400") 2
    = Some (Some (list_ascii_of_string "20")).
Proof.
  destruct (getfield_nth_field (list_ascii_of_string "rnbqk;;20;400") 2
              ltac:(lia)) as [E _].
  rewrite E. reflexivity.
Defined.

Lemma getfield_not_positive_witness :
  getfield_text (list_ascii_of_string "rnbqk;;20;400") 0 = Some None.
Proof.
  apply getfield_not_positive; [lia|]. vm_compute. reflexivity.
Defined.

(** * The shape of the reduction tables *)

Lemma trunc_minus_quarter : trunc (- (1 # 4)) = 0.
Proof. reflexivity. Qed.

Lemma floor_log2_mono (i i' : Z) :
  1 <= i <= i' -> (floor_log2 (inject_Z i) <= floor_log2 (inject_Z i'))%Q.
Proof.
  intros Hi. unfold floor_log2. rewrite <- Zle_Qle.
  apply Z.log2_le_mono, Qfloor_resp_le. rewrite <- Zle_Qle. lia.
Qed.

Lemma floor_log2_one : (floor_log2 1 == 0)%Q.
Proof. reflexivity. Qed.

Lemma Qmult_comm_eq (a b : Q) : (a * b)%Q = (b * a)%Q.
Proof.
  destruct a as [an ad], b as [bn bd]. unfold Qmult. cbn [Qnum Qden].
  f_equal; [apply Z.mul_comm|apply Pos.mul_comm].
Qed.

(** X21: the reduction tables are symmetric in the depth and the move index,
    whatever the rounding and the logarithm are: the two logarithms are
    multiplied. *)
Theorem reductions_symmetric (MAXDEPTH : Z) (fl libm_log : Q -> Q)
    (libm_pow : Q -> Q -> Q) (m : Margins) (b i j : Z) :
  b = 0 \/ b = 1 -> 1 <= i < MAXDEPTH -> 1 <= j < MAXDEPTH ->
  reductions (InitReductions MAXDEPTH fl libm_log libm_pow m) !! (b, i, j)
  = reductions (InitReductions MAXDEPTH fl libm_log libm_pow m) !! (b, j, i).
Proof.
  intros Hb Hi Hj. rewrite !InitReductions_reductions.
  unfold reductions_written, reductions_value, reduction0, reduction1, fmul.
  cbn [fst snd].
  rewrite (Qmult_comm_eq (libm_log (inject_Z j))).
  rewrite (bool_decide_eq_true_2
             ((b = 0 \/ b = 1) /\ 1 <= i < MAXDEPTH /\ 1 <= j < MAXDEPTH))
    by lia.
  rewrite (bool_decide_eq_true_2
             ((b = 0 \/ b = 1) /\ 1 <= j < MAXDEPTH /\ 1 <= i < MAXDEPTH))
    by lia.
  reflexivity.
Qed.

Section ReductionsShape.
Variable MAXDEPTH : Z.
Variable fl : Q -> Q.
Variable libm_log : Q -> Q.
Variable libm_pow : Q -> Q -> Q.

(** Rounding to a double is monotone, and returns a multiple of a quarter
    whose numerator has at most 53 bits. *)
Hypothesis fl_mono : forall x y : Q, (x <= y)%Q -> (fl x <= fl y)%Q.
Hypothesis fl_exact :
  forall (x : Q) (n : Z), (x == n # 4)%Q -> Z.abs n <= 2 ^ 53 -> (fl x == x)%Q.
(** From 1 on the logarithm is not negative, and on the integers it does not
    decrease; [log(1)] is 0. *)
Hypothesis log_nonneg : forall x : Q, (1 <= x)%Q -> (0 <= libm_log x)%Q.
Hypothesis log_mono :
  forall i i' : Z, 1 <= i <= i' ->
    (libm_log (inject_Z i) <= libm_log (inject_Z i'))%Q.
Hypothesis log_one : (libm_log 1 == 0)%Q.
(** [pow(d, 2.0)] is the square of a depth, and [-30 * depth * depth] does
    not overflow an [int] below [MAXDEPTH]. *)
Hypothesis pow_square :
  forall d : Z, 0 <= d < MAXDEPTH ->
    (libm_pow (inject_Z d) 2 == inject_Z (d * d))%Q.
Hypothesis MAXDEPTH_int : 30 * MAXDEPTH * MAXDEPTH < 2 ^ 31.

Lemma inject_Z_ge_1 (i : Z) : 1 <= i -> (1 <= inject_Z i)%Q.
Proof. intros H. change 1%Q with (inject_Z 1). rewrite <- Zle_Qle. exact H. Qed.

Lemma log_product_mono (i j i' j' : Z) :
  1 <= i <= i' -> 1 <= j <= j' ->
  (fmul fl (libm_log (inject_Z i)) (libm_log (inject_Z j))
   <= fmul fl (libm_log (inject_Z i')) (libm_log (inject_Z j')))%Q.
Proof using fl_mono log_nonneg log_mono.
  intros Hi Hj. unfold fmul. apply fl_mono.
  apply Qmult_le_compat_nonneg; (split;
    [apply log_nonneg, inject_Z_ge_1; lia
    |apply log_mono; lia]).
Qed.

Lemma fdiv_mono (x y c : Q) :
  (0 < c)%Q -> (x <= y)%Q -> (fdiv fl x c <= fdiv fl y c)%Q.
Proof using fl_mono.
  intros Hc Hxy. unfold fdiv. apply fl_mono. unfold Qdiv.
  apply Qmult_le_compat_r; [exact Hxy|].
  apply Qinv_le_0_compat, Qlt_le_weak, Hc.
Qed.

Lemma fadd_mono (c x y : Q) : (x <= y)%Q -> (fadd fl c x <= fadd fl c y)%Q.
Proof using fl_mono.
  intros Hxy. unfold fadd. apply fl_mono. apply Qplus_le_r. exact Hxy.
Qed.

Lemma reduction_mono (i j i' j' : Z) :
  1 <= i <= i' -> 1 <= j <= j' ->
  (reduction0 fl libm_log i j <= reduction0 fl libm_log i' j')%Q /\
  (reduction1 fl libm_log i j <= reduction1 fl libm_log i' j')%Q.
Proof using fl_mono log_nonneg log_mono.
  intros Hi Hj. pose proof (log_product_mono i j i' j' Hi Hj) as Hp.
  unfold reduction0, reduction1. split.
  - apply fadd_mono, fdiv_mono; [reflexivity|exact Hp].
  - apply fadd_mono, fdiv_mono; [reflexivity|exact Hp].
Qed.

Lemma reductions_cells (m : Margins) (i j : Z) :
  1 <= i < MAXDEPTH -> 1 <= j < MAXDEPTH ->
  rd (reductions (InitReductions MAXDEPTH fl libm_log libm_pow m)) (0, i, j)
    = trunc (reduction0 fl libm_log i j) /\
  rd (reductions (InitReductions MAXDEPTH fl libm_log libm_pow m)) (1, i, j)
    = trunc (reduction1 fl libm_log i j).
Proof.
  intros Hi Hj. split; apply rd_Some; rewrite InitReductions_reductions;
    unfold reductions_written, reductions_value; cbn [fst snd];
    rewrite bool_decide_eq_true_2 by lia; reflexivity.
Qed.

(** X10: both reduction tables are monotone: a deeper search or a later move
    is never reduced less. *)
Theorem reductions_monotone (m : Margins) (b i j i' j' : Z) :
  b = 0 \/ b = 1 ->
  1 <= i <= i' -> i' < MAXDEPTH -> 1 <= j <= j' -> j' < MAXDEPTH ->
  rd (reductions (InitReductions MAXDEPTH fl libm_log libm_pow m)) (b, i, j)
  <= rd (reductions (InitReductions MAXDEPTH fl libm_log libm_pow m)) (b, i', j').
Proof using fl_mono log_nonneg log_mono.
  intros Hb Hi Hi' Hj Hj'.
  destruct (reductions_cells m i j ltac:(lia) ltac:(lia)) as [E0 E1].
  destruct (reductions_cells m i' j' ltac:(lia) ltac:(lia)) as [E0' E1'].
  destruct (reduction_mono i j i' j' Hi Hj) as [H0 H1].
  destruct Hb as [-> | ->].
  - rewrite E0, E0'. apply trunc_mono, H0.
  - rewrite E1, E1'. apply trunc_mono, H1.
Qed.

Lemma fl_quarters (x : Q) (n : Z) :
  (x == n # 4)%Q -> Z.abs n <= 2 ^ 53 -> (fl x == n # 4)%Q.
Proof using fl_exact.
  intros E Hn. rewrite (fl_exact x n E Hn). exact E.
Qed.

Lemma log_quotient_nonneg (i j : Z) (c : Q) :
  1 <= i -> 1 <= j -> (0 < c)%Q ->
  (0 <= fdiv fl (fmul fl (libm_log (inject_Z i)) (libm_log (inject_Z j))) c)%Q.
Proof using fl_mono fl_exact log_nonneg.
  intros Hi Hj Hc.
  assert (H0 : (fl 0 == 0)%Q)
    by (rewrite (fl_quarters 0%Q 0) by (try reflexivity; simpl; lia); reflexivity).
  assert (Hp : (0 <= fmul fl (libm_log (inject_Z i)) (libm_log (inject_Z j)))%Q).
  { unfold fmul. rewrite <- H0. apply fl_mono.
    apply Qmult_le_0_compat; apply log_nonneg, inject_Z_ge_1; lia. }
  unfold fdiv. rewrite <- H0. apply fl_mono. unfold Qdiv.
  apply Qmult_le_0_compat; [exact Hp|].
  apply Qinv_le_0_compat, Qlt_le_weak, Hc.
Qed.

(** X11: no entry of the first reduction table is negative, and every entry
    of the second is at least 1. *)
Theorem reductions_lower_bounds (m : Margins) (i j : Z) :
  1 <= i < MAXDEPTH -> 1 <= j < MAXDEPTH ->
  0 <= rd (reductions (InitReductions MAXDEPTH fl libm_log libm_pow m)) (0, i, j) /\
  1 <= rd (reductions (InitReductions MAXDEPTH fl libm_log libm_pow m)) (1, i, j).
Proof using fl_mono fl_exact log_nonneg.
  intros Hi Hj. destruct (reductions_cells m i j Hi Hj) as [-> ->].
  unfold reduction0, reduction1. split.
  - rewrite <- trunc_minus_quarter. apply trunc_mono.
    pose proof (log_quotient_nonneg i j (9 # 4) ltac:(lia) ltac:(lia)
                  ltac:(reflexivity)) as Hq.
    set (q := fdiv fl _ (9 # 4)) in *. unfold fadd.
    apply (Qle_trans _ (fl (- (1 # 4) + 0))); [|apply fl_mono, Qplus_le_r, Hq].
    rewrite (fl_quarters (- (1 # 4) + 0)%Q (-1)) by (try reflexivity; simpl; lia).
    unfold Qle. simpl. lia.
  - change 1 with (trunc 1). apply trunc_mono.
    pose proof (log_quotient_nonneg i j 2 ltac:(lia) ltac:(lia)
                  ltac:(reflexivity)) as Hq.
    set (q := fdiv fl _ 2) in *. unfold fadd.
    apply (Qle_trans _ (fl (1 + 0))); [|apply fl_mono, Qplus_le_r, Hq].
    rewrite (fl_quarters (1 + 0)%Q 4) by (try reflexivity; simpl; lia).
    unfold Qle. simpl. lia.
Qed.

Lemma reduction_log_zero (i j : Z) :
  (libm_log (inject_Z i) * libm_log (inject_Z j) == 0)%Q ->
  trunc (reduction0 fl libm_log i j) = 0 /\
  trunc (reduction1 fl libm_log i j) = 1.
Proof using fl_exact.
  intros Hz. unfold reduction0, reduction1, fadd, fdiv, fmul.
  set (p := (libm_log (inject_Z i) * libm_log (inject_Z j))%Q) in *.
  assert (Hp : (fl p == 0)%Q).
  { rewrite (fl_quarters p 0); [reflexivity| |simpl; lia]. rewrite Hz. reflexivity. }
  assert (Hd0 : (fl (fl p / (9 # 4)) == 0)%Q).
  { rewrite (fl_quarters _ 0); [reflexivity| |simpl; lia]. rewrite Hp. reflexivity. }
  assert (Hd1 : (fl (fl p / 2) == 0)%Q).
  { rewrite (fl_quarters _ 0); [reflexivity| |simpl; lia]. rewrite Hp. reflexivity. }
  split.
  - rewrite (trunc_comp _ (- (1 # 4))); [reflexivity|].
    rewrite (fl_quarters _ (-1)); [reflexivity| |simpl; lia].
    rewrite Hd0. reflexivity.
  - rewrite (trunc_comp _ 1); [reflexivity|].
    rewrite (fl_quarters _ 4); [reflexivity| |simpl; lia].
    rewrite Hd1. reflexivity.
Qed.

(** X12: at depth index 1 and at move index 1 the logarithm is 0: the first
    table holds 0 there (the double is -0.25, and the conversion to [int]
    drops the fraction towards 0), and the second 1. *)
Theorem reductions_first_row_and_column (m : Margins) (i : Z) :
  1 <= i < MAXDEPTH ->
  rd (reductions (InitReductions MAXDEPTH fl libm_log libm_pow m)) (0, 1, i) = 0 /\
  rd (reductions (InitReductions MAXDEPTH fl libm_log libm_pow m)) (0, i, 1) = 0 /\
  rd (reductions (InitReductions MAXDEPTH fl libm_log libm_pow m)) (1, 1, i) = 1 /\
  rd (reductions (InitReductions MAXDEPTH fl libm_log libm_pow m)) (1, i, 1) = 1.
Proof using fl_exact log_one.
  intros Hi.
  destruct (reductions_cells m 1 i ltac:(lia) Hi) as [-> ->].
  destruct (reductions_cells m i 1 Hi ltac:(lia)) as [-> ->].
  assert (H1 : (libm_log (inject_Z 1) * libm_log (inject_Z i) == 0)%Q).
  { change (inject_Z 1) with 1%Q. rewrite log_one. apply Qmult_0_l. }
  assert (H2 : (libm_log (inject_Z i) * libm_log (inject_Z 1) == 0)%Q).
  { change (inject_Z 1) with 1%Q. rewrite log_one. apply Qmult_0_r. }
  destruct (reduction_log_zero 1 i H1) as [-> ->].
  destruct (reduction_log_zero i 1 H2) as [-> ->]. repeat split.
Qed.

(** X13: the late-move-pruning margins as integers: [d * d + 3] when
    improving and half of it, rounded down, when not; neither decreases with
    the depth. *)
Theorem lmp_margin_closed_form (m : Margins) (d d' : Z) :
  0 <= d <= d' -> d' < MAXDEPTH ->
  rd (lmp_margin (InitReductions MAXDEPTH fl libm_log libm_pow m)) (d, 1)
    = d * d + 3 /\
  rd (lmp_margin (InitReductions MAXDEPTH fl libm_log libm_pow m)) (d, 0)
    = (d * d + 3) / 2 /\
  rd (lmp_margin (InitReductions MAXDEPTH fl libm_log libm_pow m)) (d, 0)
    <= rd (lmp_margin (InitReductions MAXDEPTH fl libm_log libm_pow m)) (d', 0) /\
  rd (lmp_margin (InitReductions MAXDEPTH fl libm_log libm_pow m)) (d, 1)
    <= rd (lmp_margin (InitReductions MAXDEPTH fl libm_log libm_pow m)) (d', 1).
Proof using fl_exact pow_square MAXDEPTH_int.
  intros Hd Hd'.
  assert (Hval : forall e, 0 <= e < MAXDEPTH ->
    rd (lmp_margin (InitReductions MAXDEPTH fl libm_log libm_pow m)) (e, 1)
      = e * e + 3 /\
    rd (lmp_margin (InitReductions MAXDEPTH fl libm_log libm_pow m)) (e, 0)
      = (e * e + 3) / 2).
  { intros e He.
    destruct (InitReductions_lmp MAXDEPTH fl libm_log libm_pow m e He) as [E0 E1].
    rewrite (rd_Some _ _ _ E0), (rd_Some _ _ _ E1).
    rewrite (trunc_comp _ _ (lmp0_exact MAXDEPTH fl libm_pow fl_exact pow_square
                               MAXDEPTH_int e He)).
    rewrite (trunc_comp _ _ (lmp1_exact MAXDEPTH fl libm_pow fl_exact pow_square
                               MAXDEPTH_int e He)).
    assert (0 <= e * e) by nia.
    rewrite !trunc_quarters by lia. split.
    - replace (12 + 4 * (e * e)) with ((e * e + 3) * 4) by lia.
      apply Z.div_mul. lia.
    - replace (6 + 2 * (e * e)) with ((e * e + 3) * 2) by lia.
      change 4 with (2 * 2). rewrite Z.div_mul_cancel_r by lia. reflexivity. }
  destruct (Hval d ltac:(lia)) as [-> ->].
  destruct (Hval d' ltac:(lia)) as [-> ->].
  split; [reflexivity|]. split; [reflexivity|].
  assert (d * d <= d' * d') by nia.
  split; [apply Z.div_le_mono; lia|lia].
Qed.

End ReductionsShape.

Lemma reductions_monotone_witness :
  rd (reductions (InitReductions 128 exact_fl floor_log2 exact_pow zero_margins))
     (0, 8, 16)
  <= rd (reductions (InitReductions 128 exact_fl floor_log2 exact_pow zero_margins))
        (0, 100, 16).
Proof.
  apply (reductions_monotone 128 exact_fl floor_log2 exact_pow exact_fl_mono
           floor_log2_nonneg floor_log2_mono zero_margins 0 8 16 100 16);
    first [lia | left; reflexivity].
Defined.

Lemma reductions_lower_bounds_witness :
  0 <= rd (reductions (InitReductions 128 exact_fl floor_log2 exact_pow
                         zero_margins)) (0, 1, 1) /\
  1 <= rd (reductions (InitReductions 128 exact_fl floor_log2 exact_pow
                         zero_margins)) (1, 1, 1).
Proof.
  apply (reductions_lower_bounds 128 exact_fl floor_log2 exact_pow exact_fl_mono
           exact_fl_exact floor_log2_nonneg zero_margins 1 1); lia.
Defined.

Lemma reductions_first_row_and_column_witness :
  rd (reductions (InitReductions 128 exact_fl floor_log2 exact_pow zero_margins))
     (0, 1, 127) = 0.
Proof.
  destruct (reductions_first_row_and_column 128 exact_fl floor_log2 exact_pow
              exact_fl_exact floor_log2_one zero_margins 127 ltac:(lia))
    as [E _].
  exact E.
Defined.

Lemma lmp_margin_closed_form_witness :
  rd (lmp_margin (InitReductions 128 exact_fl floor_log2 exact_pow zero_margins))
     (4, 0) = 9.
Proof.
  destruct (lmp_margin_closed_form 128 exact_fl floor_log2 exact_pow
              exact_fl_exact (exact_pow_square 128) ltac:(lia)
              zero_margins 4 5 ltac:(lia) ltac:(lia)) as (_ & E & _).
  rewrite E. reflexivity.
Defined.

Lemma reductions_symmetric_witness :
  reductions (InitReductions 128 exact_fl floor_log2 exact_pow zero_margins)
    !! (0, 8, 16)
  = reductions (InitReductions 128 exact_fl floor_log2 exact_pow zero_margins)
      !! (0, 16, 8).
Proof.
  apply reductions_symmetric; lia.
Defined.

(** * More on the squares-between table *)

Section LookupTablesShape.
Variable bishop_magic_numbers : Z -> Z.
Variable rook_magic_numbers : Z -> Z.
Variable bishop_relevant_bits : Z.
Variable rook_relevant_bits : Z.
Variable get_file : Z -> Z.
Variable get_rank : Z -> Z.
Variable get_diagonal : Z -> Z.
Variable get_antidiagonal : Z -> Z.

Lemma on_a_line_sym (sq1 sq2 : Z) :
  on_a_line get_file get_rank get_diagonal get_antidiagonal sq1 sq2
  = on_a_line get_file get_rank get_diagonal get_antidiagonal sq2 sq1.
Proof.
  unfold on_a_line.
  rewrite (Z.eqb_sym (get_file sq1)), (Z.eqb_sym (get_rank sq1)),
    (Z.eqb_sym (get_diagonal sq1)), (Z.eqb_sym (get_antidiagonal sq1)).
  reflexivity.
Qed.

Lemma between_value_sym (t : AttackTables) (sq1 sq2 : Z) :
  between_value bishop_magic_numbers rook_magic_numbers bishop_relevant_bits
    rook_relevant_bits get_file get_rank t sq1 sq2
  = between_value bishop_magic_numbers rook_magic_numbers bishop_relevant_bits
      rook_relevant_bits get_file get_rank t sq2 sq1.
Proof.
  unfold between_value.
  rewrite (Z.eqb_sym (get_file sq1)), (Z.eqb_sym (get_rank sq1)).
  rewrite (Z.lor_comm (Z.shiftl 1 sq1)).
  destruct ((get_file sq2 =? get_file sq1) || (get_rank sq2 =? get_rank sq1));
    apply Z.land_comm.
Qed.

(** X14: the squares-between table is symmetric, whatever the slider tables
    hold: the entries of [(sq1, sq2)] and [(sq2, sq1)] are stored or left
    together, and store the same value. *)
Theorem squares_between_symmetric (t : AttackTables) (sq1 sq2 : Z) :
  SQUARES_BETWEEN_BB t !! (sq1, sq2) = SQUARES_BETWEEN_BB t !! (sq2, sq1) ->
  SQUARES_BETWEEN_BB (initializeLookupTables bishop_magic_numbers
      rook_magic_numbers bishop_relevant_bits rook_relevant_bits get_file
      get_rank get_diagonal get_antidiagonal t) !! (sq1, sq2)
  = SQUARES_BETWEEN_BB (initializeLookupTables bishop_magic_numbers
      rook_magic_numbers bishop_relevant_bits rook_relevant_bits get_file
      get_rank get_diagonal get_antidiagonal t) !! (sq2, sq1).
Proof.
  intros Hold. rewrite !initializeLookupTables_lookup.
  rewrite (on_a_line_sym sq2 sq1), (between_value_sym t sq2 sq1), Hold.
  destruct (decide (0 <= sq1 < 64 /\ 0 <= sq2 < 64)) as [Hin|Hout].
  - rewrite !bool_decide_eq_true_2 by tauto. reflexivity.
  - rewrite !bool_decide_eq_false_2 by tauto. reflexivity.
Qed.

(** initializeLookupTables changes the squares-between table only. *)
Lemma initializeLookupTables_frame {A : Type} (f : AttackTables -> A)
    (t : AttackTables) :
  (forall k v u, f (set_SQUARES_BETWEEN_BB k v u) = f u) ->
  f (initializeLookupTables bishop_magic_numbers rook_magic_numbers
       bishop_relevant_bits rook_relevant_bits get_file get_rank get_diagonal
       get_antidiagonal t) = f t.
Proof.
  intros Hf. unfold initializeLookupTables.
  apply (for_loop_frame f). intros sq1 u _.
  apply (for_loop_frame f). intros sq2 v _.
  unfold squares_between_body.
  repeat match goal with |- context [if ?c then _ else _] => destruct c end;
    rewrite ?Hf; reflexivity.
Qed.

(** X15: the squares-between table must be built after the slider tables:
    from slider tables that are still empty, initializeLookupTables builds a
    table of zeros. *)
Theorem initializeLookupTables_on_empty_tables (t : AttackTables) (sq1 sq2 : Z) :
  bishop_attacks t = ∅ -> rook_attacks t = ∅ -> SQUARES_BETWEEN_BB t = ∅ ->
  rd (SQUARES_BETWEEN_BB (initializeLookupTables bishop_magic_numbers
        rook_magic_numbers bishop_relevant_bits rook_relevant_bits get_file
        get_rank get_diagonal get_antidiagonal t)) (sq1, sq2) = 0.
Proof.
  intros Hb Hr Hs. unfold rd. rewrite initializeLookupTables_lookup.
  destruct (_ && _).
  - unfold between_value, GetRookAttacks, GetBishopAttacks, rd.
    rewrite Hb, Hr, !lookup_empty. cbn [default].
    destruct (_ || _); reflexivity.
  - rewrite Hs, lookup_empty. reflexivity.
Qed.

End LookupTablesShape.

Lemma squares_between_symmetric_witness :
  SQUARES_BETWEEN_BB (initializeLookupTables Geometry.bishop_magic_numbers
      Geometry.rook_magic_numbers Geometry.bishop_relevant_bits
      Geometry.rook_relevant_bits Geometry.get_file Geometry.get_rank
      Geometry.get_diagonal Geometry.get_antidiagonal zero_tables) !! (3, 59)
  = SQUARES_BETWEEN_BB (initializeLookupTables Geometry.bishop_magic_numbers
      Geometry.rook_magic_numbers Geometry.bishop_relevant_bits
      Geometry.rook_relevant_bits Geometry.get_file Geometry.get_rank
      Geometry.get_diagonal Geometry.get_antidiagonal zero_tables) !! (59, 3).
Proof.
  apply squares_between_symmetric. reflexivity.
Defined.

Lemma initializeLookupTables_on_empty_tables_witness :
  rd (SQUARES_BETWEEN_BB (initializeLookupTables Geometry.bishop_magic_numbers
        Geometry.rook_magic_numbers Geometry.bishop_relevant_bits
        Geometry.rook_relevant_bits Geometry.get_file Geometry.get_rank
        Geometry.get_diagonal Geometry.get_antidiagonal zero_tables)) (0, 7) = 0.
Proof.
  apply initializeLookupTables_on_empty_tables; reflexivity.
Defined.

(** * Properties of InitAll *)

Section StartupTables.
Variable rng : Type.
Variable TTable : Type.
Variable Network : Type.
Variable MaskPawnAttacks : Z -> Z -> Z.
Variable MaskKnightAttacks : Z -> Z.
Variable MaskKingAttacks : Z -> Z.
Variable MaskBishopAttacks : Z -> Z.
Variable MaskRookAttacks : Z -> Z.
Variable BishopAttacksOnTheFly : Z -> Z -> Z.
Variable RookAttacksOnTheFly : Z -> Z -> Z.
Variable bishop_magic_numbers : Z -> Z.
Variable rook_magic_numbers : Z -> Z.
Variable bishop_relevant_bits : Z.
Variable rook_relevant_bits : Z.
Variable get_file : Z -> Z.
Variable get_rank : Z -> Z.
Variable get_diagonal : Z -> Z.
Variable get_antidiagonal : Z -> Z.
Variable GetRandomBitboardNumber : rng -> Z * rng.
Variable MAXDEPTH : Z.
Variable fl : Q -> Q.
Variable libm_log : Q -> Q.
Variable libm_pow : Q -> Q -> Q.
Variable InitTT : Z -> TTable -> TTable.
Variable nnue_init : string -> Network -> Network.

(** The squares-between table that initializeLookupTables builds from the
    tables of InitAttackTables, at two squares with fit constants. *)
Lemma between_value_InitAttackTables (t : AttackTables) (sq1 sq2 : Z) :
  0 <= sq1 < 64 -> 0 <= sq2 < 64 ->
  fit_square MaskBishopAttacks MaskRookAttacks BishopAttacksOnTheFly
    RookAttacksOnTheFly bishop_magic_numbers rook_magic_numbers
    bishop_relevant_bits rook_relevant_bits sq1 ->
  fit_square MaskBishopAttacks MaskRookAttacks BishopAttacksOnTheFly
    RookAttacksOnTheFly bishop_magic_numbers rook_magic_numbers
    bishop_relevant_bits rook_relevant_bits sq2 ->
  between_value bishop_magic_numbers rook_magic_numbers bishop_relevant_bits
    rook_relevant_bits get_file get_rank
    (InitAttackTables MaskPawnAttacks MaskKnightAttacks MaskKingAttacks
       MaskBishopAttacks MaskRookAttacks BishopAttacksOnTheFly
       RookAttacksOnTheFly bishop_magic_numbers rook_magic_numbers
       bishop_relevant_bits rook_relevant_bits t) sq1 sq2
  = rays_between MaskBishopAttacks MaskRookAttacks BishopAttacksOnTheFly
      RookAttacksOnTheFly get_file get_rank sq1 sq2.
Proof.
  intros H1 H2 [(B10 & B11 & B12) (R10 & R11 & R12)]
    [(B20 & B21 & B22) (R20 & R21 & R22)].
  unfold between_value, rays_between.
  rewrite !GetRookAttacks_InitAttackTables by assumption.
  rewrite !GetBishopAttacks_InitAttackTables by assumption.
  reflexivity.
Qed.

(** X16: when InitAll returns, the slider tables hold the ray-cast attack
    sets at the magic indices (initializeLookupTables, which ran after
    InitAttackTables, read them and left them alone), and the squares-between
    entry of two squares on a line is what the rays from both of them have in
    common when only the two squares are occupied. *)
Theorem InitAll_attack_tables (g : Globals rng TTable Network) (sq1 sq2 occ : Z) :
  0 <= sq1 < 64 -> 0 <= sq2 < 64 ->
  fit_square MaskBishopAttacks MaskRookAttacks BishopAttacksOnTheFly
    RookAttacksOnTheFly bishop_magic_numbers rook_magic_numbers
    bishop_relevant_bits rook_relevant_bits sq1 ->
  fit_square MaskBishopAttacks MaskRookAttacks BishopAttacksOnTheFly
    RookAttacksOnTheFly bishop_magic_numbers rook_magic_numbers
    bishop_relevant_bits rook_relevant_bits sq2 ->
  let t := attack_tables
             (InitAll MaskPawnAttacks MaskKnightAttacks MaskKingAttacks
                MaskBishopAttacks MaskRookAttacks BishopAttacksOnTheFly
                RookAttacksOnTheFly bishop_magic_numbers rook_magic_numbers
                bishop_relevant_bits rook_relevant_bits get_file get_rank
                get_diagonal get_antidiagonal GetRandomBitboardNumber
                MAXDEPTH fl libm_log libm_pow InitTT nnue_init g) in
  (subset_of occ (MaskBishopAttacks sq1) ->
   bishop_attacks t
     !! (sq1, magic_hash (bishop_magic_numbers sq1) bishop_relevant_bits occ)
     = Some (BishopAttacksOnTheFly sq1 occ)) /\
  (subset_of occ (MaskRookAttacks sq1) ->
   rook_attacks t
     !! (sq1, magic_hash (rook_magic_numbers sq1) rook_relevant_bits occ)
     = Some (RookAttacksOnTheFly sq1 occ)) /\
  SQUARES_BETWEEN_BB t !! (sq1, sq2) =
    if on_a_line get_file get_rank get_diagonal get_antidiagonal sq1 sq2
    then Some (rays_between MaskBishopAttacks MaskRookAttacks
                 BishopAttacksOnTheFly RookAttacksOnTheFly get_file get_rank
                 sq1 sq2)
    else SQUARES_BETWEEN_BB (attack_tables g) !! (sq1, sq2).
Proof.
  intros H1 H2 F1 F2 t. unfold t, InitAll. cbn [attack_tables].
  split; [|split].
  - intros Hocc.
    rewrite (initializeLookupTables_frame _ _ _ _ _ _ _ _ bishop_attacks)
      by reflexivity.
    destruct F1 as [(B0 & B1 & B2) _]. apply InitAttackTables_bishop; assumption.
  - intros Hocc.
    rewrite (initializeLookupTables_frame _ _ _ _ _ _ _ _ rook_attacks)
      by reflexivity.
    destruct F1 as [_ (R0 & R1 & R2)]. apply InitAttackTables_rook; assumption.
  - rewrite initializeLookupTables_lookup.
    rewrite bool_decide_eq_true_2 by lia. cbn [andb].
    rewrite between_value_InitAttackTables by assumption.
    destruct (InitAttackTables_masks MaskPawnAttacks MaskKnightAttacks
                MaskKingAttacks MaskBishopAttacks MaskRookAttacks
                BishopAttacksOnTheFly RookAttacksOnTheFly bishop_magic_numbers
                rook_magic_numbers bishop_relevant_bits rook_relevant_bits
                (attack_tables g)) as [E _].
    rewrite E. reflexivity.
Qed.

End StartupTables.

Lemma Geometry_fit_square (sq : Z) :
  check_mask (Geometry.MaskBishopAttacks sq)
  && check_magic (Geometry.MaskBishopAttacks sq)
       (Geometry.BishopAttacksOnTheFly sq) (Geometry.bishop_magic_numbers sq)
       Geometry.bishop_relevant_bits
  && check_mask (Geometry.MaskRookAttacks sq)
  && check_magic (Geometry.MaskRookAttacks sq)
       (Geometry.RookAttacksOnTheFly sq) (Geometry.rook_magic_numbers sq)
       Geometry.rook_relevant_bits = true ->
  fit_square Geometry.MaskBishopAttacks Geometry.MaskRookAttacks
    Geometry.BishopAttacksOnTheFly Geometry.RookAttacksOnTheFly
    Geometry.bishop_magic_numbers Geometry.rook_magic_numbers
    Geometry.bishop_relevant_bits Geometry.rook_relevant_bits sq.
Proof.
  intros H. apply andb_true_iff in H. destruct H as [H H4].
  apply andb_true_iff in H. destruct H as [H H3].
  apply andb_true_iff in H. destruct H as [H1 H2].
  apply check_mask_sound in H1, H3. destruct H1 as [B0 B1], H3 as [R0 R1].
  split; (split; [assumption|]; split; [assumption|]);
    apply check_magic_sound; assumption.
Qed.

Lemma InitAll_attack_tables_witness :
  SQUARES_BETWEEN_BB
    (attack_tables
       (InitAll no_pawn_attacks no_attacks no_attacks
          Geometry.MaskBishopAttacks Geometry.MaskRookAttacks
          Geometry.BishopAttacksOnTheFly Geometry.RookAttacksOnTheFly
          Geometry.bishop_magic_numbers Geometry.rook_magic_numbers
          Geometry.bishop_relevant_bits Geometry.rook_relevant_bits
          Geometry.get_file Geometry.get_rank Geometry.get_diagonal
          Geometry.get_antidiagonal xorshift_bitboard 128 exact_fl floor_log2
          exact_pow (fun _ _ => tt) (fun _ _ => tt) sample_globals))
    !! (56, 63)
  = Some 9079256848778919936.
Proof.
  destruct (InitAll_attack_tables Z unit unit no_pawn_attacks no_attacks
              no_attacks Geometry.MaskBishopAttacks Geometry.MaskRookAttacks
              Geometry.BishopAttacksOnTheFly Geometry.RookAttacksOnTheFly
              Geometry.bishop_magic_numbers Geometry.rook_magic_numbers
              Geometry.bishop_relevant_bits Geometry.rook_relevant_bits
              Geometry.get_file Geometry.get_rank Geometry.get_diagonal
              Geometry.get_antidiagonal xorshift_bitboard 128 exact_fl
              floor_log2 exact_pow (fun _ _ => tt) (fun _ _ => tt)
              sample_globals 56 63 0 ltac:(lia) ltac:(lia)) as (_ & _ & E).
  - apply Geometry_fit_square. vm_compute. reflexivity.
  - apply Geometry_fit_square. vm_compute. reflexivity.
  - rewrite E. vm_compute. reflexivity.
Defined.

(** * More on InitAttackTables *)

(** The last round that stores in a cell decides what the cell holds. *)
Lemma for_loop_last_store {St : Type} `{Countable K} {V : Type}
    (f : St -> gmap K V) (wr : Z -> K -> bool) (val : Z -> K -> V)
    (lo hi : Z) (body : Z -> St -> St) :
  (forall i t k, lo <= i < hi ->
      f (body i t) !! k = if wr i k then Some (val i k) else f t !! k) ->
  forall s k i, lo <= i < hi -> wr i k = true ->
    (forall j, i < j < hi -> wr j k = false) ->
    f (for_loop lo hi body s) !! k = Some (val i k).
Proof.
  intros Hbody s k i Hi Hw Hlater.
  pose (P := fun (n : Z) (t : St) => i < n -> f t !! k = Some (val i k)).
  assert (HP : P hi (for_loop lo hi body s)); [|apply HP; lia].
  apply for_loop_inv; [lia| |]; unfold P.
  - lia.
  - intros j t Hj IH Hlt. rewrite Hbody by lia.
    destruct (Z.eq_dec j i) as [->|Hne]; [rewrite Hw; reflexivity|].
    rewrite Hlater by lia. apply IH. lia.
Qed.

(** The loop over the occupancies of a mask, whatever the magic constant:
    the cell of an occupancy holds its attack set unless a later occupancy
    has the same index. *)
Lemma slider_loop_last (f : AttackTables -> gmap (Z * Z) Z)
    (body : Z -> AttackTables -> AttackTables)
    (square mask : Z) (attacks : Z -> Z) (magic bits : Z) :
  (forall index t,
     f (body index t)
       = <[(square, magic_hash magic bits
                      (SetOccupancy index (CountBits mask) mask))
           := attacks (SetOccupancy index (CountBits mask) mask)]> (f t)) ->
  CountBits mask < 31 ->
  forall t index, 0 <= index < 2 ^ CountBits mask ->
    (forall later, index < later < 2 ^ CountBits mask ->
       magic_hash magic bits (SetOccupancy later (CountBits mask) mask)
       <> magic_hash magic bits (SetOccupancy index (CountBits mask) mask)) ->
    f (for_loop 0 (wrap32 (Z.shiftl 1 (CountBits mask))) body t)
      !! (square, magic_hash magic bits
                    (SetOccupancy index (CountBits mask) mask))
      = Some (attacks (SetOccupancy index (CountBits mask) mask)).
Proof.
  intros Hbody Hsmall t index Hindex Hlater.
  pose proof (CountBits_nonneg mask) as Hc.
  rewrite wrap32_shiftl_1 by lia.
  pose proof (for_loop_last_store f
    (fun (i : Z) (k : Z * Z) =>
       bool_decide (k = (square, magic_hash magic bits
                                   (SetOccupancy i (CountBits mask) mask))))
    (fun (i : Z) (_ : Z * Z) =>
       attacks (SetOccupancy i (CountBits mask) mask))
    0 (2 ^ CountBits mask) body) as Hst.
  apply (Hst (fun i u k _ => ltac:(rewrite Hbody, lookup_insert;
                case_decide; case_bool_decide; congruence)) t _ index Hindex).
  - apply bool_decide_eq_true. reflexivity.
  - intros j Hj. apply bool_decide_eq_false. intros E.
    inversion E as [E']. apply (Hlater j Hj). symmetry. exact E'.
Qed.

Section AttackTablesShape.
Variable MaskPawnAttacks : Z -> Z -> Z.
Variable MaskKnightAttacks : Z -> Z.
Variable MaskKingAttacks : Z -> Z.
Variable MaskBishopAttacks : Z -> Z.
Variable MaskRookAttacks : Z -> Z.
Variable BishopAttacksOnTheFly : Z -> Z -> Z.
Variable RookAttacksOnTheFly : Z -> Z -> Z.
Variable bishop_magic_numbers : Z -> Z.
Variable rook_magic_numbers : Z -> Z.
Variable bishop_relevant_bits : Z.
Variable rook_relevant_bits : Z.

(** What the round of one square stores in the tables of the leapers. *)
Lemma attack_tables_body_leapers (square : Z) (t : AttackTables) :
  pawn_attacks (attack_tables_body MaskPawnAttacks MaskKnightAttacks
      MaskKingAttacks MaskBishopAttacks MaskRookAttacks BishopAttacksOnTheFly
      RookAttacksOnTheFly bishop_magic_numbers rook_magic_numbers
      bishop_relevant_bits rook_relevant_bits square t)
    = <[(BLACK, square) := MaskPawnAttacks BLACK square]>
        (<[(WHITE, square) := MaskPawnAttacks WHITE square]> (pawn_attacks t)) /\
  knight_attacks (attack_tables_body MaskPawnAttacks MaskKnightAttacks
      MaskKingAttacks MaskBishopAttacks MaskRookAttacks BishopAttacksOnTheFly
      RookAttacksOnTheFly bishop_magic_numbers rook_magic_numbers
      bishop_relevant_bits rook_relevant_bits square t)
    = <[square := MaskKnightAttacks square]> (knight_attacks t) /\
  king_attacks (attack_tables_body MaskPawnAttacks MaskKnightAttacks
      MaskKingAttacks MaskBishopAttacks MaskRookAttacks BishopAttacksOnTheFly
      RookAttacksOnTheFly bishop_magic_numbers rook_magic_numbers
      bishop_relevant_bits rook_relevant_bits square t)
    = <[square := MaskKingAttacks square]> (king_attacks t).
Proof.
  unfold attack_tables_body.
  set (t5 := set_bishop_masks square (MaskBishopAttacks square) _).
  set (t6 := for_loop 0 _ _ t5).
  set (t7 := set_rook_masks square (MaskRookAttacks square) t6).
  set (t8 := for_loop 0 _ _ t7).
  assert (F8 : forall {A} (g : AttackTables -> A),
            (forall k v u, g (set_rook_attacks k v u) = g u) -> g t8 = g t7).
  { intros A g Hg. apply (for_loop_frame g). intros i u _. apply Hg. }
  assert (F6 : forall {A} (g : AttackTables -> A),
            (forall k v u, g (set_bishop_attacks k v u) = g u) -> g t6 = g t5).
  { intros A g Hg. apply (for_loop_frame g). intros i u _. apply Hg. }
  split; [|split].
  - rewrite (F8 _ pawn_attacks) by reflexivity. unfold t7.
    cbn [pawn_attacks set_rook_masks].
    rewrite (F6 _ pawn_attacks) by reflexivity. reflexivity.
  - rewrite (F8 _ knight_attacks) by reflexivity. unfold t7.
    cbn [knight_attacks set_rook_masks].
    rewrite (F6 _ knight_attacks) by reflexivity. reflexivity.
  - rewrite (F8 _ king_attacks) by reflexivity. unfold t7.
    cbn [king_attacks set_rook_masks].
    rewrite (F6 _ king_attacks) by reflexivity. reflexivity.
Qed.

(** X17: when InitAttackTables returns, the tables of the pawns, the knights
    and the kings and the two tables of masks hold, at each of the 64
    squares, what the mask functions return for it. *)
Theorem InitAttackTables_leapers (t : AttackTables) (sq : Z) :
  0 <= sq < 64 ->
  pawn_attacks (InitAttackTables MaskPawnAttacks MaskKnightAttacks
      MaskKingAttacks MaskBishopAttacks MaskRookAttacks BishopAttacksOnTheFly
      RookAttacksOnTheFly bishop_magic_numbers rook_magic_numbers
      bishop_relevant_bits rook_relevant_bits t) !! (WHITE, sq)
    = Some (MaskPawnAttacks WHITE sq) /\
  pawn_attacks (InitAttackTables MaskPawnAttacks MaskKnightAttacks
      MaskKingAttacks MaskBishopAttacks MaskRookAttacks BishopAttacksOnTheFly
      RookAttacksOnTheFly bishop_magic_numbers rook_magic_numbers
      bishop_relevant_bits rook_relevant_bits t) !! (BLACK, sq)
    = Some (MaskPawnAttacks BLACK sq) /\
  knight_attacks (InitAttackTables MaskPawnAttacks MaskKnightAttacks
      MaskKingAttacks MaskBishopAttacks MaskRookAttacks BishopAttacksOnTheFly
      RookAttacksOnTheFly bishop_magic_numbers rook_magic_numbers
      bishop_relevant_bits rook_relevant_bits t) !! sq
    = Some (MaskKnightAttacks sq) /\
  king_attacks (InitAttackTables MaskPawnAttacks MaskKnightAttacks
      MaskKingAttacks MaskBishopAttacks MaskRookAttacks BishopAttacksOnTheFly
      RookAttacksOnTheFly bishop_magic_numbers rook_magic_numbers
      bishop_relevant_bits rook_relevant_bits t) !! sq
    = Some (MaskKingAttacks sq) /\
  bishop_masks (InitAttackTables MaskPawnAttacks MaskKnightAttacks
      MaskKingAttacks MaskBishopAttacks MaskRookAttacks BishopAttacksOnTheFly
      RookAttacksOnTheFly bishop_magic_numbers rook_magic_numbers
      bishop_relevant_bits rook_relevant_bits t) !! sq
    = Some (MaskBishopAttacks sq) /\
  rook_masks (InitAttackTables MaskPawnAttacks MaskKnightAttacks
      MaskKingAttacks MaskBishopAttacks MaskRookAttacks BishopAttacksOnTheFly
      RookAttacksOnTheFly bishop_magic_numbers rook_magic_numbers
      bishop_relevant_bits rook_relevant_bits t) !! sq
    = Some (MaskRookAttacks sq).
Proof.
  intros Hsq.
  destruct (InitAttackTables_masks MaskPawnAttacks MaskKnightAttacks
              MaskKingAttacks MaskBishopAttacks MaskRookAttacks
              BishopAttacksOnTheFly RookAttacksOnTheFly bishop_magic_numbers
              rook_magic_numbers bishop_relevant_bits rook_relevant_bits t)
    as [_ Hm].
  destruct (Hm sq Hsq) as [Ebm Erm]. clear Hm.
  assert (Hne : (BLACK, sq) <> (WHITE, sq)) by (intros E; inversion E).
  revert Ebm Erm. unfold InitAttackTables.
  set (body := attack_tables_body MaskPawnAttacks MaskKnightAttacks
      MaskKingAttacks MaskBishopAttacks MaskRookAttacks BishopAttacksOnTheFly
      RookAttacksOnTheFly bishop_magic_numbers rook_magic_numbers
      bishop_relevant_bits rook_relevant_bits).
  intros Ebm Erm.
  pose (P := fun (n : Z) (u : AttackTables) =>
    forall s, 0 <= s < n ->
      pawn_attacks u !! (WHITE, s) = Some (MaskPawnAttacks WHITE s) /\
      pawn_attacks u !! (BLACK, s) = Some (MaskPawnAttacks BLACK s) /\
      knight_attacks u !! s = Some (MaskKnightAttacks s) /\
      king_attacks u !! s = Some (MaskKingAttacks s)).
  assert (HP : P 64 (for_loop 0 64 body t)).
  { apply for_loop_inv; [lia| |]; unfold P.
    - intros s Hs. lia.
    - intros i u Hi IH s Hs.
      destruct (attack_tables_body_leapers i u) as (Ep & En & Ek).
      fold body in Ep, En, Ek. rewrite Ep, En, Ek.
      destruct (Z.eq_dec s i) as [->|Hsi].
      + rewrite (lookup_insert_ne _ (BLACK, i) (WHITE, i))
          by (intros E; inversion E).
        rewrite !lookup_insert_eq. auto.
      + rewrite !lookup_insert_ne by congruence. apply IH. lia. }
  destruct (HP sq Hsq) as (E1 & E2 & E3 & E4).
  split; [exact E1|]. split; [exact E2|]. split; [exact E3|].
  split; [exact E4|]. split; [exact Ebm|exact Erm].
Qed.

(** The round of a square and the row of its rook: the cell of an occupancy
    no later occupancy shares holds its attack set. *)
Lemma attack_tables_body_rook_last (square : Z) (t : AttackTables) (index : Z) :
  CountBits (MaskRookAttacks square) < 31 ->
  0 <= index < 2 ^ CountBits (MaskRookAttacks square) ->
  (forall later, index < later < 2 ^ CountBits (MaskRookAttacks square) ->
     magic_hash (rook_magic_numbers square) rook_relevant_bits
       (SetOccupancy later (CountBits (MaskRookAttacks square))
          (MaskRookAttacks square))
     <> magic_hash (rook_magic_numbers square) rook_relevant_bits
          (SetOccupancy index (CountBits (MaskRookAttacks square))
             (MaskRookAttacks square))) ->
  rook_attacks (attack_tables_body MaskPawnAttacks MaskKnightAttacks
      MaskKingAttacks MaskBishopAttacks MaskRookAttacks BishopAttacksOnTheFly
      RookAttacksOnTheFly bishop_magic_numbers rook_magic_numbers
      bishop_relevant_bits rook_relevant_bits square t)
    !! (square, magic_hash (rook_magic_numbers square) rook_relevant_bits
                  (SetOccupancy index (CountBits (MaskRookAttacks square))
                     (MaskRookAttacks square)))
    = Some (RookAttacksOnTheFly square
              (SetOccupancy index (CountBits (MaskRookAttacks square))
                 (MaskRookAttacks square))).
Proof.
  intros Hr31 Hindex Hlater. unfold attack_tables_body.
  set (t5 := set_bishop_masks square (MaskBishopAttacks square) _).
  set (t6 := for_loop 0 _ _ t5).
  set (t7 := set_rook_masks square (MaskRookAttacks square) t6).
  assert (Er : rd (rook_masks t7) square = MaskRookAttacks square).
  { unfold rd, t7. cbn [rook_masks set_rook_masks]. rewrite lookup_insert_eq.
    reflexivity. }
  rewrite Er.
  apply (slider_loop_last rook_attacks
           (rook_index_body RookAttacksOnTheFly rook_magic_numbers
              rook_relevant_bits square
              (CountBits (MaskRookAttacks square)) (MaskRookAttacks square))
           square (MaskRookAttacks square)
           (RookAttacksOnTheFly square) (rook_magic_numbers square)
           rook_relevant_bits (fun _ _ => eq_refl) Hr31 t7 index Hindex Hlater).
Qed.

Lemma attack_tables_body_bishop_last (square : Z) (t : AttackTables) (index : Z) :
  CountBits (MaskBishopAttacks square) < 31 ->
  0 <= index < 2 ^ CountBits (MaskBishopAttacks square) ->
  (forall later, index < later < 2 ^ CountBits (MaskBishopAttacks square) ->
     magic_hash (bishop_magic_numbers square) bishop_relevant_bits
       (SetOccupancy later (CountBits (MaskBishopAttacks square))
          (MaskBishopAttacks square))
     <> magic_hash (bishop_magic_numbers square) bishop_relevant_bits
          (SetOccupancy index (CountBits (MaskBishopAttacks square))
             (MaskBishopAttacks square))) ->
  bishop_attacks (attack_tables_body MaskPawnAttacks MaskKnightAttacks
      MaskKingAttacks MaskBishopAttacks MaskRookAttacks BishopAttacksOnTheFly
      RookAttacksOnTheFly bishop_magic_numbers rook_magic_numbers
      bishop_relevant_bits rook_relevant_bits square t)
    !! (square, magic_hash (bishop_magic_numbers square) bishop_relevant_bits
                  (SetOccupancy index (CountBits (MaskBishopAttacks square))
                     (MaskBishopAttacks square)))
    = Some (BishopAttacksOnTheFly square
              (SetOccupancy index (CountBits (MaskBishopAttacks square))
                 (MaskBishopAttacks square))).
Proof.
  intros Hb31 Hindex Hlater. unfold attack_tables_body.
  set (t5 := set_bishop_masks square (MaskBishopAttacks square) _).
  assert (Eb : rd (bishop_masks t5) square = MaskBishopAttacks square).
  { unfold rd, t5. cbn [bishop_masks set_bishop_masks]. rewrite lookup_insert_eq.
    reflexivity. }
  rewrite Eb.
  set (t6 := for_loop 0 _ _ t5).
  set (t7 := set_rook_masks square (MaskRookAttacks square) t6).
  rewrite (for_loop_frame bishop_attacks) by reflexivity.
  unfold t7. cbn [bishop_attacks set_rook_masks]. unfold t6.
  apply (slider_loop_last bishop_attacks
           (bishop_index_body BishopAttacksOnTheFly bishop_magic_numbers
              bishop_relevant_bits square
              (CountBits (MaskBishopAttacks square)) (MaskBishopAttacks square))
           square (MaskBishopAttacks square)
           (BishopAttacksOnTheFly square) (bishop_magic_numbers square)
           bishop_relevant_bits (fun _ _ => eq_refl) Hb31 t5 index Hindex Hlater).
Qed.

(** X18: whatever the magic constants are, when InitAttackTables returns
    the cell of an occupancy in the row of a square holds the attack set of
    that occupancy if no occupancy made after it has the same magic index: of
    the occupancies that share a cell, the last one made is the one the cell
    answers for. *)
Theorem InitAttackTables_last_occupancy (t : AttackTables) (s index : Z) :
  0 <= s < 64 ->
  (CountBits (MaskBishopAttacks s) < 31 ->
   0 <= index < 2 ^ CountBits (MaskBishopAttacks s) ->
   last_at_its_index (MaskBishopAttacks s) (bishop_magic_numbers s)
     bishop_relevant_bits index ->
   bishop_attacks (InitAttackTables MaskPawnAttacks MaskKnightAttacks
       MaskKingAttacks MaskBishopAttacks MaskRookAttacks
       BishopAttacksOnTheFly RookAttacksOnTheFly bishop_magic_numbers
       rook_magic_numbers bishop_relevant_bits rook_relevant_bits t)
     !! (s, magic_hash (bishop_magic_numbers s) bishop_relevant_bits
              (occupancy_of (MaskBishopAttacks s) index))
     = Some (BishopAttacksOnTheFly s
               (occupancy_of (MaskBishopAttacks s) index))) /\
  (CountBits (MaskRookAttacks s) < 31 ->
   0 <= index < 2 ^ CountBits (MaskRookAttacks s) ->
   last_at_its_index (MaskRookAttacks s) (rook_magic_numbers s)
     rook_relevant_bits index ->
   rook_attacks (InitAttackTables MaskPawnAttacks MaskKnightAttacks
       MaskKingAttacks MaskBishopAttacks MaskRookAttacks
       BishopAttacksOnTheFly RookAttacksOnTheFly bishop_magic_numbers
       rook_magic_numbers bishop_relevant_bits rook_relevant_bits t)
     !! (s, magic_hash (rook_magic_numbers s) rook_relevant_bits
              (occupancy_of (MaskRookAttacks s) index))
     = Some (RookAttacksOnTheFly s (occupancy_of (MaskRookAttacks s) index))).
Proof.
  intros Hs. unfold InitAttackTables, last_at_its_index, occupancy_of.
  set (body := attack_tables_body MaskPawnAttacks MaskKnightAttacks
      MaskKingAttacks MaskBishopAttacks MaskRookAttacks BishopAttacksOnTheFly
      RookAttacksOnTheFly bishop_magic_numbers rook_magic_numbers
      bishop_relevant_bits rook_relevant_bits).
  split; intros H31 Hindex Hlast.
  - pose (P := fun (n : Z) (u : AttackTables) =>
      s < n ->
      bishop_attacks u
        !! (s, magic_hash (bishop_magic_numbers s) bishop_relevant_bits
                 (SetOccupancy index (CountBits (MaskBishopAttacks s))
                    (MaskBishopAttacks s)))
        = Some (BishopAttacksOnTheFly s
                  (SetOccupancy index (CountBits (MaskBishopAttacks s))
                     (MaskBishopAttacks s)))).
    assert (HP : P 64 (for_loop 0 64 body t)); [|apply HP; lia].
    apply for_loop_inv; [lia| |]; unfold P.
    + lia.
    + intros i u Hi IH Hlt. destruct (Z.eq_dec i s) as [->|Hne].
      * apply attack_tables_body_bishop_last; assumption.
      * destruct (attack_tables_body_frame MaskPawnAttacks MaskKnightAttacks
          MaskKingAttacks MaskBishopAttacks MaskRookAttacks
          BishopAttacksOnTheFly RookAttacksOnTheFly bishop_magic_numbers
          rook_magic_numbers bishop_relevant_bits rook_relevant_bits i u)
          as (_ & _ & _ & HB & _).
        fold body in HB. rewrite HB by (cbn [fst]; congruence). apply IH. lia.
  - pose (P := fun (n : Z) (u : AttackTables) =>
      s < n ->
      rook_attacks u
        !! (s, magic_hash (rook_magic_numbers s) rook_relevant_bits
                 (SetOccupancy index (CountBits (MaskRookAttacks s))
                    (MaskRookAttacks s)))
        = Some (RookAttacksOnTheFly s
                  (SetOccupancy index (CountBits (MaskRookAttacks s))
                     (MaskRookAttacks s)))).
    assert (HP : P 64 (for_loop 0 64 body t)); [|apply HP; lia].
    apply for_loop_inv; [lia| |]; unfold P.
    + lia.
    + intros i u Hi IH Hlt. destruct (Z.eq_dec i s) as [->|Hne].
      * apply attack_tables_body_rook_last; assumption.
      * destruct (attack_tables_body_frame MaskPawnAttacks MaskKnightAttacks
          MaskKingAttacks MaskBishopAttacks MaskRookAttacks
          BishopAttacksOnTheFly RookAttacksOnTheFly bishop_magic_numbers
          rook_magic_numbers bishop_relevant_bits rook_relevant_bits i u)
          as (_ & _ & _ & _ & HR).
        fold body in HR. rewrite HR by (cbn [fst]; congruence). apply IH. lia.
Qed.

End AttackTablesShape.

Lemma InitAttackTables_leapers_witness :
  rook_masks (InitAttackTables no_pawn_attacks no_attacks no_attacks
      Geometry.MaskBishopAttacks Geometry.MaskRookAttacks
      Geometry.BishopAttacksOnTheFly Geometry.RookAttacksOnTheFly
      Geometry.bishop_magic_numbers Geometry.rook_magic_numbers
      Geometry.bishop_relevant_bits Geometry.rook_relevant_bits zero_tables)
    !! 0 = Some 282578800148862.
Proof.
  destruct (InitAttackTables_leapers no_pawn_attacks no_attacks no_attacks
      Geometry.MaskBishopAttacks Geometry.MaskRookAttacks
      Geometry.BishopAttacksOnTheFly Geometry.RookAttacksOnTheFly
      Geometry.bishop_magic_numbers Geometry.rook_magic_numbers
      Geometry.bishop_relevant_bits Geometry.rook_relevant_bits zero_tables
      0 ltac:(lia)) as (_ & _ & _ & _ & _ & E).
  rewrite E. reflexivity.
Defined.

(** The occupancy made last, of all the squares of the mask, is last at its
    index under any constant: here under the constant 0, which sends every
    occupancy to the index 0. *)
Lemma InitAttackTables_last_occupancy_witness :
  rook_attacks (InitAttackTables no_pawn_attacks no_attacks no_attacks
      Geometry.MaskBishopAttacks Geometry.MaskRookAttacks
      Geometry.BishopAttacksOnTheFly Geometry.RookAttacksOnTheFly
      (fun _ => 0) (fun _ => 0)
      Geometry.bishop_relevant_bits Geometry.rook_relevant_bits zero_tables)
    !! (0, 0) = Some 258.
Proof.
  destruct (InitAttackTables_last_occupancy no_pawn_attacks no_attacks
      no_attacks Geometry.MaskBishopAttacks Geometry.MaskRookAttacks
      Geometry.BishopAttacksOnTheFly Geometry.RookAttacksOnTheFly
      (fun _ => 0) (fun _ => 0)
      Geometry.bishop_relevant_bits Geometry.rook_relevant_bits zero_tables
      0 4095 ltac:(lia)) as [_ E].
  apply E.
  - vm_compute. reflexivity.
  - vm_compute. split; [discriminate|reflexivity].
  - intros later Hlater. exfalso. revert Hlater.
    change (2 ^ CountBits (Geometry.MaskRookAttacks 0)) with 4096. lia.
Defined.

(** * The counter moves after InitNewGame *)

Lemma offset_cases (i : Z) : 0 <= i < 4 -> i = 0 \/ i = 1 \/ i = 2 \/ i = 3.
Proof. lia. Qed.

(** Every byte of what [memset] leaves in an [int] is the low byte of its
    value. *)
Lemma memset_int_bytes (c i : Z) :
  0 <= i < 4 -> byte_of (memset_int c) i = c mod 256.
Proof.
  intros Hi. unfold memset_int, byte_of.
  pose proof (Z.mod_pos_bound c 256 ltac:(lia)) as Hb.
  set (b := c mod 256) in *.
  destruct (wrap32_multiple (b + b * 2 ^ 8 + b * 2 ^ 16 + b * 2 ^ 24)) as [k ->].
  destruct (offset_cases i Hi) as [-> | [-> | [-> | ->]]].
  - symmetry. apply (Z.mod_unique_pos _ _ (b * 65793 + k * 16777216)); [lia|].
    change (256 ^ 0) with 1. rewrite Z.div_1_r. lia.
  - symmetry. apply (Z.mod_unique_pos _ _ (b * 257 + k * 65536)); [lia|].
    change (256 ^ 1) with 256.
    replace (b + b * 2 ^ 8 + b * 2 ^ 16 + b * 2 ^ 24 + k * 2 ^ 32)
      with (b + (b + b * 256 + b * 65536 + k * 16777216) * 256) by lia.
    rewrite Z.div_add by lia. rewrite Z.div_small by lia. lia.
  - symmetry. apply (Z.mod_unique_pos _ _ (b + k * 256)); [lia|].
    change (256 ^ 2) with 65536.
    replace (b + b * 2 ^ 8 + b * 2 ^ 16 + b * 2 ^ 24 + k * 2 ^ 32)
      with (b + b * 256 + (b + b * 256 + k * 65536) * 65536) by lia.
    rewrite Z.div_add by lia. rewrite Z.div_small by lia. lia.
  - symmetry. apply (Z.mod_unique_pos _ _ k); [lia|].
    change (256 ^ 3) with 16777216.
    replace (b + b * 2 ^ 8 + b * 2 ^ 16 + b * 2 ^ 24 + k * 2 ^ 32)
      with (b + b * 256 + b * 65536 + (b + k * 256) * 16777216) by lia.
    rewrite Z.div_add by lia. rewrite Z.div_small by lia. lia.
Qed.

(** An [int] is the sum of its four bytes, up to a multiple of 2^32. *)
Lemma int_of_bytes (z : Z) :
  exists k : Z,
    z = byte_of z 0 + byte_of z 1 * 2 ^ 8 + byte_of z 2 * 2 ^ 16
        + byte_of z 3 * 2 ^ 24 + k * 2 ^ 32.
Proof.
  exists (z / 2 ^ 32). unfold byte_of.
  change (256 ^ 0) with 1. change (256 ^ 1) with 256.
  change (256 ^ 2) with 65536. change (256 ^ 3) with 16777216.
  rewrite Z.div_1_r.
  pose proof (Z.div_mod z 256 ltac:(lia)) as E0.
  pose proof (Z.div_mod (z / 256) 256 ltac:(lia)) as E1.
  pose proof (Z.div_mod (z / 65536) 256 ltac:(lia)) as E2.
  pose proof (Z.div_mod (z / 16777216) 256 ltac:(lia)) as E3.
  rewrite Z.div_div in E1 by lia. rewrite Z.div_div in E2 by lia.
  rewrite Z.div_div in E3 by lia.
  change (256 * 256) with 65536 in E1.
  change (65536 * 256) with 16777216 in E2.
  change (16777216 * 256) with (2 ^ 32) in E3.
  lia.
Qed.

Lemma memset_int_fixed (c : Z) :
  - 2 ^ 31 <= c < 2 ^ 31 ->
  (memset_int c = c <-> forall i, 0 <= i < 4 -> byte_of c i = c mod 256).
Proof.
  intros Hc. split.
  - intros E i Hi. rewrite <- E at 1. apply memset_int_bytes, Hi.
  - intros Hbytes. unfold memset_int.
    destruct (int_of_bytes c) as [k Ek].
    rewrite !Hbytes in Ek by lia.
    rewrite (wrap32_congr _ c (- k)) by lia.
    apply wrap32_eq_iff. exact Hc.
Qed.

Section NewGameShape.
Variable MAXDEPTH : Z.
Variable NOMOVE : Z.
Variable Board : Type.
Variable Histories : Type.
Variable Limits : Type.
Variable TTEntry : Type.
Variable parse_position_text : string -> Board.
Variable CleanHistories : SearchData Histories -> SearchData Histories.
Variable StopHelperThreads :
  list (ThreadData Board Histories Limits) ->
  list (ThreadData Board Histories Limits).

(** X19: InitNewGame clears the counter moves with [memset], which stores the
    low byte of [NOMOVE] in every byte: each counter move CleanHistories left
    is replaced by the [int] whose four bytes are that byte, which is
    [NOMOVE] exactly when the four bytes of [NOMOVE] are equal. *)
Theorem InitNewGame_counterMoves_bytes (now : Z)
    (e : Engine Board Histories Limits TTEntry) :
  - 2 ^ 31 <= NOMOVE < 2 ^ 31 ->
  length (counterMoves (sd (worker (InitNewGame MAXDEPTH NOMOVE
            parse_position_text CleanHistories StopHelperThreads now e))))
    = length (counterMoves (CleanHistories (sd (worker e)))) /\
  Forall (fun move =>
            - 2 ^ 31 <= move < 2 ^ 31 /\
            (forall i, 0 <= i < 4 -> byte_of move i = NOMOVE mod 256) /\
            (move = NOMOVE <->
             forall i, 0 <= i < 4 -> byte_of NOMOVE i = NOMOVE mod 256))
    (counterMoves (sd (worker (InitNewGame MAXDEPTH NOMOVE
            parse_position_text CleanHistories StopHelperThreads now e)))).
Proof.
  intros Hint. unfold InitNewGame. cbn [worker sd counterMoves].
  split; [apply length_fmap|].
  apply Forall_fmap, Forall_forall. intros old _. cbn beta.
  split; [apply wrap32_range|]. split.
  - intros i Hi. apply memset_int_bytes, Hi.
  - apply memset_int_fixed, Hint.
Qed.

Lemma PvTable_eq (t u : PvTable) :
  pvLength t = pvLength u -> pvArray t = pvArray u -> t = u.
Proof. destruct t, u. cbn. intros. subst. reflexivity. Qed.

(** The cleaned PV table depends on the cells outside the cleaned block
    only. *)
Lemma clean_pv_table_same (t u : PvTable) :
  (forall i, ~ 0 <= i <= MAXDEPTH -> pvLength t !! i = pvLength u !! i) ->
  (forall k, ~ (0 <= k.1 <= MAXDEPTH /\ 0 <= k.2 <= MAXDEPTH) ->
     pvArray t !! k = pvArray u !! k) ->
  clean_pv_table MAXDEPTH NOMOVE t = clean_pv_table MAXDEPTH NOMOVE u.
Proof.
  intros HL HA.
  destruct (clean_pv_table_lookup MAXDEPTH NOMOVE t) as [Lt At].
  destruct (clean_pv_table_lookup MAXDEPTH NOMOVE u) as [Lu Au].
  apply PvTable_eq; apply map_eq.
  - intros i. rewrite Lt, Lu. case_bool_decide; [reflexivity|]. apply HL.
    assumption.
  - intros k. rewrite At, Au. case_bool_decide; [reflexivity|]. apply HA.
    assumption.
Qed.

(** X26: InitNewGame forgets the game before: two engines whose workers have
    the same search data and the same limits are reset to the same state,
    whatever their positions, played positions, counters, start times,
    PV tables (up to [MAXDEPTH]), transposition tables and helper threads
    were. *)
Theorem InitNewGame_forgets (now : Z)
    (e e' : Engine Board Histories Limits TTEntry) :
  sd (worker e) = sd (worker e') ->
  limits (info (worker e)) = limits (info (worker e')) ->
  (forall i, ~ 0 <= i <= MAXDEPTH ->
     pvLength (pvTable (worker e)) !! i = pvLength (pvTable (worker e')) !! i) ->
  (forall k, ~ (0 <= k.1 <= MAXDEPTH /\ 0 <= k.2 <= MAXDEPTH) ->
     pvArray (pvTable (worker e)) !! k = pvArray (pvTable (worker e')) !! k) ->
  InitNewGame MAXDEPTH NOMOVE parse_position_text CleanHistories
    StopHelperThreads now e
  = InitNewGame MAXDEPTH NOMOVE parse_position_text CleanHistories
      StopHelperThreads now e'.
Proof.
  intros Hsd Hlimits HL HA. unfold InitNewGame.
  rewrite Hsd, Hlimits, (clean_pv_table_same _ _ HL HA). reflexivity.
Qed.

End NewGameShape.

Lemma InitNewGame_counterMoves_bytes_witness :
  counterMoves (sd (worker (InitNewGame 128 7 sample_parser id id 1000
                              sample_engine)))
    = [117901063; 117901063; 117901063] /\
  117901063 <> 7.
Proof.
  destruct (InitNewGame_counterMoves_bytes 128 7 unit unit unit unit
              sample_parser id id 1000 sample_engine ltac:(lia)) as [_ H].
  split; [reflexivity|]. rewrite Forall_forall in H.
  destruct (H 117901063 ltac:(left)) as (_ & _ & Hiff).
  intros E. pose proof (proj1 Hiff E 1 ltac:(lia)) as E1. vm_compute in E1.
  discriminate E1.
Defined.

Lemma InitNewGame_forgets_witness :
  InitNewGame 128 0 sample_parser id id 1000 sample_engine
  = InitNewGame 128 0 sample_parser id id 1000 fresh_engine.
Proof.
  apply InitNewGame_forgets; try reflexivity.
  - intros i Hi. cbn. rewrite lookup_singleton_ne by lia. reflexivity.
  - intros k Hk. cbn. rewrite lookup_singleton_ne; [reflexivity|].
    intros <-. apply Hk. cbn. lia.
Defined.

(** * Running initHashKeys again *)

Section HashKeysAgain.
Variable rng : Type.
Variable GetRandomBitboardNumber : rng -> Z * rng.

(** X20: a second run of initHashKeys does not rebuild the keys of the first:
    it goes on in the generator's sequence, and replaces every key by the
    number drawn 849 places later. *)
Theorem initHashKeys_again (s : HashState rng) :
  (forall t sq, 0 <= t < 12 -> 0 <= sq < 64 ->
     PieceKeys (keys (initHashKeys rng GetRandomBitboardNumber
                        (initHashKeys rng GetRandomBitboardNumber s)))
       !! (t, sq)
     = Some (draw rng GetRandomBitboardNumber (849 + (64 * t + sq))
               (random_state s))) /\
  (forall sq, 0 <= sq < 64 ->
     enpassant_keys (keys (initHashKeys rng GetRandomBitboardNumber
                             (initHashKeys rng GetRandomBitboardNumber s)))
       !! sq
     = Some (draw rng GetRandomBitboardNumber (849 + (768 + sq))
               (random_state s))) /\
  (forall i, 0 <= i < 16 ->
     CastleKeys (keys (initHashKeys rng GetRandomBitboardNumber
                         (initHashKeys rng GetRandomBitboardNumber s)))
       !! i
     = Some (draw rng GetRandomBitboardNumber (849 + (832 + i))
               (random_state s))) /\
  SideKey (keys (initHashKeys rng GetRandomBitboardNumber
                   (initHashKeys rng GetRandomBitboardNumber s)))
    = draw rng GetRandomBitboardNumber (849 + 848) (random_state s) /\
  random_state (initHashKeys rng GetRandomBitboardNumber
                  (initHashKeys rng GetRandomBitboardNumber s))
    = rng_after rng GetRandomBitboardNumber (849 + 849) (random_state s).
Proof.
  destruct (initHashKeys_spec rng GetRandomBitboardNumber s)
    as (_ & _ & _ & _ & G1).
  destruct (initHashKeys_spec rng GetRandomBitboardNumber
              (initHashKeys rng GetRandomBitboardNumber s))
    as (HP & HE & HC & HS & G2).
  rewrite G1 in HP, HE, HC, HS, G2.
  split; [|split; [|split; [|split]]].
  - intros t sq Ht Hsq. rewrite HP, bool_decide_eq_true_2 by lia.
    rewrite draw_after by lia. reflexivity.
  - intros sq Hsq. rewrite HE, bool_decide_eq_true_2 by lia.
    rewrite draw_after by lia. reflexivity.
  - intros i Hi. rewrite HC, bool_decide_eq_true_2 by lia.
    rewrite draw_after by lia. reflexivity.
  - rewrite HS, draw_after by lia. reflexivity.
  - rewrite G2, rng_after_add by lia. reflexivity.
Qed.

End HashKeysAgain.

(** * Steps that overwrite a table *)

Section Overwrites.
Context {St : Type} `{Countable K} {V : Type}.
Variable inv : St -> Prop.
Variable f : St -> gmap K V.

Lemma overwrites_id : overwrites inv f (fun s => s).
Proof.
  exists ∅. intros s Hs. split; [exact Hs|]. rewrite (left_id ∅ (∪)). reflexivity.
Qed.

Lemma overwrites_compose (F G : St -> St) :
  overwrites inv f F -> overwrites inv f G ->
  overwrites inv f (fun s => G (F s)).
Proof.
  intros [W1 H1] [W2 H2]. exists (W2 ∪ W1). intros s Hs.
  destruct (H1 s Hs) as [Hs1 E1]. destruct (H2 (F s) Hs1) as [Hs2 E2].
  split; [exact Hs2|]. rewrite E2, E1. apply (assoc (∪)).
Qed.

Lemma overwrites_run_steps (steps : list (St -> St)) :
  Forall (overwrites inv f) steps -> overwrites inv f (run_steps steps).
Proof.
  induction 1 as [|step steps Hstep _ IH].
  - apply overwrites_id.
  - apply (overwrites_compose step (run_steps steps) Hstep IH).
Qed.

Lemma overwrites_for_loop (lo hi : Z) (body : Z -> St -> St) :
  (forall i, lo <= i < hi -> overwrites inv f (body i)) ->
  overwrites inv f (for_loop lo hi body).
Proof.
  intros Hbody. unfold for_loop.
  assert (Hl : Forall (fun i => lo <= i < hi) (seqZ lo (hi - lo))).
  { apply Forall_forall. intros i Hi. apply elem_of_seqZ in Hi. lia. }
  induction Hl as [|i l Hi _ IH].
  - apply overwrites_id.
  - apply (overwrites_compose (body i)
             (fun s => foldl (fun s i => body i s) s l) (Hbody i Hi) IH).
Qed.

Lemma overwrites_ext (F G : St -> St) :
  (forall s, F s = G s) -> overwrites inv f F -> overwrites inv f G.
Proof.
  intros E [W HW]. exists W. intros s Hs. rewrite <- E. apply HW, Hs.
Qed.

(** Running such a step again changes nothing in the table. *)
Lemma overwrites_again (F : St -> St) (s : St) :
  overwrites inv f F -> inv s -> f (F (F s)) = f (F s).
Proof.
  intros [W HW] Hs. destruct (HW s Hs) as [Hs1 E1].
  destruct (HW (F s) Hs1) as [_ E2]. rewrite E2, E1.
  rewrite (assoc (∪)), (idemp (∪)). reflexivity.
Qed.

(** A step that overwrites a table in one way only. *)
Lemma overwrites_same (F : St -> St) (s u : St) :
  overwrites inv f F -> inv s -> inv u -> f s = f u -> f (F s) = f (F u).
Proof.
  intros [W HW] Hs Hu E. destruct (HW s Hs) as [_ ->].
  destruct (HW u Hu) as [_ ->]. rewrite E. reflexivity.
Qed.

End Overwrites.

(** * Running the initialisers again *)

Lemma AttackTables_eq (t u : AttackTables) :
  pawn_attacks t = pawn_attacks u -> knight_attacks t = knight_attacks u ->
  king_attacks t = king_attacks u -> bishop_masks t = bishop_masks u ->
  rook_masks t = rook_masks u -> bishop_attacks t = bishop_attacks u ->
  rook_attacks t = rook_attacks u ->
  SQUARES_BETWEEN_BB t = SQUARES_BETWEEN_BB u -> t = u.
Proof. destruct t, u. cbn. intros. subst. reflexivity. Qed.

Ltac tables_cbn :=
  cbn [pawn_attacks knight_attacks king_attacks bishop_masks rook_masks
       bishop_attacks rook_attacks SQUARES_BETWEEN_BB
       set_pawn_attacks set_knight_attacks set_king_attacks set_bishop_masks
       set_rook_masks set_bishop_attacks set_rook_attacks
       set_SQUARES_BETWEEN_BB].

(** A store in one of the tables overwrites that table and leaves the others
    alone. *)
Ltac store_overwrites :=
  first
    [ exists ∅; intros ? Hs; split; [exact Hs|]; tables_cbn;
      rewrite (left_id ∅ (∪)); reflexivity
    | eexists; intros ? Hs; split; [exact Hs|]; tables_cbn;
      apply insert_union_singleton_l ].

Section TablesAgain.
Variable MaskPawnAttacks : Z -> Z -> Z.
Variable MaskKnightAttacks : Z -> Z.
Variable MaskKingAttacks : Z -> Z.
Variable MaskBishopAttacks : Z -> Z.
Variable MaskRookAttacks : Z -> Z.
Variable BishopAttacksOnTheFly : Z -> Z -> Z.
Variable RookAttacksOnTheFly : Z -> Z -> Z.
Variable bishop_magic_numbers : Z -> Z.
Variable rook_magic_numbers : Z -> Z.
Variable bishop_relevant_bits : Z.
Variable rook_relevant_bits : Z.

(** The round of a square as a list of stores and loops of stores. *)
Lemma attack_tables_body_steps (square : Z) (t : AttackTables) :
  run_steps
    [set_pawn_attacks (WHITE, square) (MaskPawnAttacks WHITE square);
     set_pawn_attacks (BLACK, square) (MaskPawnAttacks BLACK square);
     set_knight_attacks square (MaskKnightAttacks square);
     set_king_attacks square (MaskKingAttacks square);
     set_bishop_masks square (MaskBishopAttacks square);
     for_loop 0 (wrap32 (Z.shiftl 1 (CountBits (MaskBishopAttacks square))))
       (bishop_index_body BishopAttacksOnTheFly bishop_magic_numbers
          bishop_relevant_bits square (CountBits (MaskBishopAttacks square))
          (MaskBishopAttacks square));
     set_rook_masks square (MaskRookAttacks square);
     for_loop 0 (wrap32 (Z.shiftl 1 (CountBits (MaskRookAttacks square))))
       (rook_index_body RookAttacksOnTheFly rook_magic_numbers
          rook_relevant_bits square (CountBits (MaskRookAttacks square))
          (MaskRookAttacks square))] t
  = attack_tables_body MaskPawnAttacks MaskKnightAttacks MaskKingAttacks
      MaskBishopAttacks MaskRookAttacks BishopAttacksOnTheFly
      RookAttacksOnTheFly bishop_magic_numbers rook_magic_numbers
      bishop_relevant_bits rook_relevant_bits square t.
Proof.
  unfold attack_tables_body, run_steps. cbn [foldl].
  set (t5 := set_bishop_masks square (MaskBishopAttacks square) _).
  assert (Eb : rd (bishop_masks t5) square = MaskBishopAttacks square).
  { unfold rd, t5. cbn [bishop_masks set_bishop_masks].
    rewrite lookup_insert_eq. reflexivity. }
  rewrite Eb.
  set (t6 := for_loop 0 _ _ t5).
  set (t7 := set_rook_masks square (MaskRookAttacks square) t6).
  assert (Er : rd (rook_masks t7) square = MaskRookAttacks square).
  { unfold rd, t7. cbn [rook_masks set_rook_masks].
    rewrite lookup_insert_eq. reflexivity. }
  rewrite Er. reflexivity.
Qed.

(** InitAttackTables overwrites each of its tables: what it stores does not
    depend on what the tables held. *)
Lemma InitAttackTables_overwrites `{Countable K}
    (f : AttackTables -> gmap K Z) :
  (forall k v, overwrites (fun _ => True) f (set_pawn_attacks k v)) ->
  (forall k v, overwrites (fun _ => True) f (set_knight_attacks k v)) ->
  (forall k v, overwrites (fun _ => True) f (set_king_attacks k v)) ->
  (forall k v, overwrites (fun _ => True) f (set_bishop_masks k v)) ->
  (forall k v, overwrites (fun _ => True) f (set_rook_masks k v)) ->
  (forall k v, overwrites (fun _ => True) f (set_bishop_attacks k v)) ->
  (forall k v, overwrites (fun _ => True) f (set_rook_attacks k v)) ->
  overwrites (fun _ => True) f
    (InitAttackTables MaskPawnAttacks MaskKnightAttacks MaskKingAttacks
       MaskBishopAttacks MaskRookAttacks BishopAttacksOnTheFly
       RookAttacksOnTheFly bishop_magic_numbers rook_magic_numbers
       bishop_relevant_bits rook_relevant_bits).
Proof.
  intros Hp Hn Hk Hbm Hrm Hba Hra. unfold InitAttackTables.
  apply overwrites_for_loop. intros square _.
  eapply overwrites_ext; [apply attack_tables_body_steps|].
  apply overwrites_run_steps.
  repeat (apply Forall_cons; split); try apply Forall_nil; auto.
  - apply overwrites_for_loop. intros index _. apply Hba.
  - apply overwrites_for_loop. intros index _. apply Hra.
Qed.

(** X22: running InitAttackTables a second time changes nothing: what it
    stores in a cell does not depend on what the tables held, whatever the
    magic constants are. *)
Theorem InitAttackTables_idempotent (t : AttackTables) :
  InitAttackTables MaskPawnAttacks MaskKnightAttacks MaskKingAttacks
    MaskBishopAttacks MaskRookAttacks BishopAttacksOnTheFly
    RookAttacksOnTheFly bishop_magic_numbers rook_magic_numbers
    bishop_relevant_bits rook_relevant_bits
    (InitAttackTables MaskPawnAttacks MaskKnightAttacks MaskKingAttacks
       MaskBishopAttacks MaskRookAttacks BishopAttacksOnTheFly
       RookAttacksOnTheFly bishop_magic_numbers rook_magic_numbers
       bishop_relevant_bits rook_relevant_bits t)
  = InitAttackTables MaskPawnAttacks MaskKnightAttacks MaskKingAttacks
      MaskBishopAttacks MaskRookAttacks BishopAttacksOnTheFly
      RookAttacksOnTheFly bishop_magic_numbers rook_magic_numbers
      bishop_relevant_bits rook_relevant_bits t.
Proof.
  apply AttackTables_eq;
    apply (overwrites_again (fun _ => True)); try exact I;
    apply InitAttackTables_overwrites; intros; store_overwrites.
Qed.

Lemma InitAttackTables_between (t : AttackTables) :
  SQUARES_BETWEEN_BB
    (InitAttackTables MaskPawnAttacks MaskKnightAttacks MaskKingAttacks
       MaskBishopAttacks MaskRookAttacks BishopAttacksOnTheFly
       RookAttacksOnTheFly bishop_magic_numbers rook_magic_numbers
       bishop_relevant_bits rook_relevant_bits t)
  = SQUARES_BETWEEN_BB t.
Proof.
  apply (InitAttackTables_masks MaskPawnAttacks MaskKnightAttacks
           MaskKingAttacks MaskBishopAttacks MaskRookAttacks
           BishopAttacksOnTheFly RookAttacksOnTheFly bishop_magic_numbers
           rook_magic_numbers bishop_relevant_bits rook_relevant_bits t).
Qed.

End TablesAgain.

Section LookupTablesAgain.
Variable bishop_magic_numbers : Z -> Z.
Variable rook_magic_numbers : Z -> Z.
Variable bishop_relevant_bits : Z.
Variable rook_relevant_bits : Z.
Variable get_file : Z -> Z.
Variable get_rank : Z -> Z.
Variable get_diagonal : Z -> Z.
Variable get_antidiagonal : Z -> Z.

(** On tables with the sliders of [t], the round of a pair of squares stores
    a value that the sliders of [t] determine. *)
Lemma squares_between_body_overwrites (t : AttackTables) (sq1 sq2 : Z) :
  overwrites (same_sliders t) SQUARES_BETWEEN_BB
    (squares_between_body bishop_magic_numbers rook_magic_numbers
       bishop_relevant_bits rook_relevant_bits get_file get_rank get_diagonal
       get_antidiagonal sq1 sq2).
Proof.
  exists (if on_a_line get_file get_rank get_diagonal get_antidiagonal sq1 sq2
          then {[(sq1, sq2) :=
                   between_value bishop_magic_numbers rook_magic_numbers
                     bishop_relevant_bits rook_relevant_bits get_file get_rank
                     t sq1 sq2]}
          else ∅).
  intros u Hu.
  destruct (squares_between_body_spec bishop_magic_numbers rook_magic_numbers
              bishop_relevant_bits rook_relevant_bits get_file get_rank
              get_diagonal get_antidiagonal t u sq1 sq2 Hu) as [Hinv Hk].
  split; [exact Hinv|]. apply map_eq. intros k. rewrite Hk.
  destruct (on_a_line get_file get_rank get_diagonal get_antidiagonal sq1 sq2).
  - rewrite andb_true_r, <- insert_union_singleton_l, lookup_insert.
    case_bool_decide as Hd; case_decide as Hd'; try congruence.
    subst k. reflexivity.
  - rewrite andb_false_r, (left_id ∅ (∪)). reflexivity.
Qed.

Lemma same_sliders_refl (t : AttackTables) : same_sliders t t.
Proof. repeat split. Qed.

Lemma initializeLookupTables_overwrites (t : AttackTables) :
  overwrites (same_sliders t) SQUARES_BETWEEN_BB
    (initializeLookupTables bishop_magic_numbers rook_magic_numbers
       bishop_relevant_bits rook_relevant_bits get_file get_rank get_diagonal
       get_antidiagonal).
Proof.
  unfold initializeLookupTables.
  apply overwrites_for_loop. intros sq1 _.
  apply overwrites_for_loop. intros sq2 _.
  apply squares_between_body_overwrites.
Qed.

(** X23: running initializeLookupTables a second time changes nothing. *)
Theorem initializeLookupTables_idempotent (t : AttackTables) :
  initializeLookupTables bishop_magic_numbers rook_magic_numbers
    bishop_relevant_bits rook_relevant_bits get_file get_rank get_diagonal
    get_antidiagonal
    (initializeLookupTables bishop_magic_numbers rook_magic_numbers
       bishop_relevant_bits rook_relevant_bits get_file get_rank get_diagonal
       get_antidiagonal t)
  = initializeLookupTables bishop_magic_numbers rook_magic_numbers
      bishop_relevant_bits rook_relevant_bits get_file get_rank get_diagonal
      get_antidiagonal t.
Proof.
  apply AttackTables_eq;
    try (rewrite !(initializeLookupTables_frame _ _ _ _ _ _ _ _ _ _)
           by reflexivity; reflexivity).
  apply (overwrites_again (same_sliders t));
    [apply initializeLookupTables_overwrites|apply same_sliders_refl].
Qed.

End LookupTablesAgain.

Lemma Margins_eq (m n : Margins) :
  reductions m = reductions n -> lmp_margin m = lmp_margin n ->
  see_margin m = see_margin n -> m = n.
Proof. destruct m, n. cbn. intros. subst. reflexivity. Qed.

Ltac margin_overwrites :=
  first
    [ exists ∅; intros ? Hs; split; [exact Hs|];
      cbn [reductions lmp_margin see_margin set_reductions set_lmp_margin
           set_see_margin];
      rewrite (left_id ∅ (∪)); reflexivity
    | eexists; intros ? Hs; split; [exact Hs|];
      cbn [reductions lmp_margin see_margin set_reductions set_lmp_margin
           set_see_margin];
      apply insert_union_singleton_l ].

Section ReductionsAgain.
Variable MAXDEPTH : Z.
Variable fl : Q -> Q.
Variable libm_log : Q -> Q.
Variable libm_pow : Q -> Q -> Q.

Lemma InitReductions_overwrites `{Countable K} (f : Margins -> gmap K Z) :
  (forall k v, overwrites (fun _ => True) f (set_reductions k v)) ->
  (forall k v, overwrites (fun _ => True) f (set_lmp_margin k v)) ->
  (forall k v, overwrites (fun _ => True) f (set_see_margin k v)) ->
  overwrites (fun _ => True) f (InitReductions MAXDEPTH fl libm_log libm_pow).
Proof.
  intros Hr Hl Hs.
  apply (overwrites_ext _ _
           (run_steps
              [set_reductions (0, 0, 0) 0; set_reductions (1, 0, 0) 0;
               for_loop 1 MAXDEPTH (fun i =>
                 for_loop 1 MAXDEPTH
                   (fun j => reductions_body fl libm_log i j));
               for_loop 0 MAXDEPTH (margins_body fl libm_pow)]));
    [reflexivity|].
  apply overwrites_run_steps.
  repeat (apply Forall_cons; split); try apply Forall_nil; auto.
  - apply overwrites_for_loop. intros i _.
    apply overwrites_for_loop. intros j _.
    apply (overwrites_run_steps _ _
             [set_reductions (0, i, j) (trunc (reduction0 fl libm_log i j));
              set_reductions (1, i, j) (trunc (reduction1 fl libm_log i j))]).
    repeat (apply Forall_cons; split); try apply Forall_nil; auto.
  - apply overwrites_for_loop. intros depth _.
    apply (overwrites_run_steps _ _
             [set_lmp_margin (depth, 0) (trunc (lmp0 fl libm_pow depth));
              set_lmp_margin (depth, 1) (trunc (lmp1 fl libm_pow depth));
              set_see_margin (depth, 1) (wrap32 (-80 * depth));
              set_see_margin (depth, 0) (wrap32 (wrap32 (-30 * depth) * depth))]).
    repeat (apply Forall_cons; split); try apply Forall_nil; auto.
Qed.

(** X24: running InitReductions a second time changes nothing. *)
Theorem InitReductions_idempotent (m : Margins) :
  InitReductions MAXDEPTH fl libm_log libm_pow
    (InitReductions MAXDEPTH fl libm_log libm_pow m)
  = InitReductions MAXDEPTH fl libm_log libm_pow m.
Proof.
  apply Margins_eq;
    apply (overwrites_again (fun _ => True)); try exact I;
    apply InitReductions_overwrites; intros; margin_overwrites.
Qed.

End ReductionsAgain.

(** * Running InitAll again *)

Section StartupAgain.
Variable rng : Type.
Variable TTable : Type.
Variable Network : Type.
Variable MaskPawnAttacks : Z -> Z -> Z.
Variable MaskKnightAttacks : Z -> Z.
Variable MaskKingAttacks : Z -> Z.
Variable MaskBishopAttacks : Z -> Z.
Variable MaskRookAttacks : Z -> Z.
Variable BishopAttacksOnTheFly : Z -> Z -> Z.
Variable RookAttacksOnTheFly : Z -> Z -> Z.
Variable bishop_magic_numbers : Z -> Z.
Variable rook_magic_numbers : Z -> Z.
Variable bishop_relevant_bits : Z.
Variable rook_relevant_bits : Z.
Variable get_file : Z -> Z.
Variable get_rank : Z -> Z.
Variable get_diagonal : Z -> Z.
Variable get_antidiagonal : Z -> Z.
Variable GetRandomBitboardNumber : rng -> Z * rng.
Variable MAXDEPTH : Z.
Variable fl : Q -> Q.
Variable libm_log : Q -> Q.
Variable libm_pow : Q -> Q -> Q.
Variable InitTT : Z -> TTable -> TTable.
Variable nnue_init : string -> Network -> Network.

(** InitAttackTables changes nothing in tables it built before
    initializeLookupTables ran. *)
Lemma InitAttackTables_after_lookup (t : AttackTables) :
  InitAttackTables MaskPawnAttacks MaskKnightAttacks MaskKingAttacks
    MaskBishopAttacks MaskRookAttacks BishopAttacksOnTheFly
    RookAttacksOnTheFly bishop_magic_numbers rook_magic_numbers
    bishop_relevant_bits rook_relevant_bits
    (initializeLookupTables bishop_magic_numbers rook_magic_numbers
       bishop_relevant_bits rook_relevant_bits get_file get_rank get_diagonal
       get_antidiagonal
       (InitAttackTables MaskPawnAttacks MaskKnightAttacks MaskKingAttacks
          MaskBishopAttacks MaskRookAttacks BishopAttacksOnTheFly
          RookAttacksOnTheFly bishop_magic_numbers rook_magic_numbers
          bishop_relevant_bits rook_relevant_bits t))
  = initializeLookupTables bishop_magic_numbers rook_magic_numbers
      bishop_relevant_bits rook_relevant_bits get_file get_rank get_diagonal
      get_antidiagonal
      (InitAttackTables MaskPawnAttacks MaskKnightAttacks MaskKingAttacks
         MaskBishopAttacks MaskRookAttacks BishopAttacksOnTheFly
         RookAttacksOnTheFly bishop_magic_numbers rook_magic_numbers
         bishop_relevant_bits rook_relevant_bits t).
Proof.
  set (Init := InitAttackTables MaskPawnAttacks MaskKnightAttacks MaskKingAttacks
         MaskBishopAttacks MaskRookAttacks BishopAttacksOnTheFly
         RookAttacksOnTheFly bishop_magic_numbers rook_magic_numbers
         bishop_relevant_bits rook_relevant_bits).
  set (Look := initializeLookupTables bishop_magic_numbers rook_magic_numbers
         bishop_relevant_bits rook_relevant_bits get_file get_rank get_diagonal
         get_antidiagonal).
  assert (Hfield : forall `{Countable K} (f : AttackTables -> gmap K Z),
    (forall k v u, f (set_SQUARES_BETWEEN_BB k v u) = f u) ->
    overwrites (fun _ => True) f Init ->
    f (Init (Look (Init t))) = f (Look (Init t))).
  { intros K ? ? f Hframe Hover.
    rewrite (overwrites_same (fun _ => True) f Init (Look (Init t)) (Init t)
               Hover I I)
      by (apply initializeLookupTables_frame, Hframe).
    rewrite (overwrites_again (fun _ => True) f Init t Hover I).
    symmetry. apply initializeLookupTables_frame, Hframe. }
  apply AttackTables_eq;
    try (apply Hfield; [reflexivity|];
         apply InitAttackTables_overwrites; intros; store_overwrites).
  apply InitAttackTables_between.
Qed.

(** X25: running InitAll a second time rebuilds the same attack tables,
    squares-between table and margins, but not the same Zobrist keys: the
    generator has moved on, and the second run draws its next 849 numbers. *)
Theorem InitAll_again (g : Globals rng TTable Network) :
  let once :=
    InitAll MaskPawnAttacks MaskKnightAttacks MaskKingAttacks
      MaskBishopAttacks MaskRookAttacks BishopAttacksOnTheFly
      RookAttacksOnTheFly bishop_magic_numbers rook_magic_numbers
      bishop_relevant_bits rook_relevant_bits get_file get_rank get_diagonal
      get_antidiagonal GetRandomBitboardNumber MAXDEPTH fl libm_log libm_pow
      InitTT nnue_init g in
  let twice :=
    InitAll MaskPawnAttacks MaskKnightAttacks MaskKingAttacks
      MaskBishopAttacks MaskRookAttacks BishopAttacksOnTheFly
      RookAttacksOnTheFly bishop_magic_numbers rook_magic_numbers
      bishop_relevant_bits rook_relevant_bits get_file get_rank get_diagonal
      get_antidiagonal GetRandomBitboardNumber MAXDEPTH fl libm_log libm_pow
      InitTT nnue_init once in
  attack_tables twice = attack_tables once /\
  margins twice = margins once /\
  (forall t sq, 0 <= t < 12 -> 0 <= sq < 64 ->
     PieceKeys (keys (hash_keys twice)) !! (t, sq)
     = Some (draw rng GetRandomBitboardNumber (849 + (64 * t + sq))
               (random_state (hash_keys g)))) /\
  random_state (hash_keys twice)
    = rng_after rng GetRandomBitboardNumber (849 + 849)
        (random_state (hash_keys g)).
Proof.
  intros once twice. unfold twice, once, InitAll.
  cbn [attack_tables margins hash_keys].
  split; [|split; [|split]].
  - rewrite InitAttackTables_after_lookup.
    apply AttackTables_eq;
      try (rewrite !(initializeLookupTables_frame _ _ _ _ _ _ _ _ _ _)
             by reflexivity; reflexivity).
    eapply (overwrites_again (same_sliders _));
      [apply initializeLookupTables_overwrites|apply same_sliders_refl].
  - apply Margins_eq;
      apply (overwrites_again (fun _ => True)); try exact I;
      apply InitReductions_overwrites; intros; margin_overwrites.
  - intros t sq Ht Hsq.
    destruct (initHashKeys_spec rng GetRandomBitboardNumber (hash_keys g))
      as (_ & _ & _ & _ & G1).
    destruct (initHashKeys_spec rng GetRandomBitboardNumber
                (initHashKeys rng GetRandomBitboardNumber (hash_keys g)))
      as (HP & _).
    rewrite HP, bool_decide_eq_true_2 by lia.
    rewrite G1, draw_after by lia. reflexivity.
  - destruct (initHashKeys_spec rng GetRandomBitboardNumber (hash_keys g))
      as (_ & _ & _ & _ & G1).
    destruct (initHashKeys_spec rng GetRandomBitboardNumber
                (initHashKeys rng GetRandomBitboardNumber (hash_keys g)))
      as (_ & _ & _ & _ & G2).
    rewrite G2, G1, rng_after_add by lia. reflexivity.
Qed.

End StartupAgain.
